(** * McSAS: Monte-Carlo fitting of small-angle scattering patterns

    A shallow embedding of the optimisation core of [McSAS.py]
    (classes [ParticleModel], [Sphere], [McSASParameters], [SASData] and the
    methods [setData], [clipDataset], [checkParameters],
    [optimScalingAndBackground], [mcFit], [analyse] and the binning loop of
    [histogram]), followed by the properties established about it.

    Conventions of the embedding.
    - A numpy [float64] is a value of [num]: an exact rational, one of the
      two infinities, or NaN.  The special values follow IEEE 754 (as numpy
      does: a division by zero yields an infinity or NaN, it raises
      nothing); rounding is not modelled, every finite operation is exact.
    - Functions that numpy, scipy or the random module provide and that have
      no rational closed form ([sqrt], [pi], [log10], the least-squares
      solver, the random stream) are fields of an environment record [Env].
    - An array that the program can reach through more than one name (the
      prior handed to [mcFit], a slice of [priors]) lives in a store and is
      named by a reference; arrays that stay local are plain lists.
    - A Python exception is a value [Raise e] of the result type [res]. *)

From Stdlib Require Import QArith Qcanon ZArith Lia.
From stdpp Require Import base option list numbers strings.

Set Default Proof Using "Type".
Local Open Scope Qc_scope.

(** ** Numbers *)

Inductive num : Type :=
  | NaN
  | NInf
  | Fin (q : Qc)
  | PInf.

Definition Qcltb (a b : Qc) : bool :=
  match (a ?= b)%Qc with Lt => true | _ => false end.

Definition Qcleb (a b : Qc) : bool :=
  match (a ?= b)%Qc with Gt => false | _ => true end.

Definition Qceqb (a b : Qc) : bool :=
  match (a ?= b)%Qc with Eq => true | _ => false end.

(** Sign of a number: [Lt] negative, [Eq] zero, [Gt] positive, nothing
    for NaN. *)
Definition nsgn (x : num) : option comparison :=
  match x with
  | NaN => None
  | NInf => Some Lt
  | Fin q => Some (q ?= 0)%Qc
  | PInf => Some Gt
  end.

Definition mul_sgn (a b : comparison) : comparison :=
  match a, b with
  | Eq, _ | _, Eq => Eq
  | Lt, Lt | Gt, Gt => Gt
  | _, _ => Lt
  end.

(** The infinity of a given sign; a zero sign stands for the undefined
    forms 0 * inf and 0 / 0. *)
Definition inf_signed (c : comparison) : num :=
  match c with Lt => NInf | Eq => NaN | Gt => PInf end.

Definition nneg (x : num) : num :=
  match x with
  | NaN => NaN
  | NInf => PInf
  | Fin q => Fin (- q)
  | PInf => NInf
  end.

Definition nadd (x y : num) : num :=
  match x, y with
  | NaN, _ | _, NaN => NaN
  | PInf, NInf | NInf, PInf => NaN
  | PInf, _ | _, PInf => PInf
  | NInf, _ | _, NInf => NInf
  | Fin a, Fin b => Fin (a + b)
  end.

Definition nsub (x y : num) : num := nadd x (nneg y).

Definition nmul (x y : num) : num :=
  match x, y with
  | Fin a, Fin b => Fin (a * b)
  | _, _ =>
      match nsgn x, nsgn y with
      | Some sx, Some sy => inf_signed (mul_sgn sx sy)
      | _, _ => NaN
      end
  end.

Definition ndiv (x y : num) : num :=
  match x, y with
  | NaN, _ | _, NaN => NaN
  | Fin a, Fin b =>
      if Qceqb b 0 then inf_signed (a ?= 0)%Qc else Fin (a / b)
  | Fin _, _ => Fin 0
  | _, Fin b =>
      match nsgn x with
      | Some sx => inf_signed (mul_sgn sx (if Qceqb b 0 then Gt else (b ?= 0)%Qc))
      | None => NaN
      end
  | _, _ => NaN
  end.

(** [x ** 2] *)
Definition nsqr (x : num) : num := nmul x x.

Definition nabs (x : num) : num :=
  match x with
  | NaN => NaN
  | NInf | PInf => PInf
  | Fin q => if Qcltb q 0 then Fin (- q) else Fin q
  end.

(** Comparisons are false as soon as one side is NaN. *)
Definition nlt (x y : num) : bool :=
  match x, y with
  | NaN, _ | _, NaN => false
  | _, NInf => false
  | NInf, _ => true
  | PInf, _ => false
  | Fin _, PInf => true
  | Fin a, Fin b => Qcltb a b
  end.

Definition ngt (x y : num) : bool := nlt y x.

Definition nle (x y : num) : bool :=
  match x, y with
  | NaN, _ | _, NaN => false
  | NInf, _ => true
  | _, PInf => true
  | _, NInf => false
  | PInf, _ => false
  | Fin a, Fin b => Qcleb a b
  end.

Definition nge (x y : num) : bool := nle y x.

Definition neqb (x y : num) : bool :=
  match x, y with
  | NInf, NInf | PInf, PInf => true
  | Fin a, Fin b => Qceqb a b
  | _, _ => false
  end.

Definition isnan (x : num) : bool :=
  match x with NaN => true | _ => false end.

Definition isfinite (x : num) : bool :=
  match x with Fin _ => true | _ => false end.

Definition is_fin (x : num) : Prop := exists q, x = Fin q.

Definition nat2num (n : nat) : num := Fin (Q2Qc (inject_Z (Z.of_nat n))).
Definition Z2num (z : Z) : num := Fin (Q2Qc (inject_Z z)).
Definition frac (a : Z) (b : positive) : num := Fin (Q2Qc (a # b)).

Definition n0 : num := Fin 0.
Definition n1 : num := Fin 1.

(** Python's builtin [min] and [max] on a pair, as used on
    [param.valueRange]: the first element is kept unless the second
    compares strictly better. *)
Definition pymin (a b : num) : num := if nlt b a then b else a.
Definition pymax (a b : num) : num := if ngt b a then b else a.

#[global] Instance num_eq_dec : EqDecision num.
Proof. solve_decision. Defined.

(** ** Exceptions *)

Inductive exn : Type :=
  | ValueError
  | IndexError
  | NameError
  | AttributeError
  | ZeroDivisionError
  | TypeError
  | KeyError
  | AssertionError.

Inductive res (A : Type) : Type :=
  | Ok (a : A)
  | Raise (e : exn).
Arguments Ok {A} a.
Arguments Raise {A} e.

#[global] Instance res_ret : MRet res := fun A a => Ok a.
#[global] Instance res_bind : MBind res := fun A B f x =>
  match x with
  | Ok a => f a
  | Raise e => Raise e
  end.

Definition from_option {A : Type} (e : exn) (o : option A) : res A :=
  match o with Some a => Ok a | None => Raise e end.

#[global] Instance exn_eq_dec : EqDecision exn.
Proof. solve_decision. Defined.

#[global] Instance res_eq_dec {A : Type} `{EqDecision A} : EqDecision (res A).
Proof. solve_decision. Defined.

(** ** Arrays *)

(** A one-dimensional array. *)
Abbreviation vec := (list num).

Definition vadd (a b : vec) : vec := zip_with nadd a b.
Definition vsub (a b : vec) : vec := zip_with nsub a b.
Definition vmul (a b : vec) : vec := zip_with nmul a b.
Definition vdiv (a b : vec) : vec := zip_with ndiv a b.
Definition vsqr (a : vec) : vec := fmap nsqr a.
Definition vscale (k : num) (a : vec) : vec := fmap (nmul k) a.
Definition vdivs (a : vec) (k : num) : vec := fmap (fun x => ndiv x k) a.
Definition vadds (a : vec) (k : num) : vec := fmap (fun x => nadd x k) a.

(** [numpy.sum]: accumulation from the left. *)
Definition npsum (a : vec) : num := foldl nadd n0 a.

(** [a.max()] and [a.min()]: NaN wins, an empty array raises. *)
Definition nmax2 (x y : num) : num :=
  if isnan x then x else if isnan y then y else if nlt x y then y else x.
Definition nmin2 (x y : num) : num :=
  if isnan x then x else if isnan y then y else if nlt y x then y else x.

Definition npmax (a : vec) : res num :=
  match a with
  | [] => Raise ValueError
  | x :: xs => Ok (foldl nmax2 x xs)
  end.

Definition npmin (a : vec) : res num :=
  match a with
  | [] => Raise ValueError
  | x :: xs => Ok (foldl nmin2 x xs)
  end.

(** [a.mean()]: the sum over the count; NaN (0/0) for an empty array. *)
Definition npmean (a : vec) : num := ndiv (npsum a) (nat2num (length a)).

(** [a[k]] that raises out of range. *)
Definition item {A : Type} (l : list A) (k : nat) : res A :=
  from_option IndexError (l !! k).

(** [a[:, k]] of an array stored by rows. *)
Fixpoint column (rows : list vec) (k : nat) : res vec :=
  match rows with
  | [] => Ok []
  | r :: rs =>
      x ← item r k;
      xs ← column rs k;
      Ok (x :: xs)
  end.

(** ** The store of shared arrays *)

(** A two-dimensional array is the list of its rows.  A three-dimensional
    array is kept as the list of the slices [a[:, :, k]], the only way the
    program indexes one. *)
Inductive ndarray : Type :=
  | A2 (rows : list vec)
  | A3 (slices : list (list vec)).

Abbreviation loc := nat.
Abbreviation store := (list ndarray).

(** A reference to a whole two-dimensional array, or the view
    [a[:, :, k]] of a three-dimensional one (basic slicing shares the
    memory of its base). *)
Inductive ndref : Type :=
  | Whole (l : loc)
  | Slice (l : loc) (k : nat).

(** What [McSASParameters.prior] and [McSASParameters.priors] hold: the
    empty tuple they default to, or an array. *)
Inductive pyarr : Type :=
  | EmptyTuple
  | Arr (r : ndref).

#[global] Instance ndarray_eq_dec : EqDecision ndarray.
Proof. solve_decision. Defined.
#[global] Instance ndref_eq_dec : EqDecision ndref.
Proof. solve_decision. Defined.
#[global] Instance pyarr_eq_dec : EqDecision pyarr.
Proof. solve_decision. Defined.

Definition deref (h : store) (r : ndref) : option (list vec) :=
  match r with
  | Whole l => match h !! l with Some (A2 rows) => Some rows | _ => None end
  | Slice l k => match h !! l with Some (A3 sl) => sl !! k | _ => None end
  end.

(** Overwrites the rows seen through a reference, in place. *)
Definition assign (h : store) (r : ndref) (rows : list vec) : store :=
  match r with
  | Whole l => <[l := A2 rows]> h
  | Slice l k =>
      match h !! l with
      | Some (A3 sl) => <[l := A3 (<[k := rows]> sl)]> h
      | _ => h
      end
  end.

Definition alloc (h : store) (a : ndarray) : loc * store := (length h, h ++ [a]).

(** [a[i] = row] *)
Definition setrow (h : store) (r : ndref) (i : nat) (row : vec) : res store :=
  rows ← from_option TypeError (deref h r);
  if decide (i < length rows)%nat then Ok (assign h r (<[i := row]> rows))
  else Raise IndexError.

(** The rows of a value: none for the empty tuple. *)
Definition rowsOf (h : store) (a : pyarr) : res (list vec) :=
  match a with
  | EmptyTuple => Ok []
  | Arr r => from_option TypeError (deref h r)
  end.

(** [numpy.size(a)] *)
Definition sizeOf (h : store) (a : pyarr) : res nat :=
  rows ← rowsOf h a; Ok (length (concat rows)).

(** [len(a)], the extent of the first axis. *)
Definition lenOf (h : store) (a : pyarr) : res nat :=
  match a with
  | EmptyTuple => Ok 0%nat
  | Arr (Whole l) =>
      match h !! l with
      | Some (A2 rows) => Ok (length rows)
      | Some (A3 sl) => Ok (length (default [] (head sl)))
      | None => Raise TypeError
      end
  | Arr (Slice _ _ as r) =>
      rows ← from_option TypeError (deref h r); Ok (length rows)
  end.

(** ** What numpy, scipy and the random module provide *)

Record Env : Type := {
  (** state of the global [numpy.random] generator *)
  G : Type;
  (** one draw of [random_sample], a number in [[0, 1)] *)
  random_sample : G -> num * G;
  (** one draw of [randint] below a bound *)
  random_below : nat -> G -> nat * G;
  npsqrt : num -> num;
  npsin : num -> num;
  npcos : num -> num;
  (** [x ** y] for an exponent that is not 2 *)
  nppow : num -> num -> num;
  nplog10 : num -> num;
  nppi : num;
  (** [scipy.optimize.leastsq] on the residual [csqr] (with background) or
      [csqr_nobg] (without): observed, calculated, uncertainty, start *)
  leastsq : bool -> vec -> vec -> vec -> num * num -> res (num * num);
  (** [scipy.optimize.fmin] on [csqr_v1], same arguments *)
  fmin : bool -> vec -> vec -> vec -> num * num -> res (num * num)
}.

(** ** Scattering models *)

(** A model is written as [Sphere] is: it asserts the base-class shape
    check ([paramValues.shape[1] == len(self)]) and then applies a formula
    element by element, so that the volume of a row and its form factor
    at a data point depend on that row and that point alone. *)
Record ParticleModel : Type := {
  (** [param.valueRange] of each parameter, in iteration order *)
  valueRange : list (num * num);
  compensationExponent : num;
  (** compensated volume of one parameter row, for an exponent *)
  vol1 : num -> vec -> num;
  (** form factor of one parameter row at one row of the data *)
  ff1 : vec -> vec -> num
}.

Section Model.
Context (m : ParticleModel).

(** [len(self)] *)
Definition paramCount : nat := length (valueRange m).

Definition shapeOk (paramValues : list vec) : bool :=
  forallb (fun r => bool_decide (length r = paramCount)) paramValues.

(** [self.model.vol(paramValues, compensationExponent)] *)
Definition vol (paramValues : list vec) (exponent : option num) : res vec :=
  if shapeOk paramValues
  then Ok (fmap (vol1 m (default (compensationExponent m) exponent)) paramValues)
  else Raise AssertionError.

(** [self.model.ff(dataset, paramValues)]: element [[j, c]] of the
    result is the form factor of row [c] at data point [j]; the result
    is kept as the list of its columns, one per parameter row. *)
Definition ff (dataset : list vec) (paramValues : list vec) : res (list vec) :=
  if shapeOk paramValues
  then Ok (fmap (fun r => fmap (fun d => ff1 m d r) dataset) paramValues)
  else Raise AssertionError.

(** [self.model.smear(arg)] *)
Definition smear (arg : vec) : vec := arg.
End Model.

(** [Sphere]: one parameter, the radius. *)
Definition Sphere (E : Env) (range : num * num) : ParticleModel := {|
  valueRange := [range];
  compensationExponent := frac 1 2;
  vol1 := fun c row =>
    let r := default NaN (row !! 0%nat) in
    nmul (ndiv (nmul (nppi E) (Z2num 4)) (Z2num 3))
         (nppow E r (nmul (Z2num 3) c));
  ff1 := fun d row =>
    let r := default NaN (row !! 0%nat) in
    let q := default NaN (d !! 0%nat) in
    let qr := nmul q r in
    ndiv (nmul (Z2num 3) (nsub (npsin E qr) (nmul qr (npcos E qr))))
         (nppow E qr (Z2num 3))
|}.

(** ** Settings *)

Inductive oneOrList (A : Type) : Type :=
  | One (a : A)
  | Many (l : list A).
Arguments One {A} a.
Arguments Many {A} l.

Inductive xscale : Type := ScaleLin | ScaleLog.

Record McSASParameters : Type := {
  contribParamBounds : list num;
  numContribs : nat;
  maxIterations : nat;
  numReps : nat;
  qBounds : option (list num);
  psiBounds : option (list num);
  priors : pyarr;
  prior : pyarr;
  histogramBins : oneOrList nat;
  histogramXScale : oneOrList xscale;
  deltaRhoSquared : num;
  convergenceCriterion : num;
  startFromMinimum : bool;
  maxRetries : nat;
  maskNegativeInt : bool;
  maskZeroInt : bool;
  lowMemoryFootprint : bool
}.

Definition setPrior (P : McSASParameters) (p : pyarr) : McSASParameters :=
  {| contribParamBounds := contribParamBounds P; numContribs := numContribs P;
     maxIterations := maxIterations P; numReps := numReps P;
     qBounds := qBounds P; psiBounds := psiBounds P; priors := priors P;
     prior := p;
     histogramBins := histogramBins P; histogramXScale := histogramXScale P;
     deltaRhoSquared := deltaRhoSquared P;
     convergenceCriterion := convergenceCriterion P;
     startFromMinimum := startFromMinimum P; maxRetries := maxRetries P;
     maskNegativeInt := maskNegativeInt P; maskZeroInt := maskZeroInt P;
     lowMemoryFootprint := lowMemoryFootprint P |}.

Definition setLowMemoryFootprint (P : McSASParameters) (b : bool) : McSASParameters :=
  {| contribParamBounds := contribParamBounds P; numContribs := numContribs P;
     maxIterations := maxIterations P; numReps := numReps P;
     qBounds := qBounds P; psiBounds := psiBounds P; priors := priors P;
     prior := prior P;
     histogramBins := histogramBins P; histogramXScale := histogramXScale P;
     deltaRhoSquared := deltaRhoSquared P;
     convergenceCriterion := convergenceCriterion P;
     startFromMinimum := startFromMinimum P; maxRetries := maxRetries P;
     maskNegativeInt := maskNegativeInt P; maskZeroInt := maskZeroInt P;
     lowMemoryFootprint := b |}.


(** The assignment of one attribute, [McSASParameters.name = v]. *)
Definition setNumContribs (P : McSASParameters) (v : nat) : McSASParameters :=
  {| contribParamBounds := contribParamBounds P; numContribs := v;
     maxIterations := maxIterations P; numReps := numReps P;
     qBounds := qBounds P; psiBounds := psiBounds P; priors := priors P;
     prior := prior P; histogramBins := histogramBins P;
     histogramXScale := histogramXScale P;
     deltaRhoSquared := deltaRhoSquared P;
     convergenceCriterion := convergenceCriterion P;
     startFromMinimum := startFromMinimum P; maxRetries := maxRetries P;
     maskNegativeInt := maskNegativeInt P; maskZeroInt := maskZeroInt P;
     lowMemoryFootprint := lowMemoryFootprint P |}.

Definition setMaxIterations (P : McSASParameters) (v : nat) : McSASParameters :=
  {| contribParamBounds := contribParamBounds P;
     numContribs := numContribs P; maxIterations := v; numReps := numReps P;
     qBounds := qBounds P; psiBounds := psiBounds P; priors := priors P;
     prior := prior P; histogramBins := histogramBins P;
     histogramXScale := histogramXScale P;
     deltaRhoSquared := deltaRhoSquared P;
     convergenceCriterion := convergenceCriterion P;
     startFromMinimum := startFromMinimum P; maxRetries := maxRetries P;
     maskNegativeInt := maskNegativeInt P; maskZeroInt := maskZeroInt P;
     lowMemoryFootprint := lowMemoryFootprint P |}.

Definition setNumReps (P : McSASParameters) (v : nat) : McSASParameters :=
  {| contribParamBounds := contribParamBounds P;
     numContribs := numContribs P; maxIterations := maxIterations P;
     numReps := v; qBounds := qBounds P; psiBounds := psiBounds P;
     priors := priors P; prior := prior P; histogramBins := histogramBins P;
     histogramXScale := histogramXScale P;
     deltaRhoSquared := deltaRhoSquared P;
     convergenceCriterion := convergenceCriterion P;
     startFromMinimum := startFromMinimum P; maxRetries := maxRetries P;
     maskNegativeInt := maskNegativeInt P; maskZeroInt := maskZeroInt P;
     lowMemoryFootprint := lowMemoryFootprint P |}.

Definition setPriors (P : McSASParameters) (v : pyarr) : McSASParameters :=
  {| contribParamBounds := contribParamBounds P;
     numContribs := numContribs P; maxIterations := maxIterations P;
     numReps := numReps P; qBounds := qBounds P; psiBounds := psiBounds P;
     priors := v; prior := prior P; histogramBins := histogramBins P;
     histogramXScale := histogramXScale P;
     deltaRhoSquared := deltaRhoSquared P;
     convergenceCriterion := convergenceCriterion P;
     startFromMinimum := startFromMinimum P; maxRetries := maxRetries P;
     maskNegativeInt := maskNegativeInt P; maskZeroInt := maskZeroInt P;
     lowMemoryFootprint := lowMemoryFootprint P |}.

Definition setConvergenceCriterion (P : McSASParameters) (v : num) : McSASParameters :=
  {| contribParamBounds := contribParamBounds P;
     numContribs := numContribs P; maxIterations := maxIterations P;
     numReps := numReps P; qBounds := qBounds P; psiBounds := psiBounds P;
     priors := priors P; prior := prior P; histogramBins := histogramBins P;
     histogramXScale := histogramXScale P;
     deltaRhoSquared := deltaRhoSquared P; convergenceCriterion := v;
     startFromMinimum := startFromMinimum P; maxRetries := maxRetries P;
     maskNegativeInt := maskNegativeInt P; maskZeroInt := maskZeroInt P;
     lowMemoryFootprint := lowMemoryFootprint P |}.

Definition setStartFromMinimum (P : McSASParameters) (v : bool) : McSASParameters :=
  {| contribParamBounds := contribParamBounds P;
     numContribs := numContribs P; maxIterations := maxIterations P;
     numReps := numReps P; qBounds := qBounds P; psiBounds := psiBounds P;
     priors := priors P; prior := prior P; histogramBins := histogramBins P;
     histogramXScale := histogramXScale P;
     deltaRhoSquared := deltaRhoSquared P;
     convergenceCriterion := convergenceCriterion P; startFromMinimum := v;
     maxRetries := maxRetries P; maskNegativeInt := maskNegativeInt P;
     maskZeroInt := maskZeroInt P;
     lowMemoryFootprint := lowMemoryFootprint P |}.

Definition setMaxRetries (P : McSASParameters) (v : nat) : McSASParameters :=
  {| contribParamBounds := contribParamBounds P;
     numContribs := numContribs P; maxIterations := maxIterations P;
     numReps := numReps P; qBounds := qBounds P; psiBounds := psiBounds P;
     priors := priors P; prior := prior P; histogramBins := histogramBins P;
     histogramXScale := histogramXScale P;
     deltaRhoSquared := deltaRhoSquared P;
     convergenceCriterion := convergenceCriterion P;
     startFromMinimum := startFromMinimum P; maxRetries := v;
     maskNegativeInt := maskNegativeInt P; maskZeroInt := maskZeroInt P;
     lowMemoryFootprint := lowMemoryFootprint P |}.

(** The class attributes of [McSASParameters] as the source sets them. *)
Definition defaultParameters : McSASParameters := {|
  contribParamBounds := [];
  numContribs := 200;
  maxIterations := 100 * 1000;
  numReps := 100;
  qBounds := None;
  psiBounds := None;
  priors := EmptyTuple;
  prior := EmptyTuple;
  histogramBins := One 50%nat;
  histogramXScale := One ScaleLog;
  deltaRhoSquared := n1;
  convergenceCriterion := n1;
  startFromMinimum := false;
  maxRetries := 5;
  maskNegativeInt := false;
  maskZeroInt := false;
  lowMemoryFootprint := false
|}.

(** ** The state a run threads through *)

Record World (E : Env) : Type := {
  heap : store;
  rng : G E
}.
Arguments heap {E} w.
Arguments rng {E} w.

Definition withHeap {E : Env} (w : World E) (h : store) : World E :=
  {| heap := h; rng := rng w |}.
Definition withRng {E : Env} (w : World E) (g : G E) : World E :=
  {| heap := heap w; rng := g |}.

(** ** Scaling and background *)

Section Scaling.
Context (E : Env).

(** [csqr_v1]: squared residuals over the uncertainty, averaged. *)
Definition csqr_v1 (intObs intCalc error : vec) : num :=
  ndiv (npsum (vsqr (vdiv (vsub intObs intCalc) error)))
       (nat2num (length intObs)).

(** [optimScalingAndBackground]; [ver = 2] is the default.  The fitted
    pair comes from scipy, the convergence value is computed here. *)
Definition optimScalingAndBackground (intObs intCalc error : vec)
    (sc : num * num) (ver : nat) (background : bool) : res ((num * num) * num) :=
  let solver := if decide (ver = 2%nat) then leastsq E else fmin E in
  sc' ← solver background intObs intCalc error sc;
  if background then
    Ok (sc', csqr_v1 intObs (vadds (vscale sc'.1 intCalc) sc'.2) error)
  else
    Ok ((sc'.1, Fin 0), csqr_v1 intObs (vscale sc'.1 intCalc) error).
End Scaling.

(** ** The Monte-Carlo fit *)

Section McFit.
Context (E : Env) (m : ParticleModel).

(** [numpy.random.uniform(low, high, count)] *)
Fixpoint uniform (low high : num) (count : nat) (g : G E) : vec * G E :=
  match count with
  | O => ([], g)
  | S n =>
      let '(u, g1) := random_sample E g in
      let '(us, g2) := uniform low high n g1 in
      (nadd low (nmul (nsub high low) u) :: us, g2)
  end.

(** [numpy.random.randint(bound, size = count)] *)
Fixpoint randint (bound count : nat) (g : G E) : list nat * G E :=
  match count with
  | O => ([], g)
  | S n =>
      let '(i, g1) := random_below E bound g in
      let '(rest, g2) := randint bound n g1 in
      (i :: rest, g2)
  end.

(** The columns [randUniform] fills, one parameter after the other. *)
Fixpoint drawColumns (ranges : list (num * num)) (count : nat) (g : G E)
    : list vec * G E :=
  match ranges with
  | [] => ([], g)
  | (a, b) :: rest =>
      let '(c, g1) := uniform (pymin a b) (pymax a b) count g in
      let '(cs, g2) := drawColumns rest count g1 in
      (c :: cs, g2)
  end.

(** The rows of a [count]-row array of zeros whose columns were
    overwritten by [cols]. *)
Definition rowsOfColumns (count : nat) (cols : list vec) : list vec :=
  fmap (fun i => fmap (fun c => default n0 (c !! i)) cols) (seq 0 count).

(** [self.model.randUniform(count)] *)
Definition randUniform (count : nat) (g : G E) : list vec * G E :=
  let '(cols, g') := drawColumns (valueRange m) count g in
  (rowsOfColumns count cols, g').

(** The value [startFromMinimum] writes into column [idx] of every row:
    [numpy.ones(numContribs) * mb * .5]. *)
Definition minimumValue (q : vec) (range : num * num) : res num :=
  let mb := pymin range.1 range.2 in
  mb' ← (if neqb mb n0 then qmax ← npmax q; Ok (ndiv (nppi E) qmax) else Ok mb);
  Ok (nmul (nmul n1 mb') (frac 1 2)).

Definition minimumRow (q : vec) : res vec :=
  mapM (minimumValue q) (valueRange m).

(** [prior[randomIndices, :]] *)
Definition takeRows (rows : list vec) (idx : list nat) : res (list vec) :=
  mapM (item rows) idx.

(** Lines 1186-1222: the initial set of contributions.  Returns the
    reference bound to [rset], the local [numContribs] and the world. *)
Definition seed (P : McSASParameters) (q : vec) (w : World E)
    : res (ndref * nat * World E) :=
  let N := numContribs P in
  let fresh (rows : list vec) (w : World E) :=
    let '(l, h') := alloc (heap w) (A2 rows) in (Whole l, N, withHeap w h') in
  sz ← sizeOf (heap w) (prior P);
  if decide (sz = 0%nat) then
    if startFromMinimum P then
      row ← minimumRow q;
      Ok (fresh (replicate N row) w)
    else
      let '(rows, g') := randUniform N (rng w) in
      Ok (fresh rows (withRng w g'))
  else
    match prior P with
    | EmptyTuple => Raise AttributeError
    | Arr r =>
        rows ← from_option TypeError (deref (heap w) r);
        let p := length rows in
        if decide (p ≠ 0%nat) then Ok (r, p, w)
        else if decide (p = N) then Ok (r, N, w)
        else if decide (p < N)%nat then
          let '(idx, g') := randint p (N - p) (rng w) in
          extra ← takeRows rows idx;
          Ok (fresh (rows ++ extra) (withRng w g'))
        else if decide (N < p)%nat then
          let '(idx, g') := randint p N (rng w) in
          sub ← takeRows rows idx;
          Ok (fresh sub (withRng w g'))
        else Ok (fresh (replicate N (replicate (paramCount m) n0)) w)
    end.

(** Intensity of one contribution over the data points:
    [ff ** 2 * v ** 2]. *)
Definition contribIntensity (fcol : vec) (v : num) : vec :=
  fmap (fun f => nmul (nsqr f) (nsqr v)) fcol.

(** A column of [ffset**2 * numpy.outer(numpy.ones(n), vset**2)]. *)
Definition cachedIntensity (fcol : vec) (v : num) : vec :=
  fmap (fun f => nmul (nsqr f) (nmul n1 (nsqr v))) fcol.

(** [iset.sum(axis = 1)], the array being kept by columns. *)
Definition sumColumns (n : nat) (cols : list vec) : vec :=
  foldl vadd (replicate n n0) cols.

(** The low-memory accumulation [it = 0; for i ...: it += ...].  [None]
    is the integer [0] the loop starts from. *)
Fixpoint lowMemoryTotal (dataset : list vec) (rows : list vec) (vset : vec)
    (acc : option vec) : res (option vec) :=
  match rows with
  | [] => Ok acc
  | r :: rest =>
      ffset ← ff m dataset [r];
      fcol ← item ffset 0;
      v ← item vset 0;
      let term := contribIntensity fcol v in
      let acc' := match acc with
                  | None => fmap (nadd n0) term
                  | Some a => vadd a term
                  end in
      lowMemoryTotal dataset rest (drop 1 vset) (Some acc')
  end.

(** The local variables of [mcFit] that the loop reads and writes.
    [iset] exists in the cached mode only.  [itColumn] records that [it]
    still has the shape [(n, 1)] the low-memory accumulation gives it;
    a replacement rebinds [it] to a flat array. *)
Record FitState : Type := {
  rset : ndref;
  numContribsLocal : nat;
  vset : vec;
  iset : option (list vec);
  it : vec;
  itColumn : bool;
  vst : num;
  sc : num * num;
  conval : num;
  numMoves : nat;
  numNotAccepted : nat;
  numIter : nat;
  ri : nat
}.

(** Lines 1183-1280: everything before the loop. *)
Definition mcInit (P : McSASParameters) (dataset : list vec) (w : World E)
    : res (FitState * World E) :=
  q ← column dataset 0;
  '(rs, N, w1) ← seed P q w;
  rows ← from_option TypeError (deref (heap w1) rs);
  vs ← vol m rows None;
  '(cache, total, isCol) ←
    (if negb (lowMemoryFootprint P) then
       ffset ← ff m dataset rows;
       let cols := zip_with cachedIntensity ffset vs in
       Ok (Some cols, Some (sumColumns (length dataset) cols), false)
     else
       t ← lowMemoryTotal dataset rows vs None;
       Ok (None, t, true));
  let vst0 := npsum (vsqr vs) in
  intensity ← column dataset 1;
  error ← column dataset 2;
  imax ← npmax intensity;
  it0 ← from_option AttributeError total;
  let it0 := smear it0 in
  itmax ← npmax it0;
  let sci := ndiv imax itmax in
  bgi ← npmin intensity;
  '(sc1, _) ← optimScalingAndBackground E intensity (vdivs it0 vst0) error (sci, bgi) 1 true;
  '(sc2, conval2) ← optimScalingAndBackground E intensity (vdivs it0 vst0) error sc1 2 true;
  Ok ({| rset := rs; numContribsLocal := N; vset := vs; iset := cache;
         it := it0; itColumn := isCol; vst := vst0; sc := sc2;
         conval := conval2; numMoves := 0; numNotAccepted := 0;
         numIter := 0; ri := 0 |}, w1).

(** Lines 1283-1286: the trial contribution, as its parameter row, its
    intensity [itt] and its volume [vtt]. *)
Definition trial (dataset : list vec) (w : World E)
    : res (vec * vec * num * World E) :=
  let '(rt, g1) := randUniform 1 (rng w) in
  ft ← ff m dataset rt;
  vtts ← vol m rt None;
  fcol ← item ft 0;
  vtt ← item vtts 0;
  rtRow ← item rt 0;
  Ok (rtRow, contribIntensity fcol vtt, vtt, withRng w g1).

(** Line 1293: [it - iset[:, ri] + itt] *)
Definition candidateCached (st : FitState) (itt : vec) : res vec :=
  cols ← from_option NameError (iset st);
  old ← item cols (ri st);
  Ok (vadd (vsub (it st) old) itt).

(** Lines 1295-1297: the same from the recomputed intensity [io] of the
    contribution [ri]. *)
Definition candidateLowMemory (dataset : list vec) (st : FitState)
    (itt : vec) (w : World E) : res vec :=
  rows ← from_option TypeError (deref (heap w) (rset st));
  r ← item rows (ri st);
  fo ← ff m dataset [r];
  focol ← item fo 0;
  v ← item (vset st) (ri st);
  let io := contribIntensity focol v in
  Ok (vadd (vsub (it st) io) itt).

(** Lines 1309-1312 and 1317-1340: the replacement is taken. *)
Definition accept (st : FitState) (rtRow itt : vec) (vtt : num)
    (itest : vec) (vstest : num) (sct : num * num) (convalt : num)
    (w : World E) : res (FitState * World E) :=
  h' ← setrow (heap w) (rset st) (ri st) rtRow;
  Ok ({| rset := rset st; numContribsLocal := numContribsLocal st;
         vset := <[ri st := vtt]> (vset st);
         iset := (fun cols => <[ri st := itt]> cols) <$> iset st;
         it := itest; itColumn := false; vst := vstest;
         sc := sct; conval := convalt;
         numMoves := S (numMoves st); numNotAccepted := 0;
         numIter := numIter st; ri := ri st |}, withHeap w h').

(** Line 1344: it is not. *)
Definition reject (st : FitState) : FitState :=
  {| rset := rset st; numContribsLocal := numContribsLocal st;
     vset := vset st; iset := iset st;
     it := it st; itColumn := itColumn st; vst := vst st;
     sc := sc st; conval := conval st;
     numMoves := numMoves st;
     numNotAccepted := S (numNotAccepted st);
     numIter := numIter st; ri := ri st |}.

(** Lines 1346-1347: on to the next contribution. *)
Definition advance (st : FitState) : res FitState :=
  if decide (numContribsLocal st = 0%nat) then Raise ZeroDivisionError
  else
    Ok {| rset := rset st; numContribsLocal := numContribsLocal st;
          vset := vset st; iset := iset st; it := it st;
          itColumn := itColumn st; vst := vst st; sc := sc st;
          conval := conval st; numMoves := numMoves st;
          numNotAccepted := numNotAccepted st;
          numIter := S (numIter st);
          ri := (S (ri st) mod numContribsLocal st)%nat |}.

(** Line 1301: the candidate for the total of the squared volumes. *)
Definition candidateVolume (st : FitState) (vri vtt : num) : num :=
  nadd (nsqr (nsub (npsqrt E (vst st)) vri)) (nsqr vtt).

(** Lines 1283-1347: one pass through the body of the loop. *)
Definition mcStep (P : McSASParameters) (dataset : list vec)
    (intObs error : vec) (st : FitState) (w : World E)
    : res (FitState * World E) :=
  '(rtRow, itt, vtt, w1) ← trial dataset w;
  itest ← (if negb (lowMemoryFootprint P) then candidateCached st itt
           else candidateLowMemory dataset st itt w1);
  let itest := smear itest in
  vri ← item (vset st) (ri st);
  let vstest := candidateVolume st vri vtt in
  '(sct, convalt) ←
    optimScalingAndBackground E intObs (vdivs itest vstest) error (sc st) 2 true;
  '(st', w') ←
    (if nlt convalt (conval st)
     then accept st rtRow itt vtt itest vstest sct convalt w1
     else Ok (reject st, w1));
  st'' ← advance st';
  Ok (st'', w').

(** The test of the [while] loop. *)
Definition keepIterating (P : McSASParameters) (st : FitState) : bool :=
  ngt (conval st) (convergenceCriterion P)
  && bool_decide (numIter st < maxIterations P)%nat.

(** At most [fuel] passes of the loop, from a given state. *)
Fixpoint mcIterate (fuel : nat) (P : McSASParameters) (dataset : list vec)
    (intObs error : vec) (st : FitState) (w : World E)
    : res (FitState * World E) :=
  match fuel with
  | O => Ok (st, w)
  | S k =>
      if keepIterating P st then
        '(st', w') ← mcStep P dataset intObs error st w;
        mcIterate k P dataset intObs error st' w'
      else Ok (st, w)
  end.

(** What [mcFit(outputIntensity = True, outputDetails = True)] returns:
    the array bound to [rset], the fitted intensity with its shape, the
    convergence value of the last scaling pass, and the details. *)
Record McFitResult : Type := {
  fitContribs : ndref;
  fitIntensity : vec;
  fitIntensityColumn : bool;
  fitConval : num;
  fitNumIterations : nat;
  fitNumMoves : nat
}.

(** Lines 1349-1377: the last scaling pass and the result. *)
Definition mcFinish (intObs error : vec) (st : FitState)
    : res McFitResult :=
  let ifinal := smear (vdivs (it st) (npsum (vsqr (vset st)))) in
  '(scf, convalf) ← optimScalingAndBackground E intObs ifinal error (sc st) 2 true;
  Ok {| fitContribs := rset st;
        fitIntensity := vadds (vscale scf.1 ifinal) scf.2;
        fitIntensityColumn := itColumn st;
        fitConval := convalf;
        fitNumIterations := numIter st;
        fitNumMoves := numMoves st |}.

(** The state in which the loop of [mcFit] is after at most [k] passes. *)
Definition mcFitUpTo (k : nat) (P : McSASParameters) (dataset : list vec)
    (w : World E) : res (FitState * World E) :=
  '(st0, w0) ← mcInit P dataset w;
  intObs ← column dataset 1;
  error ← column dataset 2;
  mcIterate k P dataset intObs error st0 w0.

(** [self.mcFit(outputIntensity = True, outputDetails = True)] *)
Definition mcFit (P : McSASParameters) (dataset : list vec) (w : World E)
    : res (McFitResult * World E) :=
  '(st, w') ← mcFitUpTo (maxIterations P) P dataset w;
  intObs ← column dataset 1;
  error ← column dataset 2;
  r ← mcFinish intObs error st;
  Ok (r, w').
End McFit.

(** ** Repetitions *)

(** The dictionary [analyse] appends to [self.result].
    [finalConvergence] is not a key of it: it is the history of the local
    [convergence], one value per repetition, kept to state properties. *)
Record AnalysisResult : Type := {
  contribs : list (list vec);
  finalConvergence : list num;
  fitIntMean : vec;
  fitIntStd : vec;
  fitQ : vec;
  numIterMean : num
}.

(** [value] broadcast into a row of [C] entries. *)
Definition broadcastRow (C : nat) (row : vec) : res vec :=
  if decide (length row = C) then Ok row
  else match row with
       | [x] => Ok (replicate C x)
       | _ => Raise ValueError
       end.

(** The assignment [target[:, :, nr] = value] for a target slice of shape
    [(R, C)]: numpy stretches an axis of length one and refuses any other
    mismatch. *)
Definition broadcastTo (R C : nat) (value : list vec) : res (list vec) :=
  rows ← mapM (broadcastRow C) value;
  if decide (length rows = R) then Ok rows
  else match rows with
       | [r] => Ok (replicate R r)
       | _ => Raise ValueError
       end.

(** Mean and standard deviation along the last axis of an array kept as
    the list of its slices. *)
Definition meanAcross (n : nat) (slices : list vec) : vec :=
  fmap (fun j => npmean (fmap (fun s => default n0 (s !! j)) slices)) (seq 0 n).

Definition npstd (E : Env) (a : vec) : num :=
  let mu := npmean a in
  npsqrt E (npmean (fmap (fun x => nsqr (nabs (nsub x mu))) a)).

Definition stdAcross (E : Env) (n : nat) (slices : list vec) : vec :=
  fmap (fun j => npstd E (fmap (fun s => default n0 (s !! j)) slices)) (seq 0 n).

Section Analyse.
Context (E : Env) (m : ParticleModel).

(** The local arrays of [analyse] and what the last call of [mcFit]
    left in [details].  [convergences] is a history variable: the value
    the local [convergence] holds at the end of each repetition, which
    the program itself overwrites. *)
Record Locals : Type := {
  contributions : list (list vec);
  contribIntensities : list vec;
  numIters : vec;
  details : option (nat * nat);
  priorsflag : bool;
  convergences : list num
}.

Definition assignFit (P : McSASParameters) (n : nat) (L : Locals) (nr : nat)
    (r : McFitResult) (w : World E) : res Locals :=
  rows ← from_option TypeError (deref (heap w) (fitContribs r));
  slice ← broadcastTo (numContribs P) (paramCount m) rows;
  let shaped := if fitIntensityColumn r
                then fmap (fun x => [x]) (fitIntensity r)
                else [fitIntensity r] in
  islice ← broadcastTo 1 n shaped;
  irow ← item islice 0;
  Ok {| contributions := <[nr := slice]> (contributions L);
        contribIntensities := <[nr := irow]> (contribIntensities L);
        numIters := numIters L;
        details := Some (fitNumIterations r, fitNumMoves r);
        priorsflag := priorsflag L;
        convergences := convergences L |}.

(** How the [while convergence > convergenceCriterion] loop ends. *)
Inductive RetryEnd : Type :=
  | Exited (L : Locals) (nt : nat) (convergence : num) (w : World E)
  | GaveUp (nt : nat) (w : World E)
  | StillTrying (L : Locals) (nt : nat) (convergence : num) (w : World E).

(** Lines 1130-1143, at most [fuel] passes. *)
Fixpoint retry (fuel : nat) (P : McSASParameters) (dataset : list vec)
    (nr nt : nat) (convergence : num) (L : Locals) (w : World E)
    : res RetryEnd :=
  match fuel with
  | O => Ok (StillTrying L nt convergence w)
  | S k =>
      if ngt convergence (convergenceCriterion P) then
        let nt := S nt in
        '(r, w') ← mcFit E m P dataset w;
        L' ← assignFit P (length dataset) L nr r w';
        if decide (maxRetries P < nt)%nat then Ok (GaveUp nt w')
        else retry k P dataset nr nt (fitConval r) L' w'
      else Ok (Exited L nt convergence w)
  end.

(** Lines 1121-1125: the prior of repetition [nr]. *)
Definition selectPrior (P : McSASParameters) (prior0 : pyarr) (flag : bool)
    (nr : nat) (h : store) : res (bool * McSASParameters) :=
  lp ← lenOf h prior0;
  fromPriors ←
    (if decide (lp ≤ 0)%nat
     then lps ← lenOf h (priors P); Ok (bool_decide (0 < lps)%nat)
     else Ok false);
  if fromPriors || flag then
    match priors P with
    | Arr (Whole l) =>
        match h !! l with
        | Some (A3 sl) =>
            if decide (length sl = 0%nat) then Raise ZeroDivisionError
            else Ok (true, setPrior P (Arr (Slice l (nr mod length sl)%nat)))
        | _ => Raise IndexError
        end
    | _ => Raise IndexError
    end
  else Ok (flag, P).

(** How [analyse] ends: with a result appended, or by the early
    [return] of repetition [nr] after [nt] calls of [mcFit]. *)
Inductive AnalyseEnd : Type :=
  | Stored (r : AnalysisResult)
  | Abandoned (nr nt : nat).

(** The [for nr in range(numReps)] loop over the repetitions still to
    run.  [None] in place of the locals is the early return. *)
Fixpoint repetitions (todo : list nat) (P : McSASParameters) (prior0 : pyarr)
    (dataset : list vec) (L : Locals) (w : World E)
    : res ((Locals + nat * nat) * McSASParameters * World E) :=
  match todo with
  | [] => Ok (inl L, P, w)
  | nr :: rest =>
      '(flag, P1) ← selectPrior P prior0 (priorsflag L) nr (heap w);
      let L1 := {| contributions := contributions L;
                   contribIntensities := contribIntensities L;
                   numIters := numIters L; details := details L;
                   priorsflag := flag;
                   convergences := convergences L |} in
      e ← retry (S (maxRetries P1)) P1 dataset nr 0 PInf L1 w;
      match e with
      | GaveUp nt w' => Ok (inr (nr, nt), P1, w')
      | StillTrying _ nt _ w' => Ok (inr (nr, nt), P1, w')
      | Exited L2 nt c w' =>
          d ← from_option NameError (details L2);
          let L3 := {| contributions := contributions L2;
                       contribIntensities := contribIntensities L2;
                       numIters := <[nr := nat2num d.1]> (numIters L2);
                       details := details L2;
                       priorsflag := priorsflag L2;
                       convergences := convergences L2 ++ [c] |} in
          repetitions rest P1 prior0 dataset L3 w'
      end
  end.

(** [analyse]: returns how it ended together with the settings (whose
    [prior] it rebinds) and the world. *)
Definition analyse (P : McSASParameters) (dataset : list vec) (w : World E)
    : res (AnalyseEnd * McSASParameters * World E) :=
  let n := length dataset in
  let L0 := {| contributions :=
                 replicate (numReps P)
                   (replicate (numContribs P) (replicate (paramCount m) n0));
               contribIntensities := replicate (numReps P) (replicate n n0);
               numIters := replicate (numReps P) n0;
               details := None;
               priorsflag := false;
               convergences := [] |} in
  '(out, P', w') ← repetitions (seq 0 (numReps P)) P (prior P) dataset L0 w;
  match out with
  | inr (nr, nt) => Ok (Abandoned nr nt, P', w')
  | inl L =>
      q ← column dataset 0;
      Ok (Stored {| contribs := contributions L;
                    finalConvergence := convergences L;
                    fitIntMean := meanAcross n (contribIntensities L);
                    fitIntStd := stdAcross E n (contribIntensities L);
                    fitQ := q;
                    numIterMean := npmean (numIters L) |}, P', w')
  end.
End Analyse.

Arguments Exited {E} L nt convergence w.
Arguments GaveUp {E} nt w.
Arguments StillTrying {E} L nt convergence w.

(** ** Histogramming *)

(** [a[mask]] *)
Fixpoint masked {A : Type} (mask : list bool) (a : list A) : list A :=
  match mask, a with
  | true :: ms, x :: xs => x :: masked ms xs
  | false :: ms, _ :: xs => masked ms xs
  | _, _ => []
  end.

(** [numpy.linspace(start, stop, count)] *)
Definition linspace (start stop : num) (count : nat) : vec :=
  let step := ndiv (nsub stop start) (nat2num (count - 1)) in
  fmap (fun i => if decide (i = 0%nat) then start
                else if decide (S i = count) then stop
                else nadd start (nmul (nat2num i) step))
      (seq 0 count).

(** [numpy.diff(a)] *)
Definition npdiff (a : vec) : vec := zip_with nsub (drop 1 a) a.

Section Histogram.
Context (E : Env).

(** Lines 1568-1579: the bin edges of one parameter. *)
Definition histogramEdges (scale : xscale) (range : num * num) (bins : nat) : vec :=
  let lo := pymin range.1 range.2 in
  let hi := pymax range.1 range.2 in
  match scale with
  | ScaleLin => linspace lo hi (bins + 1)
  | ScaleLog =>
      fmap (nppow E (Z2num 10))
          (linspace (nplog10 E lo) (nplog10 E hi) (bins + 1))
  end.

(** Lines 1606-1607: which contributions fall into bin [bini]. *)
Definition binMask (edges : vec) (bini : nat) (values : vec) : res (list bool) :=
  lo ← item edges bini;
  hi ← item edges (S bini);
  Ok (fmap (fun r => nge r lo && nlt r hi) values).

(** What one repetition leaves in one bin. *)
Record BinOfRepetition : Type := {
  volHistRepY : num;
  numHistRepY : num;
  minReqVolBin : num;
  minReqNumBin : num
}.

(** Lines 1604-1623: the body of the loop over the bins, for the
    contributions of one repetition.  [values] is
    [contribs[:, paramIndex, ri]]; the four arrays are the columns [ri]
    of [volumeFraction], [numberFraction], [minReqVol], [minReqNum]. *)
Definition binOfRepetition (edges values : vec)
    (volumeFraction numberFraction minReqVol minReqNum : vec) (bini : nat)
    : res BinOfRepetition :=
  mask ← binMask edges bini values;
  let volY := npsum (masked mask volumeFraction) in
  let numY := npsum (masked mask numberFraction) in
  let '(mrv, mrn) :=
    if negb (existsb id mask) then (n0, n0)
    else (npmean (masked mask minReqVol), npmean (masked mask minReqNum)) in
  if isnan volY
  then Ok {| volHistRepY := n0; numHistRepY := n0;
             minReqVolBin := mrv; minReqNumBin := mrn |}
  else Ok {| volHistRepY := volY; numHistRepY := numY;
             minReqVolBin := mrv; minReqNumBin := mrn |}.

(** Lines 1626-1629: the reported minimum of one bin, from the values
    [vb = minReqVolBin[bini, :]] and [nb = minReqNumBin[bini, :]] of all
    repetitions. *)
Definition histMinReq (vb nb : vec) : res (num * num) :=
  let keep := fmap (fun v => nlt v PInf) vb in
  volMin ← npmax (masked keep vb);
  numMin ← npmax (masked keep nb);
  Ok (volMin, numMin).

(** The per-repetition inputs of the binning. *)
Record RepetitionFractions : Type := {
  repValues : vec;
  repVolumeFraction : vec;
  repNumberFraction : vec;
  repMinReqVol : vec;
  repMinReqNum : vec
}.

(** One bin of the histogram of one parameter. *)
Record HistogramBin : Type := {
  histogramXLowerEdge : num;
  histogramXMean : num;
  volumeHistogramRepetitionsY : vec;
  numberHistogramRepetitionsY : vec;
  volumeHistogramYMean : num;
  numberHistogramYMean : num;
  volumeHistogramYStd : num;
  numberHistogramYStd : num;
  volumeHistogramMinimumRequired : num;
  numberHistogramMinimumRequired : num
}.

(** Lines 1581-1633 for one bin: all repetitions, then the statistics
    across them.  [initHist] flattens the arrays it makes when
    [reps <= 1], so the two-index stores of the loop raise for fewer than
    two repetitions. *)
Definition histogramBin (edges : vec) (reps : list RepetitionFractions)
    (bini : nat) : res HistogramBin :=
  if decide (length reps ≤ 1)%nat then Raise IndexError else
  perRep ← mapM (fun r => binOfRepetition edges (repValues r)
                            (repVolumeFraction r) (repNumberFraction r)
                            (repMinReqVol r) (repMinReqNum r) bini) reps;
  lo ← item edges bini;
  '(volMin, numMin) ← histMinReq (fmap minReqVolBin perRep) (fmap minReqNumBin perRep);
  Ok {| histogramXLowerEdge := lo;
        histogramXMean := npmean (take 2 (drop bini edges));
        volumeHistogramRepetitionsY := fmap volHistRepY perRep;
        numberHistogramRepetitionsY := fmap numHistRepY perRep;
        volumeHistogramYMean := npmean (fmap volHistRepY perRep);
        numberHistogramYMean := npmean (fmap numHistRepY perRep);
        volumeHistogramYStd := npstd E (fmap volHistRepY perRep);
        numberHistogramYStd := npstd E (fmap numHistRepY perRep);
        volumeHistogramMinimumRequired := volMin;
        numberHistogramMinimumRequired := numMin |}.

(** The histogram of one parameter: its bins in order. *)
Definition histogramOfParameter (scale : xscale) (range : num * num)
    (bins : nat) (reps : list RepetitionFractions) : res (list HistogramBin) :=
  mapM (histogramBin (histogramEdges scale range bins) reps) (seq 0 bins).

Context (m : ParticleModel).

(** Lines 1544-1557: the smallest volume fraction of contribution [c]
    that stands out of the uncertainty, [icol] being its intensity. *)
Definition minimumRequiredVolume (error icol : vec) (sc0 fraction vp : num)
    : res num :=
  least ← npmin (vdiv (fmap (fun e => nmul e fraction) error) (vscale sc0 icol));
  Ok (ndiv least vp).

(** Lines 1480-1560: the fractions of the contributions of one
    repetition, whose parameter rows are [rows]. *)
Definition fractionsOfRepetition (P : McSASParameters) (dataset : list vec)
    (intensity error : vec) (rows : list vec)
    : res (vec * vec * vec * vec * (num * num)) :=
  vs ← vol m rows None;
  '(cols, total) ←
    (if negb (lowMemoryFootprint P) then
       ffset ← ff m dataset rows;
       let cols := zip_with cachedIntensity ffset vs in
       Ok (cols, Some (sumColumns (length dataset) cols))
     else
       t ← lowMemoryTotal m dataset rows vs None;
       ffset ← ff m dataset rows;
       Ok (zip_with contribIntensity ffset vs, t));
  vpa ← vol m rows (Some n1);
  imax ← npmax intensity;
  it0 ← from_option AttributeError total;
  let it0 := smear it0 in
  itmax ← npmax it0;
  bgi ← npmin intensity;
  '(sc', _) ← optimScalingAndBackground E intensity it0 error (ndiv imax itmax, bgi) 2 true;
  let volumeFraction :=
    zip_with (fun v vp => ndiv (nmul sc'.1 (nsqr v)) (nmul vp (deltaRhoSquared P))) vs vpa in
  let numberFraction := vdiv volumeFraction vpa in
  let totalNumberFraction := npsum numberFraction in
  minReqVol ← mapM (fun '(icol, f, vp) => minimumRequiredVolume error icol sc'.1 f vp)
                   (zip (zip cols volumeFraction) vpa);
  Ok (volumeFraction,
      vdivs numberFraction totalNumberFraction,
      minReqVol,
      vdivs (replicate (length rows) n0) totalNumberFraction,
      sc').

(** [valueList[paramIndex]] of a setting that [checkParameters] has
    turned into a list; a bare value cannot be indexed. *)
Definition settingAt {A : Type} (v : oneOrList A) (paramIndex : nat) : res A :=
  match v with
  | One _ => Raise TypeError
  | Many l => item l paramIndex
  end.

(** [histogram]: one list of bins per parameter of the model, from the
    first entry of [self.result]. *)
Definition histogram (P : McSASParameters) (dataset : list vec)
    (result : list AnalysisResult) : res (list (list HistogramBin)) :=
  r0 ← item result 0;
  intensity ← column dataset 1;
  error ← column dataset 2;
  fractions ← mapM (fun rows =>
                 f ← fractionsOfRepetition P dataset intensity error rows;
                 Ok (rows, f)) (contribs r0);
  mapM (fun '(paramIndex, range) =>
          scale ← settingAt (histogramXScale P) paramIndex;
          bins ← settingAt (histogramBins P) paramIndex;
          reps ← mapM (fun '(rows, (vf, nf, mrv, mrn, _)) =>
                    values ← column rows paramIndex;
                    Ok {| repValues := values; repVolumeFraction := vf;
                          repNumberFraction := nf; repMinReqVol := mrv;
                          repMinReqNum := mrn |}) fractions;
          histogramOfParameter scale range bins reps)
       (imap (fun i r => (i, r)) (valueRange m)).
End Histogram.


(** ** Setting up *)

(** The keyword arguments of the constructor.  The four data arrays and
    [Dataset] are the keys [setData] looks at.  Of the settings,
    [contribParamBounds] is kept apart because [setData] assigns it before
    [setParameter] does; every other attribute is given by the value it
    has once [setParameter] has run (the keyword's when present, the class
    default when not). *)
Record Kwargs : Type := {
  kwQ : option vec;
  kwI : option vec;
  kwIError : option vec;
  kwPsi : option vec;
  kwDataset : option string;
  kwContribParamBounds : option (list num);
  kwSettings : McSASParameters
}.

(** The fields of a [SASData] object. *)
Record SASData : Type := {
  origin : option (list vec);
  prepared : option (list vec);
  sizeBounds : option (num * num)
}.

Definition lowerAscii (c : Ascii.ascii) : Ascii.ascii :=
  let n := Ascii.nat_of_ascii c in
  if (65 <=? n)%nat && (n <=? 90)%nat then Ascii.ascii_of_nat (n + 32) else c.

(** [s.lower()] *)
Fixpoint lower (s : string) : string :=
  match s with
  | EmptyString => EmptyString
  | String c rest => String (lowerAscii c) (lower rest)
  end.

(** [numpy.vstack(arrays).T] for one-dimensional arrays: row [j] holds
    element [j] of every array; arrays of different lengths cannot be
    stacked. *)
Definition vstackT (arrays : list vec) : res (list vec) :=
  match arrays with
  | [] => Raise ValueError
  | a :: rest =>
      if forallb (fun b => bool_decide (length b = length a)) rest
      then Ok (fmap (fun j => fmap (fun b => default n0 (b !! j)) arrays)
                   (seq 0 (length a)))
      else Raise ValueError
  end.

Definition optionList {A : Type} (o : option A) : list A :=
  match o with Some a => [a] | None => [] end.

Section Setup.
Context (E : Env).

(** The base class [DataSet] (module [dataset]) is not among the
    sources.  Its constructor is taken to hand the data to
    [self.setOrigin], which is how [sizeBounds], read by [setData] right
    after the construction, gets its value; its own [setOrigin], called
    first by [SASData.setOrigin], is this parameter: it returns what it
    keeps as [origin], or raises. *)
Context (DataSet_setOrigin : option (list vec) -> res (option (list vec))).

(** [SASData.setOrigin] *)
Definition setOrigin (data : option (list vec)) : res SASData :=
  kept ← DataSet_setOrigin data;
  rows ← from_option TypeError data;
  q ← column rows 0;
  qmax ← npmax q;
  qmin ← npmin q;
  dmin ← npmin (npdiff q);
  Ok {| origin := kept; prepared := None;
        sizeBounds := Some (ndiv (nppi E) qmax,
                            ndiv (nppi E) (pymin (nabs qmin) (nabs dmin))) |}.

(** [SASData(title, data)] *)
Definition newSASData (data : option (list vec)) : res SASData :=
  setOrigin data.

(** [setData]: the data set and the value it gives
    [McSASParameters.contribParamBounds]. *)
Definition setData (kw : Kwargs) : res (SASData * list num) :=
  let isOriginal :=
    match kwDataset kw with
    | Some kind => negb (String.eqb (lower kind) "fit")
    | None => true
    end in
  q ← from_option ValueError (kwQ kw);
  i ← from_option ValueError (kwI kw);
  data ← vstackT (q :: i :: optionList (kwIError kw) ++ optionList (kwPsi kw));
  ds ← (if isOriginal then newSASData (Some data)
        else d ← newSASData None;
             Ok {| origin := origin d; prepared := Some data;
                   sizeBounds := sizeBounds d |});
  b ← from_option TypeError (sizeBounds ds);
  Ok (ds, [b.1; b.2]).

(** [setParameter] *)
Definition setParameter (kw : Kwargs) (bounds : list num) : McSASParameters :=
  let S := kwSettings kw in
  {| contribParamBounds := default bounds (kwContribParamBounds kw);
     numContribs := numContribs S; maxIterations := maxIterations S;
     numReps := numReps S; qBounds := qBounds S; psiBounds := psiBounds S;
     priors := priors S; prior := prior S;
     histogramBins := histogramBins S; histogramXScale := histogramXScale S;
     deltaRhoSquared := deltaRhoSquared S;
     convergenceCriterion := convergenceCriterion S;
     startFromMinimum := startFromMinimum S; maxRetries := maxRetries S;
     maskNegativeInt := maskNegativeInt S; maskZeroInt := maskZeroInt S;
     lowMemoryFootprint := lowMemoryFootprint S |}.

(** [clipDataset].  The helper [cutIndices] assigns to the name it
    reads, so calling it raises [UnboundLocalError] (a [NameError]);
    without any mask or limit the rows with a finite q are kept. *)
Definition clipDataset (P : McSASParameters) (ds : SASData) : res SASData :=
  data ← from_option TypeError (origin ds);
  q ← column data 0;
  let validIndices := fmap isfinite q in
  let cuts := maskZeroInt P || maskNegativeInt P
              || bool_decide (is_Some (qBounds P))
              || (bool_decide (is_Some (psiBounds P))
                  && forallb (fun r => bool_decide (3 < length r)%nat) data) in
  if cuts then Raise NameError
  else Ok {| origin := origin ds; prepared := Some (masked validIndices data);
             sizeBounds := sizeBounds ds |}.

(** [fixLength] inside [checkParameters], for a model of [n] parameters. *)
Definition fixLength {A : Type} (n : nat) (valueList : oneOrList A)
    : res (oneOrList A) :=
  match valueList with
  | One v => Ok (Many (replicate n v))
  | Many l =>
      if decide (n < length l)%nat then Ok (Many (take n l))
      else if decide (length l < n)%nat then
        x ← item l 0; Ok (Many (l ++ replicate (n - length l) x))
      else Ok (Many l)
  end.

(** [Sphere.updateParamBounds]: the new [radius.valueRange]. *)
Definition updateParamBounds (range : num * num) (bounds : list num)
    : num * num :=
  match bounds with
  | [] => range
  | [b] => (pymin range.1 b, pymax range.1 b)
  | b0 :: b1 :: _ => (pymin b0 b1, pymax b0 b1)
  end.

(** [checkParameters]: the settings and the model with its bounds. *)
Definition checkParameters (P : McSASParameters)
    : res (McSASParameters * ParticleModel) :=
  bins ← fixLength 1 (histogramBins P);
  scales ← fixLength 1 (histogramXScale P);
  Ok ({| contribParamBounds := contribParamBounds P;
         numContribs := numContribs P; maxIterations := maxIterations P;
         numReps := numReps P; qBounds := qBounds P;
         psiBounds := psiBounds P; priors := priors P; prior := prior P;
         histogramBins := bins; histogramXScale := scales;
         deltaRhoSquared := deltaRhoSquared P;
         convergenceCriterion := convergenceCriterion P;
         startFromMinimum := startFromMinimum P;
         maxRetries := maxRetries P;
         maskNegativeInt := maskNegativeInt P;
         maskZeroInt := maskZeroInt P;
         lowMemoryFootprint := lowMemoryFootprint P |},
      Sphere E (updateParamBounds (n0, PInf) (contribParamBounds P))).

(** Lines 492-501 of the constructor: everything before [analyse]. *)
Definition setup (kw : Kwargs) : res (SASData * McSASParameters * ParticleModel) :=
  '(ds, bounds) ← setData kw;
  let P := setParameter kw bounds in
  ds' ← clipDataset P ds;
  '(P', model) ← checkParameters P;
  Ok (ds', P', model).

(** The constructor of [McSAS].  [setData] has popped the key
    [Q], so the test [ndim(kwargs['Q']) > 1] that follows [histogram]
    raises. *)
Definition McSAS_init (kw : Kwargs) (w : World E)
    : res (list (list HistogramBin)) :=
  '(ds, P, model) ← setup kw;
  dataset ← from_option TypeError (prepared ds);
  '(out, P', w') ← analyse E model P dataset w;
  let result := match out with Stored r => [r] | Abandoned _ _ => [] end in
  _ ← histogram E model P' dataset result;
  Raise KeyError.
End Setup.

(** ** Reference definitions *)

Section Reference.
Context (E : Env) (m : ParticleModel).

(** The total intensity computed from scratch: at every data point, the
    sum over the contribution set of the squared form factor times the
    squared compensated volume. *)
Definition totalIntensity (dataset rows : list vec) : vec :=
  fmap (fun d =>
         npsum (fmap (fun r => nmul (nsqr (ff1 m d r))
                                   (nsqr (vol1 m (compensationExponent m) r)))
                    rows))
      dataset.

(** The intensity of the contribution of parameter row [r] at every
    data point. *)
Definition contribColumn (dataset : list vec) (r : vec) : vec :=
  contribIntensity (fmap (fun d => ff1 m d r) dataset)
                   (vol1 m (compensationExponent m) r).

(** The local arrays of [mcFit] agree with the contribution set [rows]
    that [rset] names in the store: [vset] holds the volumes of the rows
    and the cache, when there is one, their intensities. *)
Definition cacheCoherent (dataset : list vec) (st : FitState) (h : store)
    (rows : list vec) : Prop :=
  deref h (rset st) = Some rows /\
  shapeOk m rows = true /\
  vset st = fmap (vol1 m (compensationExponent m)) rows /\
  (forall cols, iset st = Some cols -> cols = fmap (contribColumn dataset) rows).

(** The candidate total of both execution modes, in terms of the
    contribution set: the total, less the intensity of row [ri], plus
    the trial's. *)
Definition candidateOf (dataset : list vec) (st : FitState)
    (rows : list vec) (itt : vec) : res vec :=
  r ← item rows (ri st);
  Ok (vadd (vsub (it st) (contribColumn dataset r)) itt).

(** The total of the squared compensated volumes computed from scratch. *)
Definition totalVolumeSquared (rows : list vec) : num :=
  npsum (fmap (fun r => nsqr (vol1 m (compensationExponent m) r)) rows).

(** The rational a number stands for. *)
Definition toQ (x : num) : option Q :=
  match x with Fin q => Some (this q) | _ => None end.

Definition toQs (rows : list vec) : list (list (option Q)) :=
  (fun r : vec => toQ <$> r) <$> rows.

(** [a] is [b] within the relative tolerance [tol]. *)
Definition withinTolerance (tol a b : num) : bool :=
  nle (nabs (nsub a b)) (nmul tol (nabs b)).

(** A state without what only one execution mode has: the cache and the
    shape of [it]. *)
Definition eraseCache (st : FitState) : FitState :=
  {| rset := rset st; numContribsLocal := numContribsLocal st;
     vset := vset st; iset := None; it := it st; itColumn := false;
     vst := vst st; sc := sc st; conval := conval st;
     numMoves := numMoves st; numNotAccepted := numNotAccepted st;
     numIter := numIter st; ri := ri st |}.

Definition eraseCacheW (x : FitState * World E) : FitState * World E :=
  (eraseCache x.1, x.2).

(** A result without the shape of its intensity. *)
Definition eraseShape (r : McFitResult) : McFitResult :=
  {| fitContribs := fitContribs r; fitIntensity := fitIntensity r;
     fitIntensityColumn := false; fitConval := fitConval r;
     fitNumIterations := fitNumIterations r; fitNumMoves := fitNumMoves r |}.

Definition eraseShapeW (x : McFitResult * World E) : McFitResult * World E :=
  (eraseShape x.1, x.2).

(** The call of [mcFit] that follows [k] earlier ones, each started in
    the world its predecessor left. *)
Fixpoint attempt (k : nat) (P : McSASParameters) (dataset : list vec)
    (w : World E) : res (McFitResult * World E) :=
  match k with
  | O => mcFit E m P dataset w
  | S j => '(_, w') ← attempt j P dataset w; mcFit E m P dataset w'
  end.

(** The first [n] successive calls all ended above the convergence
    criterion. *)
Definition failedAttempts (P : McSASParameters) (dataset : list vec)
    (w : World E) (n : nat) : Prop :=
  forall j, (j < n)%nat ->
    exists rj wj, attempt j P dataset w = Ok (rj, wj) /\
                  ngt (fitConval rj) (convergenceCriterion P) = true.

(** The contributions whose value lies in the half-open bin [bini]. *)
Definition binMembers {A : Type} (edges values : vec) (bini : nat)
    (a : list A) : list A :=
  match edges !! bini, edges !! S bini with
  | Some lo, Some hi =>
      masked (fmap (fun r => nge r lo && nlt r hi) values) a
  | _, _ => []
  end.

(** The average over the members of a bin, zero for an empty bin. *)
Definition binAverage (members : vec) : num :=
  match members with
  | [] => n0
  | _ => ndiv (npsum members) (nat2num (length members))
  end.

(** The average, over the members of bin [bini] in one repetition, of
    their minimum required volume fraction. *)
Definition repetitionAverage (edges : vec) (bini : nat)
    (r : RepetitionFractions) : num :=
  binAverage (binMembers edges (repValues r) bini (repMinReqVol r)).

(** The volume fractions of the members of bin [bini] in one repetition
    summed, zero when the sum is not a number. *)
Definition clampedTotal (edges : vec) (bini : nat)
    (r : RepetitionFractions) : num :=
  let total := npsum (binMembers edges (repValues r) bini (repVolumeFraction r)) in
  if isnan total then n0 else total.
End Reference.

(** The array of rows [(q, I, IError)] of three arrays as long as the
    first. *)
Definition stacked (q i e : vec) : list vec :=
  (fun j => [default n0 (q !! j); default n0 (i !! j); default n0 (e !! j)])
    <$> seq 0 (length q).

(** Settings under which [clipDataset] cuts nothing and [checkParameters]
    finds a value for the one parameter of the model. *)
Definition plainSettings (S : McSASParameters) : Prop :=
  maskZeroInt S = false /\ maskNegativeInt S = false /\ qBounds S = None /\
  histogramBins S <> Many [] /\ histogramXScale S <> Many [].

(** The sum of finite numbers, in [Qc]. *)
Definition Qcsum (qs : list Qc) : Qc := foldr Qcplus 0 qs.

#[global] Instance res_fmap : FMap res := fun A B f x =>
  match x with
  | Ok a => Ok (f a)
  | Raise e => Raise e
  end.

(** ** An environment and a model to run the definitions on *)

Module Example.

(** Square root of a rational: exact when numerator and denominator of
    the reduced fraction are squares, the quotient of the integer square
    roots otherwise. *)
Definition sqrtQc (q : Qc) : Qc :=
  Q2Qc (Z.sqrt (Qnum (this q)) # Pos.sqrt (Qden (this q))).

Definition sqrtNum (x : num) : num :=
  match x with
  | NaN | NInf => NaN
  | PInf => PInf
  | Fin q => if Qcltb q 0 then NaN else Fin (sqrtQc q)
  end.

(** [x ** y] for a natural exponent. *)
Definition powNum (x y : num) : num :=
  match y with
  | Fin q =>
      match Qnum (this q), Qden (this q) with
      | Z0, _ => n1
      | Zpos k, 1%positive => Pos.iter (nmul x) n1 k
      | _, _ => NaN
      end
  | _ => NaN
  end.

(** The weighted linear least-squares solution, the pair both scipy
    routines search for: the minimiser of the sum of the squares of
    [(obs - a * calc - b) / err] (with [b = 0] when there is no
    background).  A degenerate system leaves the start unchanged. *)
Definition lstsq (background : bool) (obs calc err : vec) (start : num * num)
    : res (num * num) :=
  let w := fmap (fun e => ndiv n1 (nsqr e)) err in
  let Sw := npsum w in
  let Sx := npsum (vmul w calc) in
  let Sy := npsum (vmul w obs) in
  let Sxx := npsum (vmul w (vsqr calc)) in
  let Sxy := npsum (vmul w (vmul calc obs)) in
  if background then
    let det := nsub (nmul Sw Sxx) (nsqr Sx) in
    if isfinite det && negb (neqb det n0) then
      let a := ndiv (nsub (nmul Sw Sxy) (nmul Sx Sy)) det in
      Ok (a, ndiv (nsub Sy (nmul a Sx)) Sw)
    else Ok start
  else
    if isfinite Sxx && negb (neqb Sxx n0) then Ok (ndiv Sxy Sxx, start.2)
    else Ok start.

(** The random stream: the draws of [random_sample] and of [randint]
    still to come; an exhausted stream gives zeros. *)
Definition env : Env := {|
  G := list num * list nat;
  random_sample := fun g => (default n0 (head g.1), (tail g.1, g.2));
  random_below := fun _ g => (default 0%nat (head g.2), (g.1, tail g.2));
  npsqrt := sqrtNum;
  npsin := fun _ => NaN;
  npcos := fun _ => NaN;
  nppow := powNum;
  nplog10 := fun _ => NaN;
  nppi := frac 355 113;
  leastsq := lstsq;
  fmin := lstsq
|}.

(** A model with one parameter [r] between 1 and 3, volume [r] and
    form factor [1 / (1 + q r)]. *)
Definition model : ParticleModel := {|
  valueRange := [(Z2num 1, Z2num 3)];
  compensationExponent := frac 1 2;
  vol1 := fun _ row => default NaN (row !! 0%nat);
  ff1 := fun d row =>
    ndiv n1 (nadd n1 (nmul (default NaN (d !! 0%nat)) (default NaN (row !! 0%nat))))
|}.

(** Three data points [(q, I, sigma)]: the curve of one contribution of
    parameter 1, with unit uncertainty. *)
Definition dataset : list vec :=
  [ [Z2num 1; frac 1 4; n1];
    [Z2num 2; frac 1 9; n1];
    [Z2num 3; frac 1 16; n1] ].

Definition settings : McSASParameters := {|
  contribParamBounds := [];
  numContribs := 1;
  maxIterations := 4;
  numReps := 2;
  qBounds := None;
  psiBounds := None;
  priors := EmptyTuple;
  prior := EmptyTuple;
  histogramBins := One 2%nat;
  histogramXScale := One ScaleLin;
  deltaRhoSquared := n1;
  convergenceCriterion := n0;
  startFromMinimum := false;
  maxRetries := 5;
  maskNegativeInt := false;
  maskZeroInt := false;
  lowMemoryFootprint := false
|}.

Definition world (h : store) (draws : list num) : World env :=
  {| heap := h; rng := ((draws, []) : G env) |}.

(** The settings with a supplied prior: the array at location 0. *)
Definition settingsWithPrior : McSASParameters :=
  setPrior settings (Arr (Whole 0)).

(** Two contributions are asked for and a prior is supplied. *)
Definition settingsOfTwo : McSASParameters :=
  setNumContribs settingsWithPrior 2.

(** No prior, every contribution starts from the minimum. *)
Definition settingsFromMinimum : McSASParameters :=
  setStartFromMinimum settings true.

(** The example model with a lower bound of zero. *)
Definition modelFromZero : ParticleModel := {|
  valueRange := [(n0, Z2num 3)];
  compensationExponent := compensationExponent model;
  vol1 := vol1 model;
  ff1 := ff1 model
|}.

(** Priors of three, one and two rows at location 0. *)
Definition priorOfThreeRows : World env :=
  world [A2 [[Z2num 1]; [Z2num 2]; [Z2num 3]]] [].
Definition priorOfOneRow : World env := world [A2 [[Z2num 1]]] [].
Definition priorThreeFour : World env :=
  world [A2 [[Z2num 3]; [Z2num 4]]] [].

(** A caller's prior of one contribution of parameter 3, and a random
    stream whose draws are all zero (every trial has parameter 1). *)
Definition priorOfThree : World env := world [A2 [[Z2num 3]]] [].

(** No pass of the loop, and no or one retry. *)
Definition settingsNoRetry : McSASParameters :=
  setMaxIterations (setMaxRetries settings 0) 0.
Definition settingsOneRetry : McSASParameters :=
  setMaxIterations (setMaxRetries settings 1) 0.

(** A random stream that seeds every contribution with parameter 2,
    whose curve is not the measured one. *)
Definition drawsOfHalf : World env :=
  world [] [frac 1 2; frac 1 2; frac 1 2; frac 1 2].

(** Bin edges 0, 2, 4 and three repetitions of two, two and one
    contributions; the minimum required of a contribution of the first
    is infinite, that of the contribution of the third is not a
    number. *)
Definition edgesOfTwoBins : vec := [n0; Z2num 2; Z2num 4].
Definition repetitionA : RepetitionFractions := {|
  repValues := [Z2num 1; Z2num 1];
  repVolumeFraction := [frac 1 2; frac 1 2];
  repNumberFraction := [frac 1 2; frac 1 2];
  repMinReqVol := [PInf; Z2num 1];
  repMinReqNum := [n0; n0] |}.
Definition repetitionB : RepetitionFractions := {|
  repValues := [Z2num 1; Z2num 3];
  repVolumeFraction := [frac 1 4; frac 3 4];
  repNumberFraction := [frac 1 2; frac 1 2];
  repMinReqVol := [Z2num 1; Z2num 5];
  repMinReqNum := [n0; n0] |}.
Definition repetitionC : RepetitionFractions := {|
  repValues := [Z2num 1];
  repVolumeFraction := [n1];
  repNumberFraction := [n1];
  repMinReqVol := [NaN];
  repMinReqNum := [n0] |}.

(** A base class [DataSet] that keeps the array it is given. *)
Definition keepingDataSet (data : option (list vec))
    : res (option (list vec)) := Ok data.

(** The keyword arguments [Q], [I] and [IError] of the example data, with
    uncertainties that are all zero. *)
Definition zeroUncertainties : Kwargs := {|
  kwQ := Some [Z2num 1; Z2num 2; Z2num 3];
  kwI := Some [frac 1 4; frac 1 9; frac 1 16];
  kwIError := Some [n0; n0; n0];
  kwPsi := None;
  kwDataset := None;
  kwContribParamBounds := None;
  kwSettings := settings |}.

(** The data with a measured intensity that is not a number. *)
Definition datasetWithNaN : list vec :=
  [ [Z2num 1; NaN; n1];
    [Z2num 2; frac 1 9; n1];
    [Z2num 3; frac 1 16; n1] ].

End Example.

(** ** Further definitions *)

(** A parameter row lies within the bounds of the model: one value per
    parameter, each between the smaller and the larger end of the
    parameter's range. *)
Definition inBounds (m : ParticleModel) (row : vec) : Prop :=
  Forall2 (fun x r => nle (pymin r.1 r.2) x = true /\ nle x (pymax r.1 r.2) = true)
          row (valueRange m).

(** A random stream whose samples are numbers of the interval [[0, 1)]. *)
Definition unitSamples (E : Env) : Prop :=
  forall g, exists u, (random_sample E g).1 = Fin u /\ (0 <= u)%Qc /\ (u < 1)%Qc.

(** The ranges of a model have numbers for bounds. *)
Definition finiteRanges (m : ParticleModel) : Prop :=
  Forall (fun r => is_fin r.1 /\ is_fin r.2) (valueRange m).

(** A number that is not negative: infinity, a rational that is at least
    zero, or NaN. *)
Definition nonneg (x : num) : Prop :=
  x = NaN \/ x = PInf \/ exists q, x = Fin q /\ (0 <= q)%Qc.

(** The two values [Sphere.updateParamBounds] takes the range from: the
    lower end of the present range and the bound when there is one bound,
    the first two bounds when there are more, none without a bound. *)
Definition boundPair (range : num * num) (bounds : list num)
    : option (num * num) :=
  match bounds with
  | [] => None
  | [b] => Some (range.1, b)
  | b0 :: b1 :: _ => Some (b0, b1)
  end.

(** A natural number as a rational. *)
Definition natQ (i : nat) : Qc := Q2Qc (inject_Z (Z.of_nat i)).

(** Edge [i] of [bins] bins of equal width between [lo] and [hi]. *)
Definition edgeAt (lo hi : Qc) (bins i : nat) : Qc :=
  lo + natQ i * ((hi + - lo) / natQ bins).

(** A value is counted in bin [bini]: the mask of lines 1606-1607 holds
    for it. *)
Definition inBin (edges : vec) (bini : nat) (r : num) : Prop :=
  binMask edges bini [r] = Ok [true].

(** A number that is zero or not a number. *)
Definition zeroOrNaN (x : num) : Prop := x = n0 \/ x = NaN.

(** A number that is plus infinity or not a number. *)
Definition infOrNaN (x : num) : Prop := x = PInf \/ x = NaN.

(** ** Further examples *)

Module Cases.

(** Observed and calculated intensities and unit uncertainties. *)
Definition observed : vec := [frac 1 4; frac 1 9; frac 1 16].
Definition calculated : vec := [n1; frac 1 2; frac 1 3].
Definition unitErrors : vec := [n1; n1; n1].

(** An environment whose random samples alternate between 0 and 1/2. *)
Definition unitEnv : Env := {|
  G := bool;
  random_sample := fun g => (if g then frac 1 2 else n0, negb g);
  random_below := fun _ g => (0%nat, g);
  npsqrt := Example.sqrtNum;
  npsin := fun _ => NaN;
  npcos := fun _ => NaN;
  nppow := Example.powNum;
  nplog10 := fun _ => NaN;
  nppi := frac 355 113;
  leastsq := Example.lstsq;
  fmin := Example.lstsq
|}.

Definition unitWorld : World unitEnv := {| heap := []; rng := (false : G unitEnv) |}.

(** Two contributions, no prior. *)
Definition settingsOfTwoFresh : McSASParameters :=
  setNumContribs Example.settings 2.

(** Keyword arguments without [IError]: [Q] and [I] alone, with [Psi],
    and with an [I] that is shorter than [Q]. *)
Definition withoutUncertainties : Kwargs := {|
  kwQ := Some [Z2num 1; Z2num 2; Z2num 3];
  kwI := Some [frac 1 4; frac 1 9; frac 1 16];
  kwIError := None;
  kwPsi := None;
  kwDataset := None;
  kwContribParamBounds := None;
  kwSettings := Example.settings |}.

Definition withPsiOnly : Kwargs := {|
  kwQ := Some [Z2num 1; Z2num 2; Z2num 3];
  kwI := Some [frac 1 4; frac 1 9; frac 1 16];
  kwIError := None;
  kwPsi := Some [Z2num 10; Z2num 20; Z2num 30];
  kwDataset := None;
  kwContribParamBounds := None;
  kwSettings := Example.settings |}.

Definition shortIntensity : Kwargs := {|
  kwQ := Some [Z2num 1; Z2num 2; Z2num 3];
  kwI := Some [frac 1 4; frac 1 9];
  kwIError := None;
  kwPsi := None;
  kwDataset := None;
  kwContribParamBounds := None;
  kwSettings := Example.settings |}.

(** A data set whose second point has an infinite q. *)
Definition rawData : SASData := {|
  origin := Some [ [Z2num 1; frac 1 4; n1];
                   [PInf; frac 1 9; n1];
                   [Z2num 3; frac 1 16; n1] ];
  prepared := None;
  sizeBounds := None |}.

(** No pass of the loop, in the low-memory mode. *)
Definition settingsLowMemory : McSASParameters :=
  setLowMemoryFootprint Example.settingsNoRetry true.

(** The settings once [checkParameters] has made lists of the number
    of bins and of the scale, and a result of two repetitions of one
    contribution each. *)
Definition settingsChecked : McSASParameters := {|
  contribParamBounds := [];
  numContribs := 1;
  maxIterations := 4;
  numReps := 2;
  qBounds := None;
  psiBounds := None;
  priors := EmptyTuple;
  prior := EmptyTuple;
  histogramBins := Many [2%nat];
  histogramXScale := Many [ScaleLin];
  deltaRhoSquared := n1;
  convergenceCriterion := n0;
  startFromMinimum := false;
  maxRetries := 5;
  maskNegativeInt := false;
  maskZeroInt := false;
  lowMemoryFootprint := false
|}.

Definition resultOfTwo : AnalysisResult := {|
  contribs := [ [[Z2num 1]]; [[Z2num 2]] ];
  finalConvergence := [n0; n0];
  fitIntMean := [];
  fitIntStd := [];
  fitQ := [];
  numIterMean := n0 |}.

(** Two contributions of parameters 1 and 2. *)
Definition rowsOfTwo : list vec := [[Z2num 1]; [Z2num 2]].

(** The example data with an uncertainty of zero at the second point. *)
Definition zeroErrorData : list vec :=
  [ [Z2num 1; frac 1 4; n1];
    [Z2num 2; frac 1 9; n0];
    [Z2num 3; frac 1 16; n1] ].

End Cases.

(** * Properties *)

(** ** The result monad *)

Lemma bind_Ok {A B : Type} (c : res A) (k : A -> res B) (y : B) :
  c ≫= k = Ok y -> exists a, c = Ok a /\ k a = Ok y.
Proof. destruct c as [a|e]; simpl; [eauto | discriminate]. Qed.

Lemma bind_Raise {A B : Type} (c : res A) (k : A -> res B) (e : exn) :
  c ≫= k = Raise e -> c = Raise e \/ exists a, c = Ok a /\ k a = Raise e.
Proof. destruct c as [a|e']; simpl; [eauto | intros [= ->]; auto]. Qed.

Lemma fmap_Ok {A B : Type} (f : A -> B) (c : res A) (y : B) :
  f <$> c = Ok y -> exists a, c = Ok a /\ y = f a.
Proof. destruct c as [a|e]; simpl; [intros [= <-]; eauto | discriminate]. Qed.

Lemma from_option_Ok {A : Type} (e : exn) (o : option A) (a : A) :
  from_option e o = Ok a -> o = Some a.
Proof. destruct o; simpl; congruence. Qed.

(** Splits a hypothesis [c ≫= k = Ok y] into the two steps it stands for. *)
Tactic Notation "bind_inv" hyp(H) "as" simple_intropattern(a) ident(Ha) :=
  apply bind_Ok in H as (a & Ha & H); simpl in H.

Tactic Notation "bind_inv" hyp(H) :=
  let a := fresh "a" in
  let Ha := fresh "Hstep" in
  apply bind_Ok in H as (a & Ha & H); simpl in H.

Lemma item_Ok {A : Type} (l : list A) (k : nat) (x : A) :
  item l k = Ok x <-> l !! k = Some x.
Proof. unfold item. destruct (l !! k); simpl; split; congruence. Qed.

Lemma item_Raise {A : Type} (l : list A) (k : nat) (e : exn) :
  item l k = Raise e -> e = IndexError /\ (length l <= k)%nat.
Proof.
  unfold item. destruct (l !! k) eqn:Hk; simpl; [discriminate|].
  intros [= <-]. split; [done | by apply lookup_ge_None].
Qed.

Lemma column_length (rows : list vec) (k : nat) (c : vec) :
  column rows k = Ok c -> length c = length rows.
Proof.
  revert c. induction rows as [|r rs IH]; simpl; intros c H.
  - by injection H as <-.
  - bind_inv H. bind_inv H. injection H as <-. simpl. f_equal. eauto.
Qed.

(** ** Arithmetic of [num] *)

Lemma nadd_0_l (x : num) : nadd n0 x = x.
Proof. destruct x; simpl; try done. f_equal. ring. Qed.

Lemma nmul_1_l (x : num) : nmul n1 x = x.
Proof.
  destruct x as [| |q|]; simpl; try done. f_equal. ring.
Qed.

Lemma nadd_fin_inv (x y : num) :
  is_fin (nadd x y) -> is_fin x /\ is_fin y.
Proof.
  intros [q H]. destruct x, y; simpl in H; try discriminate.
  split; eexists; reflexivity.
Qed.

Lemma nneg_fin_inv (x : num) : is_fin (nneg x) -> is_fin x.
Proof. intros [q H]. destruct x; simpl in H; try discriminate. by eexists. Qed.

Lemma nsub_fin_inv (x y : num) :
  is_fin (nsub x y) -> is_fin x /\ is_fin y.
Proof.
  intros H. apply nadd_fin_inv in H as [Hx Hy]. split; [done|].
  by apply nneg_fin_inv.
Qed.

Lemma inf_signed_not_fin (c : comparison) : ~ is_fin (inf_signed c).
Proof. intros [q H]. destruct c; discriminate. Qed.

Lemma nmul_fin_inv (x y : num) :
  is_fin (nmul x y) -> is_fin x /\ is_fin y.
Proof.
  intros H. destruct x as [| |a|], y as [| |b|]; simpl in H;
    try (split; eexists; reflexivity);
    try (destruct H as [q H]; discriminate);
    try (exfalso; revert H; apply inf_signed_not_fin).
Qed.

Lemma nsqr_fin_inv (x : num) : is_fin (nsqr x) -> is_fin x.
Proof. intros H. by apply nmul_fin_inv in H as [H _]. Qed.

(** A finite quotient has a finite numerator (the denominator may be
    infinite). *)
Lemma ndiv_fin_inv (x y : num) : is_fin (ndiv x y) -> is_fin x.
Proof.
  intros H. destruct x as [| |a|], y as [| |b|]; simpl in H;
    try (by eexists);
    try (destruct H as [q H]; discriminate);
    try (exfalso; revert H; apply inf_signed_not_fin).
Qed.

Lemma nlt_true_left (x y : num) : nlt x y = true -> x = NInf \/ is_fin x.
Proof.
  destruct x, y; simpl; try discriminate; intros _;
    solve [by left | right; by eexists].
Qed.

(** A square is never the negative infinity. *)
Lemma mul_sgn_diag (c : comparison) : mul_sgn c c <> Lt.
Proof. by destruct c. Qed.

Lemma nsqr_not_NInf (x : num) : nsqr x <> NInf.
Proof.
  destruct x as [| |a|]; simpl; try discriminate.
Qed.

(** ** Sums *)

Lemma foldl_nadd_NaN (xs : vec) : foldl nadd NaN xs = NaN.
Proof. induction xs as [|x xs IH]; simpl; [done|]. by destruct x. Qed.

Lemma foldl_nadd_PInf (xs : vec) :
  Forall (fun x => x <> NInf) xs ->
  foldl nadd PInf xs = PInf \/ foldl nadd PInf xs = NaN.
Proof.
  induction 1 as [|x xs Hx _ IH]; simpl; [by left|].
  destruct x; simpl; try done.
  right. apply foldl_nadd_NaN.
Qed.

Lemma foldl_nadd_fin_inv (xs : vec) (a : num) :
  is_fin (foldl nadd a xs) -> is_fin a /\ Forall is_fin xs.
Proof.
  revert a. induction xs as [|x xs IH]; simpl; intros a H.
  - split; [done | constructor].
  - apply IH in H as [Ha Hxs]. apply nadd_fin_inv in Ha as [Ha Hx].
    split; [done | by constructor].
Qed.

Lemma npsum_fin_inv (xs : vec) : is_fin (npsum xs) -> Forall is_fin xs.
Proof. intros H. by apply foldl_nadd_fin_inv in H as [_ H]. Qed.

Lemma foldl_nadd_not_NInf (xs : vec) (a : num) :
  a <> NInf -> Forall (fun x => x <> NInf) xs -> foldl nadd a xs <> NInf.
Proof.
  intros Ha Hxs. revert a Ha.
  induction Hxs as [|x xs Hx _ IH]; simpl; intros a Ha; [done|].
  apply IH. destruct a, x; simpl; congruence.
Qed.

Lemma foldl_nadd_Fin (qs : list Qc) (a : Qc) :
  foldl nadd (Fin a) (fmap Fin qs) = Fin (a + Qcsum qs).
Proof.
  revert a. induction qs as [|q qs IH]; simpl; intros a.
  - f_equal. ring.
  - rewrite IH. f_equal. unfold Qcsum. simpl. ring.
Qed.

Lemma npsum_Fin (qs : list Qc) : npsum (fmap Fin qs) = Fin (Qcsum qs).
Proof. unfold npsum, n0. rewrite foldl_nadd_Fin. f_equal. ring. Qed.

Lemma Forall_is_fin (xs : vec) : Forall is_fin xs -> exists qs, xs = fmap Fin qs.
Proof.
  induction 1 as [|x xs [q ->] _ [qs ->]].
  - by exists [].
  - by exists (q :: qs).
Qed.

Lemma Qcsum_insert (qs : list Qc) (i : nat) (x y : Qc) :
  qs !! i = Some x -> Qcsum (<[i := y]> qs) = Qcsum qs - x + y.
Proof.
  revert i. induction qs as [|q qs IH]; intros [|i] H; simpl in *; try discriminate.
  - injection H as ->. unfold Qcsum. simpl. ring.
  - unfold Qcsum in *. simpl. rewrite (IH i H). ring.
Qed.

(** The incremental update of a sum is the sum of the updated list,
    provided the result is a number. *)
Lemma npsum_replace (xs : vec) (i : nat) (x y : num) :
  xs !! i = Some x ->
  is_fin (nadd (nsub (npsum xs) x) y) ->
  nadd (nsub (npsum xs) x) y = npsum (<[i := y]> xs).
Proof.
  intros Hi Hfin.
  pose proof Hfin as Hfin'.
  apply nadd_fin_inv in Hfin' as [Hs [qy ->]].
  apply nsub_fin_inv in Hs as [Hs [qx ->]].
  apply npsum_fin_inv, Forall_is_fin in Hs as [qs ->].
  rewrite list_lookup_fmap in Hi.
  destruct (qs !! i) as [q|] eqn:Hq; simpl in Hi; [|discriminate].
  injection Hi as ->.
  rewrite <- (list_fmap_insert Fin qs i qy).
  rewrite !npsum_Fin. simpl. f_equal.
  rewrite (Qcsum_insert qs i qx qy Hq). ring.
Qed.

(** ** Acceptance implies a finite candidate *)

Lemma nat2num_sign (n : nat) :
  match nat2num n with Fin b => (b ?= 0)%Qc <> Lt | _ => False end.
Proof.
  unfold nat2num. unfold Qccompare. simpl.
  rewrite (Qred_correct (inject_Z (Z.of_nat n))).
  unfold Qcompare, inject_Z. simpl. rewrite Z.mul_1_r.
  destruct (Z.of_nat n) eqn:Hz; simpl; try discriminate. lia.
Qed.

Lemma ndiv_nat_lt_fin (s y : num) (n : nat) :
  nlt (ndiv s (nat2num n)) y = true -> s <> NInf -> is_fin s.
Proof.
  intros Hlt Hs. pose proof (nat2num_sign n) as Hn.
  destruct (nat2num n) as [| |b|]; try done.
  destruct s as [| |a|]; try done; [by eexists|].
  simpl in Hlt. destruct (Qceqb b 0); simpl in Hlt.
  - by destruct y.
  - destruct (b ?= 0)%Qc; simpl in Hlt; try done; by destruct y.
Qed.

Lemma npsum_sqr_not_NInf (xs : vec) : npsum (vsqr xs) <> NInf.
Proof.
  apply foldl_nadd_not_NInf; [discriminate|].
  unfold vsqr. apply Forall_fmap, Forall_forall. intros x _. apply nsqr_not_NInf.
Qed.

(** When a candidate is taken its [convalt] is below [conval], hence a
    number, and so is every entry of the candidate intensity. *)
Lemma accepted_candidate_finite (intObs error itest : vec) (vstest : num)
    (sct : num * num) (y : num) :
  nlt (csqr_v1 intObs (vadds (vscale sct.1 (vdivs itest vstest)) sct.2) error) y = true ->
  (length itest <= length intObs)%nat ->
  (length itest <= length error)%nat ->
  Forall is_fin itest.
Proof.
  intros Hlt Ho He. unfold csqr_v1 in Hlt.
  apply ndiv_nat_lt_fin in Hlt; [|apply npsum_sqr_not_NInf].
  apply npsum_fin_inv in Hlt.
  apply Forall_lookup. intros j t Hj.
  assert (is_Some (intObs !! j)) as [o Hoj].
  { apply lookup_lt_is_Some. apply lookup_lt_Some in Hj. lia. }
  assert (is_Some (error !! j)) as [e Hej].
  { apply lookup_lt_is_Some. apply lookup_lt_Some in Hj. lia. }
  rewrite Forall_lookup in Hlt.
  specialize (Hlt j (nsqr (ndiv (nsub o (nadd (nmul sct.1 (ndiv t vstest)) sct.2)) e))).
  assert (is_fin (nsqr (ndiv (nsub o (nadd (nmul sct.1 (ndiv t vstest)) sct.2)) e))) as Hfin.
  { apply Hlt. unfold vsqr, vdiv, vsub, vadds, vscale, vdivs.
    rewrite list_lookup_fmap, !lookup_zip_with, Hoj, !list_lookup_fmap, Hj.
    simpl. by rewrite Hej. }
  apply nsqr_fin_inv, ndiv_fin_inv, nsub_fin_inv in Hfin as [_ Hfin].
  apply nadd_fin_inv in Hfin as [Hfin _].
  apply nmul_fin_inv in Hfin as [_ Hfin].
  by apply ndiv_fin_inv in Hfin.
Qed.

(** ** The store *)

Lemma deref_assign (h : store) (r : ndref) (rows rows' : list vec) :
  deref h r = Some rows -> deref (assign h r rows') r = Some rows'.
Proof.
  destruct r as [l|l k]; simpl.
  - destruct (h !! l) as [[old|sl]|] eqn:Hl; try discriminate. intros _.
    rewrite list_lookup_insert_eq; [done|]. by eapply lookup_lt_Some.
  - destruct (h !! l) as [[old|sl]|] eqn:Hl; try discriminate. intros Hk.
    rewrite list_lookup_insert_eq; [|by eapply lookup_lt_Some].
    rewrite list_lookup_insert_eq; [done|]. by eapply lookup_lt_Some.
Qed.

Lemma deref_alloc (h : store) (rows : list vec) :
  deref (alloc h (A2 rows)).2 (Whole (alloc h (A2 rows)).1) = Some rows.
Proof.
  simpl. rewrite lookup_app_r; [|lia]. by rewrite Nat.sub_diag.
Qed.

Lemma setrow_Ok (h h' : store) (r : ndref) (i : nat) (row : vec) :
  setrow h r i row = Ok h' ->
  exists rows, deref h r = Some rows /\ (i < length rows)%nat /\
               h' = assign h r (<[i := row]> rows).
Proof.
  unfold setrow. intros H. bind_inv H. apply from_option_Ok in Hstep.
  destruct (decide (i < length a)%nat); [|discriminate].
  injection H as <-. eauto.
Qed.

(** Writing through a reference leaves what every other reference sees. *)
Lemma deref_assign_ne (h : store) (r r' : ndref) (old rows : list vec) :
  deref h r = Some old -> r' <> r -> deref (assign h r rows) r' = deref h r'.
Proof.
  intros Hold Hne. destruct r as [l|l k], r' as [l'|l' k']; simpl in *;
    destruct (h !! l) as [[o|sl]|] eqn:Hh; try discriminate;
    (destruct (decide (l' = l)) as [->|Hl];
     [|by rewrite list_lookup_insert_ne]).
  - congruence.
  - rewrite list_lookup_insert_eq, Hh; [done|]. by eapply lookup_lt_Some.
  - rewrite list_lookup_insert_eq, Hh; [done|]. by eapply lookup_lt_Some.
  - rewrite list_lookup_insert_eq, Hh; [|by eapply lookup_lt_Some].
    rewrite list_lookup_insert_ne; [done|]. congruence.
Qed.

(** A fresh array is seen through its own reference only. *)
Lemma deref_alloc_ne (h : store) (rows : list vec) (r' : ndref) :
  r' <> Whole (length h) -> deref (h ++ [A2 rows]) r' = deref h r'.
Proof.
  intros Hne. destruct r' as [l'|l' k']; simpl.
  - destruct (decide (l' < length h)%nat) as [Hlt|Hge].
    + by rewrite lookup_app_l.
    + assert (length h < l')%nat as Hgt.
      { destruct (decide (l' = length h)) as [->|?]; [congruence|lia]. }
      rewrite !lookup_ge_None_2; [done|lia|].
      rewrite length_app. simpl. lia.
  - destruct (decide (l' < length h)%nat) as [Hlt|Hge].
    + by rewrite lookup_app_l.
    + rewrite (lookup_ge_None_2 h) by lia.
      destruct (decide (l' = length h)) as [->|?].
      * rewrite lookup_app_r by lia. by rewrite Nat.sub_diag.
      * rewrite lookup_ge_None_2; [done|]. rewrite length_app. simpl. lia.
Qed.

Lemma setrow_frame (h h' : store) (r r' : ndref) (i : nat) (row : vec) :
  setrow h r i row = Ok h' -> r' <> r -> deref h' r' = deref h r'.
Proof.
  intros H Hne. apply setrow_Ok in H as (rows & Hd & _ & ->).
  by eapply deref_assign_ne.
Qed.

(** ** The model *)

Section ModelFacts.
Context (m : ParticleModel).

Lemma vol_Ok (rows : list vec) (exponent : option num) (vs : vec) :
  vol m rows exponent = Ok vs ->
  shapeOk m rows = true /\
  vs = fmap (vol1 m (default (compensationExponent m) exponent)) rows.
Proof.
  unfold vol. destruct (shapeOk m rows); [|discriminate].
  by intros [= <-].
Qed.

Lemma ff_shapeOk (dataset rows : list vec) :
  shapeOk m rows = true ->
  ff m dataset rows = Ok (fmap (fun r => fmap (fun d => ff1 m d r) dataset) rows).
Proof. unfold ff. by intros ->. Qed.

Lemma ff_Ok (dataset rows cols : list vec) :
  ff m dataset rows = Ok cols ->
  shapeOk m rows = true /\
  cols = fmap (fun r => fmap (fun d => ff1 m d r) dataset) rows.
Proof.
  unfold ff. destruct (shapeOk m rows); [|discriminate]. by intros [= <-].
Qed.

Lemma shapeOk_lookup (rows : list vec) (i : nat) (r : vec) :
  shapeOk m rows = true -> rows !! i = Some r -> shapeOk m [r] = true.
Proof.
  unfold shapeOk. rewrite !forallb_forall. intros H Hi x [<-|[]].
  apply H. apply list_elem_of_In. by eapply list_elem_of_lookup_2.
Qed.

Lemma shapeOk_insert (rows : list vec) (i : nat) (r : vec) :
  shapeOk m rows = true -> shapeOk m [r] = true ->
  shapeOk m (<[i := r]> rows) = true.
Proof.
  unfold shapeOk. rewrite !forallb_forall. intros H Hr x Hx.
  apply list_elem_of_In, list_elem_of_lookup in Hx as [j Hj].
  destruct (decide (i = j)) as [->|Hne].
  - destruct (decide (j < length rows)%nat).
    + rewrite list_lookup_insert_eq in Hj by done. injection Hj as <-.
      apply Hr. by left.
    + rewrite list_insert_ge in Hj by lia.
      apply H, list_elem_of_In. by eapply list_elem_of_lookup_2.
  - rewrite list_lookup_insert_ne in Hj by done.
    apply H, list_elem_of_In. by eapply list_elem_of_lookup_2.
Qed.

Lemma cachedIntensity_eq (fcol : vec) (v : num) :
  cachedIntensity fcol v = contribIntensity fcol v.
Proof.
  unfold cachedIntensity, contribIntensity. apply list_fmap_ext.
  intros _ f _. by rewrite nmul_1_l.
Qed.

Lemma contribColumn_eq (dataset : list vec) (r : vec) :
  contribColumn m dataset r =
  fmap (fun d => nmul (nsqr (ff1 m d r))
                      (nsqr (vol1 m (compensationExponent m) r))) dataset.
Proof.
  unfold contribColumn, contribIntensity. by rewrite <- list_fmap_compose.
Qed.

(** The cache of the cached mode, as built before the loop. *)
Lemma initial_cache (dataset rows : list vec) :
  zip_with cachedIntensity
    (fmap (fun r => fmap (fun d => ff1 m d r) dataset) rows)
    (fmap (vol1 m (compensationExponent m)) rows)
  = fmap (contribColumn m dataset) rows.
Proof.
  induction rows as [|r rows IH]; csimpl; [done|].
  f_equal; [apply cachedIntensity_eq | apply IH].
Qed.

Lemma zip_with_fmap_same {A B C D : Type} (h : B -> C -> D)
    (f : A -> B) (g : A -> C) (l : list A) :
  zip_with h (f <$> l) (g <$> l) = (fun x => h (f x) (g x)) <$> l.
Proof. induction l as [|x l IH]; csimpl; [done|]. by rewrite IH. Qed.

Lemma foldl_vadd_columns (dataset rows : list vec)
    (g : vec -> vec -> num) (a : vec -> num) :
  foldl vadd (fmap a dataset) (fmap (fun r => fmap (fun d => g d r) dataset) rows)
  = fmap (fun d => foldl nadd (a d) (fmap (g d) rows)) dataset.
Proof.
  revert a. induction rows as [|r rows IH]; csimpl; intros a; [done|].
  unfold vadd at 2. rewrite zip_with_fmap_same. by rewrite IH.
Qed.

(** Summing the cached columns gives the from-scratch total. *)
Lemma sumColumns_total (dataset rows : list vec) :
  sumColumns (length dataset) (fmap (contribColumn m dataset) rows)
  = totalIntensity m dataset rows.
Proof.
  unfold sumColumns, totalIntensity.
  rewrite <- (const_fmap (fun _ : vec => n0) dataset n0) by done.
  erewrite (list_fmap_ext (contribColumn m dataset)); last first.
  { intros _ r _. apply contribColumn_eq. }
  by rewrite (foldl_vadd_columns dataset rows
    (fun d r => nmul (nsqr (ff1 m d r)) (nsqr (vol1 m (compensationExponent m) r)))).
Qed.

Lemma totalIntensity_length (dataset rows : list vec) :
  length (totalIntensity m dataset rows) = length dataset.
Proof. unfold totalIntensity. by rewrite length_fmap. Qed.

Lemma contribColumn_length (dataset : list vec) (r : vec) :
  length (contribColumn m dataset r) = length dataset.
Proof. unfold contribColumn, contribIntensity. by rewrite !length_fmap. Qed.

(** Replacing one contribution in an exact total, entry by entry. *)
Lemma totalIntensity_replace (dataset rows : list vec) (i : nat) (r r' : vec) :
  rows !! i = Some r ->
  Forall is_fin (vadd (vsub (totalIntensity m dataset rows)
                            (contribColumn m dataset r))
                      (contribColumn m dataset r')) ->
  vadd (vsub (totalIntensity m dataset rows) (contribColumn m dataset r))
       (contribColumn m dataset r')
  = totalIntensity m dataset (<[i := r']> rows).
Proof.
  intros Hi. rewrite !contribColumn_eq. unfold totalIntensity, vadd, vsub.
  induction dataset as [|d ds IH]; simpl; [done|].
  intros Hfin. apply Forall_cons in Hfin as [Hd Hds].
  f_equal; [|by apply IH].
  rewrite list_fmap_insert. apply npsum_replace; [|done].
  by rewrite list_lookup_fmap, Hi.
Qed.
End ModelFacts.

(** ** One pass of the loop *)

Section StepFacts.
Context (E : Env) (m : ParticleModel).

Lemma randUniform_one (g g' : G E) (rt : list vec) :
  randUniform E m 1 g = (rt, g') -> exists row, rt = [row].
Proof.
  unfold randUniform. destruct (drawColumns E (valueRange m) 1 g) as [cols g1].
  intros [= <- _]. unfold rowsOfColumns. simpl. eauto.
Qed.

Lemma trial_Ok (dataset : list vec) (w w1 : World E) (rtRow itt : vec) (vtt : num) :
  trial E m dataset w = Ok (rtRow, itt, vtt, w1) ->
  shapeOk m [rtRow] = true /\
  vtt = vol1 m (compensationExponent m) rtRow /\
  itt = contribColumn m dataset rtRow /\
  heap w1 = heap w.
Proof.
  unfold trial. destruct (randUniform E m 1 (rng w)) as [rt g1] eqn:Hrt.
  apply randUniform_one in Hrt as [row ->]. intros H.
  bind_inv H. apply ff_Ok in Hstep as [Hshape ->].
  bind_inv H. apply vol_Ok in Hstep as [_ ->]. simpl in H.
  injection H as <- <- <- <-. done.
Qed.

Lemma item_fmap {A B : Type} (f : A -> B) (l : list A) (i : nat) :
  item (f <$> l) i = f <$> item l i.
Proof. unfold item. rewrite list_lookup_fmap. by destruct (l !! i). Qed.

Lemma candidateCached_eq (dataset : list vec) (st : FitState) (h : store)
    (rows : list vec) (itt : vec) :
  cacheCoherent m dataset st h rows -> is_Some (iset st) ->
  candidateCached st itt = candidateOf m dataset st rows itt.
Proof.
  intros (_ & _ & _ & Hc) [cols Hcols]. specialize (Hc cols Hcols) as ->.
  unfold candidateCached, candidateOf. rewrite Hcols. simpl.
  rewrite item_fmap. by destruct (item rows (ri st)).
Qed.

Lemma candidateLowMemory_eq (dataset : list vec) (st : FitState)
    (w : World E) (rows : list vec) (itt : vec) :
  cacheCoherent m dataset st (heap w) rows ->
  candidateLowMemory E m dataset st itt w = candidateOf m dataset st rows itt.
Proof.
  intros (Hd & Hs & Hv & _).
  unfold candidateLowMemory, candidateOf. rewrite Hd. simpl.
  destruct (item rows (ri st)) as [r|e] eqn:Hr; simpl; [|done].
  apply item_Ok in Hr.
  rewrite (ff_shapeOk m dataset [r]) by (by eapply shapeOk_lookup). simpl.
  rewrite Hv, item_fmap. apply item_Ok in Hr. by rewrite Hr.
Qed.

Lemma candidateOf_Ok (dataset : list vec) (st : FitState) (rows : list vec)
    (itt itest : vec) :
  candidateOf m dataset st rows itt = Ok itest ->
  exists r, rows !! ri st = Some r /\
            itest = vadd (vsub (it st) (contribColumn m dataset r)) itt.
Proof.
  unfold candidateOf. intros H. bind_inv H. apply item_Ok in Hstep.
  injection H as <-. eauto.
Qed.

(** The candidate of either mode. *)
Lemma candidate_eq (P : McSASParameters) (dataset : list vec) (st : FitState)
    (w : World E) (rows : list vec) (itt : vec) :
  cacheCoherent m dataset st (heap w) rows ->
  (lowMemoryFootprint P = false -> is_Some (iset st)) ->
  (if negb (lowMemoryFootprint P) then candidateCached st itt
   else candidateLowMemory E m dataset st itt w)
  = candidateOf m dataset st rows itt.
Proof.
  intros Hc Hi. destruct (lowMemoryFootprint P); simpl.
  - by apply candidateLowMemory_eq.
  - eapply candidateCached_eq; eauto.
Qed.

(** Taking a replacement keeps the local arrays in step with the
    contribution set, whose row [ri] is now the trial. *)
Lemma accept_coherent (dataset : list vec) (st st' : FitState)
    (w w' : World E) (rows : list vec) (rtRow itt itest : vec)
    (vtt vstest convalt : num) (sct : num * num) :
  cacheCoherent m dataset st (heap w) rows ->
  shapeOk m [rtRow] = true ->
  vtt = vol1 m (compensationExponent m) rtRow ->
  itt = contribColumn m dataset rtRow ->
  accept E st rtRow itt vtt itest vstest sct convalt w = Ok (st', w') ->
  cacheCoherent m dataset st' (heap w') (<[ri st := rtRow]> rows) /\
  it st' = itest /\ rng w' = rng w /\
  heap w' = assign (heap w) (rset st) (<[ri st := rtRow]> rows).
Proof.
  intros (Hd & Hs & Hv & Hc) Hshape -> -> H. unfold accept in H.
  bind_inv H. apply setrow_Ok in Hstep as (rows0 & Hd0 & Hlt & ->).
  rewrite Hd in Hd0. injection Hd0 as <-.
  injection H as <- <-. simpl. repeat split.
  - by eapply deref_assign.
  - by apply shapeOk_insert.
  - by rewrite Hv, list_fmap_insert.
  - intros cols Hcols. destruct (iset st) as [c0|]; simpl in Hcols; [|done].
    injection Hcols as <-. rewrite (Hc c0 eq_refl). by rewrite list_fmap_insert.
Qed.

Lemma advance_Ok (st st' : FitState) :
  advance st = Ok st' ->
  rset st' = rset st /\ vset st' = vset st /\ iset st' = iset st /\
  it st' = it st /\ numMoves st' = numMoves st /\ conval st' = conval st /\
  numIter st' = S (numIter st) /\ numContribsLocal st' = numContribsLocal st /\
  (ri st' < numContribsLocal st)%nat.
Proof.
  unfold advance. destruct (decide (numContribsLocal st = 0%nat)); [discriminate|].
  intros [= <-]. simpl. repeat split. by apply Nat.mod_upper_bound.
Qed.

Lemma advance_coherent (dataset : list vec) (st st' : FitState) (h : store)
    (rows : list vec) :
  advance st = Ok st' ->
  cacheCoherent m dataset st h rows -> cacheCoherent m dataset st' h rows.
Proof.
  intros H (Hd & Hs & Hv & Hc).
  apply advance_Ok in H as (Hr & Hvs & Hi & _).
  unfold cacheCoherent. rewrite Hr, Hvs, Hi. done.
Qed.
End StepFacts.

Section LoopFacts.
Context (E : Env) (m : ParticleModel).

Lemma optimScalingAndBackground_conval (intObs intCalc error : vec)
    (sc0 sc' : num * num) (ver : nat) (cv : num) :
  optimScalingAndBackground E intObs intCalc error sc0 ver true = Ok (sc', cv) ->
  cv = csqr_v1 intObs (vadds (vscale sc'.1 intCalc) sc'.2) error.
Proof.
  unfold optimScalingAndBackground. intros H. bind_inv H. by injection H as <- <-.
Qed.

(** What one pass of the loop does to a state whose arrays agree with
    the contribution set and whose total is exact: either nothing but
    counting, or the replacement of row [ri] by the trial, after which
    the arrays agree again, the total is exact again and it is a total of
    numbers. *)
Lemma mcStep_Ok (P : McSASParameters) (dataset : list vec) (intObs error : vec)
    (st st' : FitState) (w w' : World E) (rows : list vec) :
  mcStep E m P dataset intObs error st w = Ok (st', w') ->
  cacheCoherent m dataset st (heap w) rows ->
  (lowMemoryFootprint P = false -> is_Some (iset st)) ->
  it st = totalIntensity m dataset rows ->
  length intObs = length dataset ->
  length error = length dataset ->
  exists rows',
    cacheCoherent m dataset st' (heap w') rows' /\
    it st' = totalIntensity m dataset rows' /\
    (lowMemoryFootprint P = false -> is_Some (iset st')) /\
    rset st' = rset st /\
    ((numMoves st' = numMoves st /\ rows' = rows /\ heap w' = heap w) \/
     (numMoves st' = S (numMoves st) /\ Forall is_fin (it st') /\
      exists rtRow, rows' = <[ri st := rtRow]> rows /\
                    heap w' = assign (heap w) (rset st) rows')).
Proof.
  intros H Hc Hi Hit Ho He. unfold mcStep in H.
  bind_inv H as [[[rtRow itt] vtt] w1] Htrial.
  apply trial_Ok in Htrial as (Hshape & Hvtt & Hitt & Hheap).
  rewrite (candidate_eq E m P dataset st w1 rows itt) in H
    by (by rewrite ?Hheap).
  bind_inv H as itest Hcand. apply candidateOf_Ok in Hcand as (r & Hr & ->).
  bind_inv H as vri Hvri. bind_inv H as [sct convalt] Hopt.
  apply optimScalingAndBackground_conval in Hopt as Hcv.
  bind_inv H as [st1 w2] Hacc.
  bind_inv H as st2 Hadv. injection H as <- <-.
  pose proof (advance_Ok _ _ Hadv) as (Hr2 & _ & Hi2 & Hit2 & Hm2 & _).
  destruct (nlt convalt (conval st)) eqn:Hlt.
  - (* the replacement is taken *)
    unfold smear in *.
    assert (Forall is_fin (vadd (vsub (it st) (contribColumn m dataset r)) itt)) as Hfin.
    { rewrite Hcv in Hlt.
      eapply accepted_candidate_finite; [exact Hlt| |].
      - unfold vadd, vsub. rewrite !length_zip_with, Hit, totalIntensity_length. lia.
      - unfold vadd, vsub. rewrite !length_zip_with, Hit, totalIntensity_length. lia. }
    assert (rset st1 = rset st /\ numMoves st1 = S (numMoves st) /\
            iset st1 = (fun cols => <[ri st := itt]> cols) <$> iset st)
      as (Hr1 & Hm1 & Hi1).
    { unfold accept in Hacc. clear -Hacc. bind_inv Hacc as h1 Hset.
      by injection Hacc as <- _. }
    eapply accept_coherent in Hacc as (Hc1 & Hit1 & _ & Hh1);
      [|by rewrite Hheap|done..].
    exists (<[ri st := rtRow]> rows).
    split_and!.
    + by eapply advance_coherent.
    + rewrite Hit2, Hit1. subst itt. rewrite Hit in *.
      by apply totalIntensity_replace.
    + intros Hlow. rewrite Hi2, Hi1.
      destruct (Hi Hlow) as [cols ->]. by eexists.
    + by rewrite Hr2.
    + right. split_and!.
      * by rewrite Hm2.
      * by rewrite Hit2, Hit1.
      * exists rtRow. split; [done|]. by rewrite Hh1, Hheap.
  - (* it is not *)
    injection Hacc as <- <-.
    exists rows.
    split_and!.
    + eapply advance_coherent; [exact Hadv|].
      destruct Hc as (Hd & Hs & Hv & Hcc). rewrite Hheap. by split_and!.
    + by rewrite Hit2.
    + intros Hlow. rewrite Hi2. simpl. auto.
    + by rewrite Hr2.
    + left. by rewrite Hm2.
Qed.
End LoopFacts.

(** ** Seeding *)

Section SeedFacts.
Context (E : Env) (m : ParticleModel).

Lemma randUniform_length (n : nat) (g : G E) :
  length (randUniform E m n g).1 = n.
Proof.
  unfold randUniform. destruct (drawColumns E (valueRange m) n g) as [cols g'].
  simpl. unfold rowsOfColumns. by rewrite length_fmap, length_seq.
Qed.

(** The two ways [seed] ends: on the prior itself, untouched and with
    all of its rows, or on a fresh array of [numContribs] rows. *)
Lemma seed_Ok (P : McSASParameters) (q : vec) (w w1 : World E)
    (rs : ndref) (N : nat) :
  seed E m P q w = Ok (rs, N, w1) ->
  exists rows,
    deref (heap w1) rs = Some rows /\ length rows = N /\
    ((prior P = Arr rs /\ w1 = w /\ rows <> [] /\
      sizeOf (heap w) (prior P) <> Ok 0%nat) \/
     (sizeOf (heap w) (prior P) = Ok 0%nat /\ rs = Whole (length (heap w)) /\
      heap w1 = heap w ++ [A2 rows] /\ N = numContribs P)).
Proof.
  unfold seed. intros H. bind_inv H as sz Hsz.
  destruct (decide (sz = 0%nat)) as [->|Hnz].
  - destruct (startFromMinimum P).
    + bind_inv H as row Hrow. injection H as <- <- <-.
      exists (replicate (numContribs P) row). split_and!.
      * apply (deref_alloc (heap w)).
      * by rewrite length_replicate.
      * right. done.
    + destruct (randUniform E m (numContribs P) (rng w)) as [rows g'] eqn:Hru.
      injection H as <- <- <-. exists rows. split_and!.
      * apply (deref_alloc (heap w)).
      * pose proof (randUniform_length (numContribs P) (rng w)) as Hl.
        by rewrite Hru in Hl.
      * right. done.
  - destruct (prior P) as [|r] eqn:Hp.
    { discriminate. }
    bind_inv H as rows Hrows. apply from_option_Ok in Hrows.
    assert (rows <> []) as Hne.
    { intros ->. unfold sizeOf in Hsz. simpl in Hsz. rewrite Hrows in Hsz.
      simpl in Hsz. injection Hsz as <-. done. }
    destruct (decide (length rows ≠ 0%nat)) as [_|Hz].
    + injection H as <- <- <-. exists rows. split_and!; [done..|].
      left. split_and!; [done..|]. rewrite Hsz. intros [= ->]. done.
    + exfalso. apply Hne. apply nil_length_inv. lia.
Qed.

Lemma seed_mode (P : McSASParameters) (b : bool) (q : vec) (w : World E) :
  seed E m (setLowMemoryFootprint P b) q w = seed E m P q w.
Proof. reflexivity. Qed.

Lemma vadd_zeros (c : vec) : vadd (replicate (length c) n0) c = c.
Proof.
  induction c as [|x c IH]; simpl; [done|].
  unfold vadd in *. simpl. rewrite IH. f_equal. apply nadd_0_l.
Qed.

Lemma lowMemoryTotal_Some (dataset rows : list vec) (acc : vec) :
  shapeOk m rows = true ->
  lowMemoryTotal m dataset rows (vol1 m (compensationExponent m) <$> rows) (Some acc)
  = Ok (Some (foldl vadd acc (contribColumn m dataset <$> rows))).
Proof.
  revert acc. induction rows as [|r rows IH]; intros acc Hs; [done|].
  assert (shapeOk m [r] = true) as Hr by (by eapply (shapeOk_lookup m _ 0%nat)).
  assert (shapeOk m rows = true) as Hrest.
  { unfold shapeOk in *. simpl in Hs. by apply andb_prop in Hs as [_ ?]. }
  cbn [lowMemoryTotal]. rewrite (ff_shapeOk m dataset [r] Hr). csimpl.
  rewrite drop_0. by rewrite IH.
Qed.

(** The accumulation of the low-memory mode ends on the sum of the
    columns the cached mode keeps, unless there is no contribution. *)
Lemma lowMemoryTotal_None (dataset rows : list vec) :
  shapeOk m rows = true -> rows <> [] ->
  lowMemoryTotal m dataset rows (vol1 m (compensationExponent m) <$> rows) None
  = Ok (Some (sumColumns (length dataset) (contribColumn m dataset <$> rows))).
Proof.
  destruct rows as [|r rows]; [done|]. intros Hs _.
  assert (shapeOk m [r] = true) as Hr by (by eapply (shapeOk_lookup m _ 0%nat)).
  assert (shapeOk m rows = true) as Hrest.
  { unfold shapeOk in *. simpl in Hs. by apply andb_prop in Hs as [_ ?]. }
  cbn [lowMemoryTotal]. rewrite (ff_shapeOk m dataset [r] Hr). csimpl.
  rewrite drop_0, lowMemoryTotal_Some by done.
  unfold sumColumns. csimpl. do 3 f_equal.
  rewrite <- (contribColumn_length m dataset r) at 1.
  rewrite vadd_zeros.
  fold (contribColumn m dataset r).
  rewrite <- (list_fmap_id (contribColumn m dataset r)) at 2.
  apply list_fmap_ext. intros _ x _. apply nadd_0_l.
Qed.

Lemma lowMemoryTotal_nil (dataset : list vec) (vs : vec) :
  lowMemoryTotal m dataset [] vs None = Ok None.
Proof. done. Qed.
End SeedFacts.

(** ** Before the loop *)

Section InitFacts.
Context (E : Env) (m : ParticleModel).

Lemma mcInit_Ok (P : McSASParameters) (dataset : list vec) (w w1 : World E)
    (st : FitState) :
  mcInit E m P dataset w = Ok (st, w1) ->
  exists q rows,
    column dataset 0 = Ok q /\
    seed E m P q w = Ok (rset st, numContribsLocal st, w1) /\
    cacheCoherent m dataset st (heap w1) rows /\
    it st = totalIntensity m dataset rows /\
    (lowMemoryFootprint P = false -> is_Some (iset st)) /\
    numMoves st = 0%nat /\ numIter st = 0%nat.
Proof.
  unfold mcInit. intros H.
  bind_inv H as q Hq. bind_inv H as [[rs N] w0] Hseed.
  bind_inv H as rows Hrows. apply from_option_Ok in Hrows.
  bind_inv H as vs Hvs. apply vol_Ok in Hvs as [Hshape ->]. simpl in H.
  bind_inv H as [[cache total] isCol] Hmode.
  bind_inv H as intensity Hint. bind_inv H as error Herr.
  bind_inv H as imax Himax. bind_inv H as it0 Hit0.
  apply from_option_Ok in Hit0. subst total.
  bind_inv H as itmax Hitmax. bind_inv H as bgi Hbgi.
  bind_inv H as [sc1 cv1] Hopt1. bind_inv H as [sc2 cv2] Hopt2.
  injection H as <- <-. simpl.
  exists q, rows. split; [done|]. split; [done|].
  destruct (lowMemoryFootprint P) eqn:Hlow; simpl in Hmode.
  - bind_inv Hmode as t Ht. injection Hmode as <- -> <-.
    assert (rows <> []) as Hne.
    { intros ->. rewrite lowMemoryTotal_nil in Ht. discriminate. }
    rewrite lowMemoryTotal_None in Ht by done. injection Ht as <-.
    unfold smear.
    split_and!; [by split_and! | apply sumColumns_total | done..].
  - bind_inv Hmode as ffset Hff. apply ff_Ok in Hff as [_ ->].
    injection Hmode as <- Htot <-. rewrite initial_cache in *.
    subst it0. unfold smear.
    split_and!; [|apply sumColumns_total|by eexists|done..].
    split_and!; try done. by intros cols [= <-].
Qed.

(** Both execution modes enter the loop in the same state, the cache
    and the shape of [it] apart. *)
Lemma mcInit_modes (P : McSASParameters) (dataset : list vec) (w : World E) :
  (0 < numContribs P)%nat ->
  eraseCacheW E <$> mcInit E m (setLowMemoryFootprint P true) dataset w
  = eraseCacheW E <$> mcInit E m (setLowMemoryFootprint P false) dataset w.
Proof.
  intros HN. unfold mcInit.
  destruct (column dataset 0) as [q|]; [simpl|done].
  rewrite !seed_mode.
  destruct (seed E m P q w) as [[[rs N] w0]|] eqn:Hseed; [simpl|done].
  apply seed_Ok in Hseed as (rows & Hd & Hlen & Hcase). rewrite Hd. simpl.
  destruct (vol m rows None) as [vs|] eqn:Hvs; [simpl|done].
  apply vol_Ok in Hvs as [Hshape ->]. simpl.
  assert (rows <> []) as Hne.
  { destruct Hcase as [(_ & _ & ? & _)|(_ & _ & _ & ->)]; [done|].
    intros ->. simpl in Hlen. lia. }
  rewrite (ff_shapeOk m dataset rows Hshape). simpl.
  rewrite lowMemoryTotal_None by done. simpl.
  rewrite initial_cache.
  destruct (column dataset 1) as [intensity|]; [simpl|done].
  destruct (column dataset 2) as [error|]; [simpl|done].
  destruct (npmax intensity) as [imax|]; [simpl|done].
  destruct (npmax _) as [itmax|]; [simpl|done].
  destruct (npmin intensity) as [bgi|]; [simpl|done].
  destruct (optimScalingAndBackground E intensity _ error (ndiv imax itmax, bgi) 1 true)
    as [[sc1 cv1]|]; [simpl|done].
  destruct (optimScalingAndBackground E intensity _ error sc1 2 true)
    as [[sc2 cv2]|]; [simpl|done].
  done.
Qed.
End InitFacts.

(** ** The two execution modes *)

Section Modes.
Context (E : Env) (m : ParticleModel).

Lemma eraseCache_fields (s1 s2 : FitState) :
  eraseCache s1 = eraseCache s2 ->
  rset s1 = rset s2 /\ numContribsLocal s1 = numContribsLocal s2 /\
  vset s1 = vset s2 /\ it s1 = it s2 /\ vst s1 = vst s2 /\ sc s1 = sc s2 /\
  conval s1 = conval s2 /\ numMoves s1 = numMoves s2 /\
  numNotAccepted s1 = numNotAccepted s2 /\ numIter s1 = numIter s2 /\
  ri s1 = ri s2.
Proof.
  destruct s1, s2. unfold eraseCache. simpl. intros [=]. by split_and!.
Qed.

(** One pass of the loop in the low-memory mode and in the cached mode,
    from states that differ in the cache at most: the same exception, or
    the same decision and states that again differ in the cache at
    most. *)
Lemma mcStep_modes (Pl Pc : McSASParameters) (dataset : list vec)
    (intObs error : vec) (sl sc0 : FitState) (w : World E) (rows : list vec) :
  lowMemoryFootprint Pl = true -> lowMemoryFootprint Pc = false ->
  eraseCache sl = eraseCache sc0 ->
  cacheCoherent m dataset sl (heap w) rows ->
  cacheCoherent m dataset sc0 (heap w) rows ->
  is_Some (iset sc0) ->
  eraseCacheW E <$> mcStep E m Pl dataset intObs error sl w
  = eraseCacheW E <$> mcStep E m Pc dataset intObs error sc0 w.
Proof.
  intros Hl Hc Heq Hcl Hcc Hi. unfold mcStep.
  destruct (trial E m dataset w) as [[[[rtRow itt] vtt] w1]|] eqn:Htrial;
    [simpl|done].
  apply trial_Ok in Htrial as (_ & _ & _ & Hheap).
  rewrite (candidate_eq E m Pl dataset sl w1 rows itt)
    by (rewrite ?Hheap; first [done | by rewrite Hl]).
  rewrite (candidate_eq E m Pc dataset sc0 w1 rows itt)
    by (by rewrite ?Hheap).
  apply eraseCache_fields in Heq
    as (Hrs & HN & Hvs & Hit & Hvst & Hsc & Hcv & Hnm & Hna & Hni & Hri).
  unfold candidateOf, candidateVolume. rewrite Hri, Hit, Hvs, Hvst, Hsc, Hcv.
  destruct (item rows (ri sc0)) as [r|]; [simpl|done].
  destruct (item (vset sc0) (ri sc0)) as [vri|]; [simpl|done].
  destruct (optimScalingAndBackground E intObs _ error (sc sc0) 2 true)
    as [[sct convalt]|]; [simpl|done].
  destruct (nlt convalt (conval sc0)); simpl.
  - unfold accept. rewrite Hrs, Hri.
    destruct (setrow (heap w1) (rset sc0) (ri sc0) rtRow) as [h'|]; [simpl|done].
    unfold advance. simpl. rewrite HN.
    destruct (decide (numContribsLocal sc0 = 0%nat)); [done|]. simpl.
    unfold eraseCacheW, eraseCache. simpl.
    by rewrite ?Hrs, ?HN, ?Hvs, ?Hit, ?Hvst, ?Hsc, ?Hcv, ?Hnm, ?Hna, ?Hni, ?Hri.
  - unfold advance, reject. simpl. rewrite HN.
    destruct (decide (numContribsLocal sc0 = 0%nat)); [done|]. simpl.
    unfold eraseCacheW, eraseCache. simpl.
    by rewrite ?Hrs, ?HN, ?Hvs, ?Hit, ?Hvst, ?Hsc, ?Hcv, ?Hnm, ?Hna, ?Hni, ?Hri.
Qed.

Lemma eraseCacheW_Ok_inv (x y : res (FitState * World E)) :
  eraseCacheW E <$> x = eraseCacheW E <$> y ->
  match x, y with
  | Ok (s1, w1), Ok (s2, w2) => eraseCache s1 = eraseCache s2 /\ w1 = w2
  | Raise e1, Raise e2 => e1 = e2
  | _, _ => False
  end.
Proof.
  destruct x as [[s1 w1]|e1], y as [[s2 w2]|e2]; try discriminate.
  - intros H.
    assert (eraseCacheW E (s1, w1) = eraseCacheW E (s2, w2)) as H'
      by (cbn in H; congruence).
    split; [exact (f_equal fst H') | exact (f_equal snd H')].
  - cbn. congruence.
Qed.

Lemma keepIterating_modes (Pl Pc : McSASParameters) (sl sc0 : FitState) :
  convergenceCriterion Pl = convergenceCriterion Pc ->
  maxIterations Pl = maxIterations Pc ->
  eraseCache sl = eraseCache sc0 ->
  keepIterating Pl sl = keepIterating Pc sc0.
Proof.
  intros Hcrit Hmax Heq. apply eraseCache_fields in Heq
    as (_ & _ & _ & _ & _ & _ & Hcv & _ & _ & Hni & _).
  unfold keepIterating. by rewrite Hcrit, Hmax, Hcv, Hni.
Qed.

Lemma coherent_rows (dataset : list vec) (s1 s2 : FitState) (h : store)
    (rows1 rows2 : list vec) :
  rset s1 = rset s2 ->
  cacheCoherent m dataset s1 h rows1 -> cacheCoherent m dataset s2 h rows2 ->
  rows1 = rows2.
Proof. intros Hr (H1 & _) (H2 & _). rewrite Hr in H1. congruence. Qed.

(** The loop of the two modes, pass by pass. *)
Lemma mcIterate_modes (fuel : nat) (Pl Pc : McSASParameters)
    (dataset : list vec) (intObs error : vec) (sl sc0 : FitState)
    (w : World E) (rows : list vec) :
  lowMemoryFootprint Pl = true -> lowMemoryFootprint Pc = false ->
  convergenceCriterion Pl = convergenceCriterion Pc ->
  maxIterations Pl = maxIterations Pc ->
  length intObs = length dataset -> length error = length dataset ->
  eraseCache sl = eraseCache sc0 ->
  cacheCoherent m dataset sl (heap w) rows ->
  cacheCoherent m dataset sc0 (heap w) rows ->
  is_Some (iset sc0) ->
  it sc0 = totalIntensity m dataset rows ->
  eraseCacheW E <$> mcIterate E m fuel Pl dataset intObs error sl w
  = eraseCacheW E <$> mcIterate E m fuel Pc dataset intObs error sc0 w.
Proof.
  intros Hl Hc Hcrit Hmax Ho He.
  revert sl sc0 w rows.
  induction fuel as [|k IH]; intros sl sc0 w rows Heq Hcl Hcc Hi Hit; simpl.
  { unfold eraseCacheW. simpl. by rewrite Heq. }
  rewrite (keepIterating_modes Pl Pc sl sc0) by done.
  destruct (keepIterating Pc sc0); simpl;
    [|unfold eraseCacheW; simpl; by rewrite Heq].
  pose proof (mcStep_modes Pl Pc dataset intObs error sl sc0 w rows
                Hl Hc Heq Hcl Hcc Hi) as Hstep.
  apply eraseCacheW_Ok_inv in Hstep.
  destruct (mcStep E m Pl dataset intObs error sl w) as [[sl' wl']|el] eqn:Hsl,
           (mcStep E m Pc dataset intObs error sc0 w) as [[sc' wc']|ec] eqn:Hsc;
    simpl; try done; [|by subst].
  destruct Hstep as [Heq' ->].
  assert (it sl = totalIntensity m dataset rows) as Hitl.
  { apply eraseCache_fields in Heq as (_ & _ & _ & -> & _). done. }
  eapply mcStep_Ok in Hsl as (rowsl & Hcl' & _ & _ & Hrl & _);
    [|done|by rewrite Hl|done..].
  eapply mcStep_Ok in Hsc as (rowsc & Hcc' & Hit' & Hi' & Hrc & _);
    [|done|done..].
  assert (rowsl = rowsc) as ->.
  { eapply coherent_rows; [|exact Hcl'|exact Hcc'].
    apply eraseCache_fields in Heq' as (-> & _). done. }
  eapply IH; eauto.
Qed.
End Modes.

(** ** Tolerance *)

Lemma Qcleb_le (a b : Qc) : Qcleb a b = true <-> (a <= b)%Qc.
Proof.
  unfold Qcleb. rewrite Qcle_alt. destruct (a ?= b)%Qc; split; congruence.
Qed.

Lemma Qcltb_lt (a b : Qc) : Qcltb a b = true <-> (a < b)%Qc.
Proof.
  unfold Qcltb. rewrite Qclt_alt. destruct (a ?= b)%Qc; split; congruence.
Qed.

Lemma nabs_nonneg (q : Qc) : exists a, nabs (Fin q) = Fin a /\ (0 <= a)%Qc.
Proof.
  simpl. destruct (Qcltb q 0) eqn:Hq.
  - exists (- q)%Qc. split; [done|]. apply Qcltb_lt in Hq.
    apply Qclt_le_weak, Qcopp_le_compat in Hq. by replace (- 0)%Qc with 0%Qc in Hq by ring.
  - exists q. split; [done|]. apply Qcnot_lt_le. intros Hlt.
    apply Qcltb_lt in Hlt. congruence.
Qed.

(** A number is within any non-negative relative tolerance of itself. *)
Lemma withinTolerance_refl (tol q : Qc) :
  (0 <= tol)%Qc -> withinTolerance (Fin tol) (Fin q) (Fin q) = true.
Proof.
  intros Htol. unfold withinTolerance.
  destruct (nabs_nonneg q) as (a & -> & Ha). simpl.
  replace (q + - q)%Qc with 0%Qc by ring.
  replace (Qcltb 0 0) with false by done. simpl.
  apply Qcleb_le. by apply Qcmult_nonneg_nonneg.
Qed.

Lemma withinTolerance_same (tol : Qc) (xs : vec) :
  (0 <= tol)%Qc -> Forall is_fin xs ->
  Forall2 (fun a b => withinTolerance (Fin tol) a b = true) xs xs.
Proof.
  intros Htol. induction 1 as [|x xs [q ->] _ IH]; constructor; [|done].
  by apply withinTolerance_refl.
Qed.

(** ** The loop as a whole *)

Section IterateFacts.
Context (E : Env) (m : ParticleModel).

(** Every state the loop passes through keeps its arrays in step with
    the contribution set and its total exact; once a replacement has been
    taken the total is a total of numbers. *)
Lemma mcIterate_Ok (fuel : nat) (P : McSASParameters) (dataset : list vec)
    (intObs error : vec) (st st' : FitState) (w w' : World E) (rows : list vec) :
  mcIterate E m fuel P dataset intObs error st w = Ok (st', w') ->
  cacheCoherent m dataset st (heap w) rows ->
  (lowMemoryFootprint P = false -> is_Some (iset st)) ->
  it st = totalIntensity m dataset rows ->
  ((0 < numMoves st)%nat -> Forall is_fin (it st)) ->
  length intObs = length dataset ->
  length error = length dataset ->
  exists rows',
    cacheCoherent m dataset st' (heap w') rows' /\
    it st' = totalIntensity m dataset rows' /\
    rset st' = rset st /\
    ((0 < numMoves st')%nat -> Forall is_fin (it st')).
Proof.
  intros H Hc Hi Hit Hfin Ho He. revert st w rows H Hc Hi Hit Hfin.
  induction fuel as [|k IH]; intros st w rows H Hc Hi Hit Hfin; simpl in H.
  { injection H as <- <-. by exists rows. }
  destruct (keepIterating P st).
  - bind_inv H as [st1 w1] Hstep.
    eapply mcStep_Ok in Hstep as (rows1 & Hc1 & Hit1 & Hi1 & Hr1 & Hcase);
      [|done..].
    assert ((0 < numMoves st1)%nat -> Forall is_fin (it st1)) as Hfin1.
    { destruct Hcase as [(Hm & -> & _)|(_ & Hf & _)]; [|done].
      intros Hpos. rewrite Hit1, <- Hit. apply Hfin. by rewrite <- Hm. }
    destruct (IH st1 w1 rows1 H Hc1 Hi1 Hit1 Hfin1) as (rows' & ? & ? & Hr' & ?).
    exists rows'. split_and!; try done. by rewrite Hr', Hr1.
  - injection H as <- <-. by exists rows.
Qed.

Lemma mcFinish_erase (intObs error : vec) (s1 s2 : FitState) :
  eraseCache s1 = eraseCache s2 ->
  eraseShape <$> mcFinish E intObs error s1
  = eraseShape <$> mcFinish E intObs error s2.
Proof.
  intros Heq. apply eraseCache_fields in Heq
    as (Hrs & HN & Hvs & Hit & Hvst & Hsc & Hcv & Hnm & Hna & Hni & Hri).
  unfold mcFinish. rewrite Hit, Hvs, Hsc.
  destruct (optimScalingAndBackground E intObs _ error (sc s2) 2 true)
    as [[scf cvf]|]; [simpl|done].
  unfold eraseShape. simpl. by rewrite Hrs, Hni, Hnm.
Qed.
End IterateFacts.

(** ** Retries *)

(** ** The arrays a fit leaves alone *)

Section FrameFacts.
Context (E : Env) (m : ParticleModel).

Lemma mcStep_frame (P : McSASParameters) (dataset : list vec)
    (intObs error : vec) (st st' : FitState) (w w' : World E) :
  mcStep E m P dataset intObs error st w = Ok (st', w') ->
  rset st' = rset st /\
  (forall r', r' <> rset st -> deref (heap w') r' = deref (heap w) r') /\
  (forall rows, deref (heap w) (rset st) = Some rows ->
     exists rows', deref (heap w') (rset st) = Some rows' /\
                   length rows' = length rows).
Proof.
  unfold mcStep. intros H.
  bind_inv H as [[[rtRow itt] vtt] w1] Htrial.
  apply trial_Ok in Htrial as (_ & _ & _ & Hheap).
  bind_inv H as itest Hcand. bind_inv H as vri Hvri.
  bind_inv H as [sct convalt] Hopt. bind_inv H as [st1 w2] Hacc.
  bind_inv H as st2 Hadv. injection H as <- <-.
  apply advance_Ok in Hadv as (-> & _).
  destruct (nlt convalt (conval st)).
  - unfold accept in Hacc. bind_inv Hacc as h1 Hset.
    injection Hacc as <- <-. simpl. split_and!; [done| |].
    + intros r' Hne. rewrite <- Hheap. by eapply setrow_frame.
    + intros rows Hrows. rewrite <- Hheap in Hrows.
      apply setrow_Ok in Hset as (rows0 & Hd & _ & ->).
      exists (<[ri st := rtRow]> rows0).
      split; [by eapply deref_assign|].
      rewrite length_insert. congruence.
  - injection Hacc as <- <-. simpl. split_and!; [done| |].
    + intros r' _. by rewrite Hheap.
    + intros rows Hrows. exists rows. by rewrite Hheap.
Qed.

Lemma mcIterate_frame (fuel : nat) (P : McSASParameters) (dataset : list vec)
    (intObs error : vec) (st st' : FitState) (w w' : World E) :
  mcIterate E m fuel P dataset intObs error st w = Ok (st', w') ->
  rset st' = rset st /\
  (forall r', r' <> rset st -> deref (heap w') r' = deref (heap w) r') /\
  (forall rows, deref (heap w) (rset st) = Some rows ->
     exists rows', deref (heap w') (rset st) = Some rows' /\
                   length rows' = length rows).
Proof.
  revert st w. induction fuel as [|k IH]; intros st w H; simpl in H.
  { injection H as <- <-. split_and!; eauto. }
  destruct (keepIterating P st);
    [|injection H as <- <-; split_and!; eauto].
  bind_inv H as [st1 w1] Hstep.
  apply mcStep_frame in Hstep as (Hr1 & Hf1 & Hl1).
  apply IH in H as (Hr & Hf & Hl). split_and!; [congruence| |].
  - intros r' Hne. rewrite Hf, Hf1; [done..|congruence].
  - intros rows Hrows. apply Hl1 in Hrows as (rows1 & Hrows1 & Hlen1).
    rewrite <- Hr1 in Hrows1. apply Hl in Hrows1 as (rows' & Hrows' & Hlen).
    exists rows'. split; congruence.
Qed.

(** [mcFit] returns the array it worked on.  That is the prior itself
    when one of a size other than zero is set, which keeps its number of
    rows, and a fresh array otherwise; what every other reference sees is
    left as it was. *)
Lemma mcFit_frame (P : McSASParameters) (dataset : list vec)
    (w w' : World E) (r : McFitResult) :
  mcFit E m P dataset w = Ok (r, w') ->
  (forall r', r' <> fitContribs r ->
              deref (heap w') r' = deref (heap w) r') /\
  ((prior P = Arr (fitContribs r) /\
    sizeOf (heap w) (prior P) <> Ok 0%nat /\
    exists rows0 rows,
      deref (heap w) (fitContribs r) = Some rows0 /\
      deref (heap w') (fitContribs r) = Some rows /\
      length rows = length rows0) \/
   (sizeOf (heap w) (prior P) = Ok 0%nat /\
    fitContribs r = Whole (length (heap w)) /\
    deref (heap w) (fitContribs r) = None /\
    is_Some (deref (heap w') (fitContribs r)))).
Proof.
  unfold mcFit, mcFitUpTo. intros H.
  bind_inv H as [st w1] Hrun. bind_inv Hrun as [st0 w0] Hinit.
  bind_inv Hrun as intObs Hobs. bind_inv Hrun as error Herr.
  bind_inv H as intObs' Hobs'. bind_inv H as error' Herr'.
  bind_inv H as res Hfin. injection H as <- <-.
  assert (fitContribs res = rset st) as ->.
  { unfold mcFinish in Hfin. bind_inv Hfin as [scf convalf] Hopt.
    by injection Hfin as <-. }
  apply mcInit_Ok in Hinit as (q & rows0 & _ & Hseed & _).
  apply mcIterate_frame in Hrun as (Hr & Hf & Hl). rewrite Hr in *.
  apply seed_Ok in Hseed as (rows1 & Hd1 & _ & Hcase).
  apply Hl in Hd1 as Hd. destruct Hd as (rows & Hd & Hlen).
  split.
  - intros r' Hne. rewrite Hf by done.
    destruct Hcase as [(_ & -> & _)|(_ & Hfresh & -> & _)]; [done|].
    apply deref_alloc_ne. congruence.
  - destruct Hcase as [(Hp & -> & _ & Hsz)|(Hsz & Hfresh & Hh & _)].
    + left. split_and!; [done..|]. by exists rows1, rows.
    + right. split_and!; [done..| |by rewrite Hd].
      rewrite Hfresh. simpl. rewrite lookup_ge_None_2; [done|lia].
Qed.
End FrameFacts.

Section RetryFacts.
Context (E : Env) (m : ParticleModel).

Lemma attempt_shift (j : nat) (P : McSASParameters) (dataset : list vec)
    (w w1 : World E) (r : McFitResult) :
  mcFit E m P dataset w = Ok (r, w1) ->
  attempt E m (S j) P dataset w = attempt E m j P dataset w1.
Proof.
  intros Hfit. induction j as [|j IH].
  - simpl. by rewrite Hfit.
  - change (attempt E m (S (S j)) P dataset w)
      with (attempt E m (S j) P dataset w ≫=
              (fun '(_, w') => mcFit E m P dataset w')).
    by rewrite IH.
Qed.

Lemma failedAttempts_shift (n : nat) (P : McSASParameters)
    (dataset : list vec) (w w1 : World E) (r : McFitResult) :
  mcFit E m P dataset w = Ok (r, w1) ->
  ngt (fitConval r) (convergenceCriterion P) = true ->
  failedAttempts E m P dataset w1 n ->
  failedAttempts E m P dataset w (S n).
Proof.
  intros Hfit Hgt Hn [|j] Hj.
  - exists r, w1. by split.
  - rewrite (attempt_shift j P dataset w w1 r Hfit). apply Hn. lia.
Qed.

Lemma assignFit_details (P : McSASParameters) (n nr : nat) (L L' : Locals)
    (r : McFitResult) (w : World E) :
  assignFit E m P n L nr r w = Ok L' ->
  details L' = Some (fitNumIterations r, fitNumMoves r) /\
  convergences L' = convergences L /\ priorsflag L' = priorsflag L.
Proof.
  unfold assignFit. intros H.
  bind_inv H as rows Hrows. bind_inv H as slice Hslice.
  bind_inv H as islice Hislice. bind_inv H as irow Hirow.
  by injection H as <-.
Qed.

(** How the retry loop of one repetition ends, in terms of the
    successive calls of [mcFit] it has made. *)
Lemma retry_Ok (fuel : nat) (P : McSASParameters) (dataset : list vec)
    (nr nt : nat) (c : num) (L : Locals) (w : World E) (e : RetryEnd E) :
  retry E m fuel P dataset nr nt c L w = Ok e ->
  match e with
  | Exited L' nt' c' w' =>
      ngt c' (convergenceCriterion P) = false /\
      convergences L' = convergences L /\
      ((nt' = nt /\ c' = c /\ w' = w /\ L' = L) \/
       (exists n r, nt' = (nt + S n)%nat /\ (nt' <= maxRetries P)%nat /\
                    failedAttempts E m P dataset w n /\
                    attempt E m n P dataset w = Ok (r, w') /\
                    c' = fitConval r /\ is_Some (details L') /\
                    ngt c (convergenceCriterion P) = true))
  | GaveUp nt' w' =>
      exists n r, nt' = (nt + S n)%nat /\ (maxRetries P < nt')%nat /\
                  (nt' <= S (Nat.max nt (maxRetries P)))%nat /\
                  failedAttempts E m P dataset w n /\
                  attempt E m n P dataset w = Ok (r, w') /\
                  ngt c (convergenceCriterion P) = true
  | StillTrying L' nt' c' w' =>
      nt' = (nt + fuel)%nat /\ (fuel = 0%nat \/ (nt' <= maxRetries P)%nat)
  end.
Proof.
  revert nt c L w. induction fuel as [|k IH]; intros nt c L w H; simpl in H.
  { injection H as <-. split; [lia | by left]. }
  destruct (ngt c (convergenceCriterion P)) eqn:Hgt.
  - bind_inv H as [r w1] Hfit. bind_inv H as L1 Hassign.
    apply assignFit_details in Hassign as (Hdet & Hconv & _).
    destruct (decide (maxRetries P < S nt)%nat) as [Hlim|Hlim].
    + injection H as <-. exists 0%nat, r.
      split_and!; try done; try lia. intros j Hj. lia.
    + apply IH in H. destruct e as [L' nt' c' w'|nt' w'|L' nt' c' w'].
      * destruct H as (Hc' & Hcs & Hcase). split_and!; [done|congruence|].
        right.
        destruct Hcase as [(-> & -> & -> & ->)
                          |(n & r' & -> & Hle & Hf & Ha & -> & Hd & Hg)].
        -- exists 0%nat, r.
           split_and!; try done; try lia;
             first [ intros j Hj; lia | rewrite Hdet; by eexists ].
        -- exists (S n), r'.
           split_and!; try done; try lia;
             first [ by eapply failedAttempts_shift
                   | by rewrite (attempt_shift n P dataset w w1 r Hfit) ].
      * destruct H as (n & r' & -> & Hlt & Hle & Hf & Ha & Hg).
        exists (S n), r'.
        split_and!; try done; try lia;
          first [ by eapply failedAttempts_shift
                | by rewrite (attempt_shift n P dataset w w1 r Hfit) ].
      * destruct H as (-> & Hk). split; [lia|]. right.
        destruct Hk as [->|Hk]; lia.
  - injection H as <-. split_and!; try done. by left.
Qed.
End RetryFacts.

(** ** Repetitions *)

Lemma ngt_false_nle (x y : num) :
  ngt x y = false -> isnan y = false -> nle x y = true \/ x = NaN.
Proof.
  unfold ngt. destruct x as [| |a|], y as [| |b|]; simpl; try done; auto.
  intros H _. left. unfold Qcltb, Qcleb in *.
  unfold Qccompare in *. rewrite <- Qcompare_antisym.
  destruct (this b ?= this a)%Q; simpl; congruence.
Qed.

Lemma ngt_PInf_true (y : num) : ngt PInf y = true -> isnan y = false.
Proof. by destruct y. Qed.

Section RepetitionFacts.
Context (E : Env) (m : ParticleModel).

Lemma selectPrior_Ok (P P1 : McSASParameters) (prior0 : pyarr)
    (flag flag' : bool) (nr : nat) (h : store) :
  selectPrior P prior0 flag nr h = Ok (flag', P1) ->
  convergenceCriterion P1 = convergenceCriterion P /\
  maxRetries P1 = maxRetries P.
Proof.
  unfold selectPrior. intros H.
  bind_inv H as lp Hlp. bind_inv H as fromPriors Hfrom.
  destruct (fromPriors || flag).
  - destruct (priors P) as [|[l|l k]]; try discriminate.
    destruct (h !! l) as [[rows|sl]|]; try discriminate.
    destruct (decide (length sl = 0%nat)); [discriminate|].
    by injection H as <- <-.
  - by injection H as <- <-.
Qed.

Lemma attempt_is_mcFit (n : nat) (P : McSASParameters) (dataset : list vec)
    (w w' : World E) (r : McFitResult) :
  attempt E m n P dataset w = Ok (r, w') ->
  exists w0, mcFit E m P dataset w0 = Ok (r, w').
Proof.
  destruct n as [|j]; simpl; intros H; [by exists w|].
  bind_inv H as [r0 w0] Hprev. by exists w0.
Qed.

(** A repetition loop that ends by the early return does so after calls
    of [mcFit] that all, the last perhaps excepted, missed the
    criterion. *)
Lemma repetitions_abandoned (todo : list nat) (P P' : McSASParameters)
    (prior0 : pyarr) (dataset : list vec) (L : Locals) (w w' : World E)
    (nr nt : nat) :
  repetitions E m todo P prior0 dataset L w = Ok (inr (nr, nt), P', w') ->
  nr ∈ todo /\
  exists Pnr w0 n r,
    convergenceCriterion Pnr = convergenceCriterion P /\
    nt = S n /\ nt = S (maxRetries P) /\
    failedAttempts E m Pnr dataset w0 n /\
    attempt E m n Pnr dataset w0 = Ok (r, w').
Proof.
  revert P L w. induction todo as [|nr0 rest IH]; intros P L w H.
  { discriminate. }
  cbn [repetitions] in H.
  apply bind_Ok in H as ([flag P1] & Hsel & H). cbv beta iota zeta in H.
  apply selectPrior_Ok in Hsel as [Hcrit Hmax].
  apply bind_Ok in H as (e & Hretry & H). apply retry_Ok in Hretry.
  destruct e as [L2 nt2 c2 w2|nt2 w2|L2 nt2 c2 w2].
  - bind_inv H as d Hd. apply IH in H as (Hin & Pnr & w0 & n & r & ? & ? & ? & ? & ?).
    split; [by right|]. exists Pnr, w0, n, r.
    split; [congruence|]. split; [done|]. split; [congruence|]. done.
  - injection H as <- <- <- <-. split; [by left|].
    destruct Hretry as (n & r & Hnt & Hlt & Hle & Hf & Ha & _).
    exists P1, w, n, r. split_and!; try done. lia.
  - exfalso. destruct Hretry as (Hnt & [?|?]); lia.
Qed.

(** A repetition loop that runs to its end has recorded, for each of
    its repetitions, the convergence value of a call of [mcFit] that is
    not above the criterion. *)
Lemma repetitions_stored (todo : list nat) (P P' : McSASParameters)
    (prior0 : pyarr) (dataset : list vec) (L L' : Locals) (w w' : World E) :
  repetitions E m todo P prior0 dataset L w = Ok (inl L', P', w') ->
  (details L = None \/ ngt PInf (convergenceCriterion P) = true) ->
  exists cs,
    convergences L' = convergences L ++ cs /\ length cs = length todo /\
    Forall (fun c =>
              ngt c (convergenceCriterion P) = false /\
              ngt PInf (convergenceCriterion P) = true /\
              exists Pnr w0 w1 fr,
                convergenceCriterion Pnr = convergenceCriterion P /\
                mcFit E m Pnr dataset w0 = Ok (fr, w1) /\
                c = fitConval fr) cs.
Proof.
  revert P L w. induction todo as [|nr0 rest IH]; intros P L w H Hinv.
  { injection H as <- <- <-. exists []. by rewrite app_nil_r. }
  cbn [repetitions] in H.
  apply bind_Ok in H as ([flag P1] & Hsel & H). cbv beta iota zeta in H.
  apply selectPrior_Ok in Hsel as [Hcrit Hmax].
  apply bind_Ok in H as (e & Hretry & H). apply retry_Ok in Hretry.
  destruct e as [L2 nt2 c2 w2|nt2 w2|L2 nt2 c2 w2]; try discriminate.
  bind_inv H as d Hd. apply from_option_Ok in Hd.
  destruct Hretry as (Hc2 & Hcs2 & Hcase). simpl in Hcs2.
  destruct Hcase as [(-> & -> & -> & ->)
                    |(n & r & -> & Hle & Hf & Ha & -> & _ & Hgt)].
  { exfalso. simpl in Hd. rewrite Hcrit in Hc2.
    destruct Hinv as [Hnone|Htrue]; congruence. }
  apply IH in H as (cs & Hcs & Hlen & Hall).
  - simpl in Hcs. exists (fitConval r :: cs). split_and!.
    + by rewrite Hcs, Hcs2, <- app_assoc.
    + simpl. by rewrite Hlen.
    + constructor.
      * rewrite <- Hcrit. split_and!; try done.
        apply attempt_is_mcFit in Ha as [w0 Hfit]. by exists P1, w0, w2, r.
      * eapply Forall_impl; [exact Hall|]. simpl.
        intros c (? & ? & Pnr & w0 & w1 & fr & ? & ? & ?).
        split_and!; try congruence. exists Pnr, w0, w1, fr.
        split_and!; congruence.
  - right. done.
Qed.
End RepetitionFacts.

(** ** The histogram *)

Lemma mapM_Ok {A B : Type} (f : A -> res B) (l : list A) (k : list B) :
  mapM f l = Ok k -> Forall2 (fun a b => f a = Ok b) l k.
Proof.
  revert k. induction l as [|a l IH]; intros k H; simpl in H.
  { injection H as <-. constructor. }
  apply bind_Ok in H as (b & Hb & H). apply bind_Ok in H as (k' & Hk & H).
  injection H as <-. constructor; [done|]. by apply IH.
Qed.

Lemma nle_refl (x : num) : isnan x = false -> nle x x = true.
Proof.
  destruct x as [| |a|]; simpl; try done. intros _. by apply Qcleb_le, Qcle_refl.
Qed.

Lemma nle_trans (x y z : num) :
  nle x y = true -> nle y z = true -> nle x z = true.
Proof.
  destruct x as [| |a|], y as [| |b|], z as [| |c|]; simpl; try done.
  rewrite !Qcleb_le. apply Qcle_trans.
Qed.

Lemma nlt_nle (x y : num) : nlt x y = true -> nle x y = true.
Proof.
  destruct x as [| |a|], y as [| |b|]; simpl; try done.
  rewrite Qcltb_lt, Qcleb_le. apply Qclt_le_weak.
Qed.

Lemma not_nlt_nle (x y : num) :
  nlt x y = false -> isnan x = false -> isnan y = false -> nle y x = true.
Proof.
  intros H Hx Hy. destruct (ngt_false_nle y x) as [Hle|Hnan]; [done..|]. by subst.
Qed.

Lemma nmax2_cases (x y : num) :
  isnan x = false -> isnan y = false ->
  (nmax2 x y = x \/ nmax2 x y = y) /\
  nle x (nmax2 x y) = true /\ nle y (nmax2 x y) = true.
Proof.
  intros Hx Hy. unfold nmax2. rewrite Hx, Hy.
  destruct (nlt x y) eqn:Hlt.
  - split_and!; [by right|by apply nlt_nle|by apply nle_refl].
  - split_and!; [by left|by apply nle_refl|by apply not_nlt_nle].
Qed.

(** Among numbers, the fold of [max] is a member and an upper bound. *)
Lemma foldl_nmax2_max (xs : vec) (x : num) :
  Forall (fun v => isnan v = false) (x :: xs) ->
  foldl nmax2 x xs ∈ x :: xs /\
  Forall (fun v => nle v (foldl nmax2 x xs) = true) (x :: xs).
Proof.
  revert x. induction xs as [|y ys IH]; intros x Hall; simpl.
  { apply Forall_cons in Hall as [Hx _]. split; [by left|].
    constructor; [by apply nle_refl|constructor]. }
  apply Forall_cons in Hall as [Hx Hall].
  apply Forall_cons in Hall as [Hy Hall].
  destruct (nmax2_cases x y Hx Hy) as (Hor & Hlx & Hly).
  assert (isnan (nmax2 x y) = false) as Hm by (destruct Hor as [Heq|Heq]; by rewrite Heq).
  destruct (IH (nmax2 x y)) as [Hin Hub]; [by constructor|].
  apply Forall_cons in Hub as [Hmm Hub]. split.
  - apply elem_of_cons in Hin as [->|Hin].
    + destruct Hor as [Heq|Heq]; rewrite Heq; [by left|right; by left].
    + right. by right.
  - constructor; [by eapply nle_trans|].
    constructor; [by eapply nle_trans|done].
Qed.

Lemma npmax_max (a : vec) (M : num) :
  npmax a = Ok M -> Forall (fun v => isnan v = false) a ->
  M ∈ a /\ Forall (fun v => nle v M = true) a.
Proof.
  destruct a as [|x xs]; [discriminate|]. intros [= <-]. apply foldl_nmax2_max.
Qed.

Lemma masked_none {A : Type} (mask : list bool) (a : list A) :
  existsb id mask = false -> masked mask a = [].
Proof.
  revert a. induction mask as [|b mask IH]; intros a H; [done|].
  simpl in H. apply orb_false_iff in H as [-> H].
  destruct a; [done|]. simpl. by apply IH.
Qed.

Lemma masked_some {A : Type} (mask : list bool) (a : list A) :
  existsb id mask = true -> length a = length mask -> masked mask a <> [].
Proof.
  revert a. induction mask as [|b mask IH]; intros a H Hlen; [done|].
  destruct a as [|x a]; [done|]. simpl in *.
  destruct b; [done|]. apply IH; [done|lia].
Qed.

Lemma elem_of_masked_fmap {A : Type} (f : A -> bool) (l : list A) (x : A) :
  x ∈ masked (f <$> l) l <-> x ∈ l /\ f x = true.
Proof.
  induction l as [|y l IH]; csimpl.
  { split; [by intros ?%elem_of_nil|by intros [?%elem_of_nil _]]. }
  destruct (f y) eqn:Hy; rewrite ?elem_of_cons, IH.
  - split; [intros [->|[? ?]]; auto|intros [[->|?] ?]; auto].
  - split; [intros [? ?]; auto|intros [[->|?] ?]; [congruence|auto]].
Qed.

Section HistogramFacts.
Context (E : Env).

(** What one repetition leaves in one bin: the minimum required is the
    average over the members of the bin, zero when there is none; the
    sums of the fractions are set to zero when the sum of the volume
    fractions is not a number. *)
Lemma binOfRepetition_Ok (edges values vf nf mrv mrn : vec) (bini : nat)
    (br : BinOfRepetition) :
  binOfRepetition edges values vf nf mrv mrn bini = Ok br ->
  length mrv = length values ->
  minReqVolBin br = binAverage (binMembers edges values bini mrv) /\
  volHistRepY br =
    (let total := npsum (binMembers edges values bini vf) in
     if isnan total then n0 else total).
Proof.
  unfold binOfRepetition, binMask, binMembers. intros H Hlen.
  bind_inv H as mask Hmask. bind_inv Hmask as lo Hlo. bind_inv Hmask as hi Hhi.
  apply item_Ok in Hlo, Hhi. rewrite Hlo, Hhi. injection Hmask as <-.
  set (mask := (fun r => nge r lo && nlt r hi) <$> values) in *.
  assert (minReqVolBin br = binAverage (masked mask mrv) /\
          volHistRepY br = if isnan (npsum (masked mask vf)) then n0
                           else npsum (masked mask vf)) as [-> ->]; [|done].
  destruct (existsb id mask) eqn:Hany; simpl in H.
  - assert (binAverage (masked mask mrv) = npmean (masked mask mrv)) as ->.
    { pose proof (masked_some mask mrv Hany) as Hne.
      destruct (masked mask mrv); [|done].
      exfalso. apply Hne; [|done]. unfold mask. by rewrite length_fmap. }
    by destruct (isnan (npsum (masked mask vf))); injection H as <-.
  - rewrite (masked_none mask mrv Hany).
    by destruct (isnan (npsum (masked mask vf))); injection H as <-.
Qed.
Lemma repetitions_of_bin (edges : vec) (bini : nat)
    (reps : list RepetitionFractions) (perRep : list BinOfRepetition) :
  Forall2 (fun r br =>
             binOfRepetition edges (repValues r) (repVolumeFraction r)
               (repNumberFraction r) (repMinReqVol r) (repMinReqNum r) bini
             = Ok br) reps perRep ->
  Forall (fun r => length (repMinReqVol r) = length (repValues r)) reps ->
  minReqVolBin <$> perRep = repetitionAverage edges bini <$> reps /\
  volHistRepY <$> perRep = clampedTotal edges bini <$> reps.
Proof.
  induction 1 as [|r br reps perRep Hbin _ IH]; intros Hlen; [done|].
  apply Forall_cons in Hlen as [Hr Hlen].
  destruct (IH Hlen) as [IHv IHy].
  apply binOfRepetition_Ok in Hbin as [Hv Hy]; [|done].
  csimpl. rewrite IHv, IHy, Hv, Hy. done.
Qed.

(** The reported minimum of a bin is, of the values of the repetitions
    that are below infinity, one that none of them exceeds. *)
Lemma histMinReq_Ok (vb nb : vec) (volMin numMin : num) :
  histMinReq vb nb = Ok (volMin, numMin) ->
  volMin ∈ vb /\ nlt volMin PInf = true /\
  forall v, v ∈ vb -> nlt v PInf = true -> nle v volMin = true.
Proof.
  unfold histMinReq. intros H.
  bind_inv H as vm Hvm. bind_inv H as nm Hnm. injection H as <- <-.
  apply npmax_max in Hvm as [Hin Hub].
  - apply elem_of_masked_fmap in Hin as [Hin Hlt]. split_and!; [done..|].
    intros v Hv Hvlt. rewrite Forall_forall in Hub. apply Hub.
    by apply elem_of_masked_fmap.
  - apply Forall_forall. intros v [_ Hlt]%elem_of_masked_fmap.
    by destruct v.
Qed.
End HistogramFacts.

(** ** Setting up *)

Lemma fmap_lookup_seq (l : vec) :
  (fun j => default n0 (l !! j)) <$> seq 0 (length l) = l.
Proof.
  apply list_eq. intros j. rewrite list_lookup_fmap.
  destruct (decide (j < length l)%nat) as [Hlt|Hge].
  - rewrite lookup_seq_lt by done. simpl.
    destruct (lookup_lt_is_Some_2 l j Hlt) as [x Hx]. by rewrite Hx.
  - rewrite lookup_seq_ge by lia. simpl. symmetry. apply lookup_ge_None. lia.
Qed.

Lemma column_masked_fmap {A : Type} (g : A -> vec) (h : A -> num)
    (mask : list bool) (js : list A) (k : nat) :
  (forall j, g j !! k = Some (h j)) ->
  column (masked mask (g <$> js)) k = Ok (masked mask (h <$> js)).
Proof.
  intros Hk. revert js. induction mask as [|b mask IH]; intros [|j js]; try done.
  - by destruct b.
  - destruct b; csimpl; [|apply IH].
    unfold item. rewrite Hk. simpl. by rewrite IH.
Qed.

Lemma column_fmap {A : Type} (g : A -> vec) (h : A -> num) (js : list A)
    (k : nat) :
  (forall j, g j !! k = Some (h j)) -> column (g <$> js) k = Ok (h <$> js).
Proof.
  intros Hk. induction js as [|j js IH]; [done|]. csimpl.
  unfold item. rewrite Hk. simpl. by rewrite IH.
Qed.

Lemma column_stacked (q i e : vec) :
  length i = length q -> length e = length q ->
  column (stacked q i e) 0 = Ok q /\ column (stacked q i e) 2 = Ok e.
Proof.
  intros Hi He. unfold stacked. split.
  - rewrite (column_fmap _ (fun j => default n0 (q !! j))) by done.
    by rewrite fmap_lookup_seq.
  - rewrite (column_fmap _ (fun j => default n0 (e !! j))) by done.
    by rewrite <- He, fmap_lookup_seq.
Qed.

Section SetupFacts.
Context (E : Env).
Context (DataSet_setOrigin : option (list vec) -> res (option (list vec))).

Lemma setOrigin_Ok (data : list vec) (q : vec) :
  DataSet_setOrigin (Some data) = Ok (Some data) ->
  column data 0 = Ok q -> (2 <= length q)%nat ->
  exists b, setOrigin E DataSet_setOrigin (Some data)
            = Ok {| origin := Some data; prepared := None;
                    sizeBounds := Some b |}.
Proof.
  intros Hbase Hq Hlen. unfold setOrigin. rewrite Hbase. simpl.
  rewrite Hq. simpl.
  destruct q as [|q0 [|q1 q']]; simpl in Hlen; try lia.
  simpl. eexists. reflexivity.
Qed.

Lemma setData_Ok (kw : Kwargs) (q i e : vec) :
  DataSet_setOrigin (Some (stacked q i e)) = Ok (Some (stacked q i e)) ->
  kwQ kw = Some q -> kwI kw = Some i -> kwIError kw = Some e ->
  kwPsi kw = None -> kwDataset kw = None ->
  length i = length q -> length e = length q -> (2 <= length q)%nat ->
  exists b,
    setData E DataSet_setOrigin kw
    = Ok ({| origin := Some (stacked q i e); prepared := None;
             sizeBounds := Some b |}, [b.1; b.2]).
Proof.
  intros Hbase HQ HI HE HP HD Hi He Hlen. unfold setData.
  rewrite HQ, HI, HE, HP, HD. simpl.
  rewrite !bool_decide_eq_true_2 by done. simpl.
  destruct (column_stacked q i e Hi He) as [Hq _].
  destruct (setOrigin_Ok (stacked q i e) q Hbase Hq Hlen) as [b Hb].
  unfold newSASData. unfold stacked in Hb. rewrite Hb. simpl.
  by exists b.
Qed.

Lemma fixLength_one {A : Type} (v : oneOrList A) :
  v <> Many [] -> exists l, fixLength 1 v = Ok (Many l).
Proof.
  intros Hne. destruct v as [x|l]; simpl; [by eexists|].
  destruct (decide (1 < length l)%nat); [by eexists|].
  destruct (decide (length l < 1)%nat); [|by eexists].
  destruct l; [done|simpl in *; lia].
Qed.

Lemma checkParameters_Ok (P : McSASParameters) :
  histogramBins P <> Many [] -> histogramXScale P <> Many [] ->
  exists P' model, checkParameters E P = Ok (P', model).
Proof.
  intros Hb Hs. unfold checkParameters.
  destruct (fixLength_one _ Hb) as [bins ->].
  destruct (fixLength_one _ Hs) as [scales ->]. simpl. by do 2 eexists.
Qed.

Lemma clipDataset_Ok (P : McSASParameters) (q i e : vec) (b : num * num) :
  maskZeroInt P = false -> maskNegativeInt P = false -> qBounds P = None ->
  length i = length q -> length e = length q -> (2 <= length q)%nat ->
  clipDataset P {| origin := Some (stacked q i e); prepared := None;
                   sizeBounds := Some b |}
  = Ok {| origin := Some (stacked q i e);
          prepared := Some (masked (isfinite <$> q) (stacked q i e));
          sizeBounds := Some b |}.
Proof.
  intros Hz Hn Hq Hi He Hlen. unfold clipDataset. simpl.
  destruct (column_stacked q i e Hi He) as [-> _]. simpl.
  rewrite Hz, Hn, Hq. simpl.
  assert (forallb (fun r => bool_decide (3 < length r)%nat) (stacked q i e)
          = false) as ->.
  { unfold stacked. destruct q; simpl in Hlen; [lia|]. done. }
  rewrite andb_false_r. simpl. done.
Qed.
End SetupFacts.

(** * Properties of the specification *)

(** ** The running totals of the loop *)


(** C6.  Given the same inputs and the same random draws, the low-memory
    mode and the cached mode go through the same states, the cache and the
    shape of [it] apart: the same contribution set, totals, scaling,
    convergence value and counters of accepted and rejected moves after
    every pass, or the same exception; and [mcFit] returns the same
    contribution set, intensity values and convergence value. *)
Theorem low_memory_mode_same_decisions (E : Env) (m : ParticleModel)
    (P : McSASParameters) (dataset : list vec) (w : World E) :
  (0 < numContribs P)%nat ->
  (forall k,
     eraseCacheW E <$> mcFitUpTo E m k (setLowMemoryFootprint P true) dataset w
     = eraseCacheW E <$> mcFitUpTo E m k (setLowMemoryFootprint P false) dataset w) /\
  eraseShapeW E <$> mcFit E m (setLowMemoryFootprint P true) dataset w
  = eraseShapeW E <$> mcFit E m (setLowMemoryFootprint P false) dataset w.
Proof.
  intros HN.
  assert (forall k,
     eraseCacheW E <$> mcFitUpTo E m k (setLowMemoryFootprint P true) dataset w
     = eraseCacheW E <$> mcFitUpTo E m k (setLowMemoryFootprint P false) dataset w)
    as Hloop.
  { intros k. unfold mcFitUpTo.
    pose proof (mcInit_modes E m P dataset w HN) as Hinit.
    apply eraseCacheW_Ok_inv in Hinit.
    destruct (mcInit E m (setLowMemoryFootprint P true) dataset w)
      as [[sl wl]|el] eqn:Hl,
      (mcInit E m (setLowMemoryFootprint P false) dataset w)
      as [[sc0 wc]|ec] eqn:Hc; try done; [|by subst].
    destruct Hinit as [Heq ->]. simpl.
    destruct (column dataset 1) as [intObs|] eqn:Hobs; [simpl|done].
    destruct (column dataset 2) as [error|] eqn:Herr; [simpl|done].
    apply mcInit_Ok in Hl as (_ & rowsl & _ & _ & Hcl & _).
    apply mcInit_Ok in Hc as (_ & rowsc & _ & _ & Hcc & Hit & Hi & _).
    assert (rowsl = rowsc) as ->.
    { eapply coherent_rows; [|exact Hcl|exact Hcc].
      by apply eraseCache_fields in Heq as (-> & _). }
    eapply mcIterate_modes; eauto using column_length. }
  split; [exact Hloop|].
  unfold mcFit. specialize (Hloop (maxIterations P)).
  change (maxIterations (setLowMemoryFootprint P true)) with (maxIterations P).
  change (maxIterations (setLowMemoryFootprint P false)) with (maxIterations P).
  apply eraseCacheW_Ok_inv in Hloop.
  destruct (mcFitUpTo E m (maxIterations P) (setLowMemoryFootprint P true) dataset w)
    as [[sl wl]|el],
    (mcFitUpTo E m (maxIterations P) (setLowMemoryFootprint P false) dataset w)
    as [[sc0 wc]|ec]; try done; [|by subst].
  destruct Hloop as [Heq ->]. simpl.
  destruct (column dataset 1) as [intObs|]; [simpl|done].
  destruct (column dataset 2) as [error|]; [simpl|done].
  pose proof (mcFinish_erase E intObs error sl sc0 Heq) as Hfin.
  destruct (mcFinish E intObs error sl) as [rl|el],
           (mcFinish E intObs error sc0) as [rc|ec]; simpl in *; try done;
    unfold eraseShapeW; simpl; congruence.
Qed.

(** Names the state a closed run of the loop ends in. *)
Ltac run_to_state :=
  match goal with
  | |- exists st w', ?run = Ok (st, w') /\ _ =>
      let r := eval vm_compute in run in
      match r with
      | Ok (?s, ?w) => exists s, w; split; [reflexivity|]
      end
  end.


(** Both modes on the example settings. *)
Lemma low_memory_mode_witness :
  (0 < numContribs Example.settingsWithPrior)%nat /\
  (forall k,
     eraseCacheW Example.env <$>
       mcFitUpTo Example.env Example.model k
         (setLowMemoryFootprint Example.settingsWithPrior true)
         Example.dataset Example.priorOfThree
     = eraseCacheW Example.env <$>
       mcFitUpTo Example.env Example.model k
         (setLowMemoryFootprint Example.settingsWithPrior false)
         Example.dataset Example.priorOfThree) /\
  eraseShapeW Example.env <$>
    mcFit Example.env Example.model
      (setLowMemoryFootprint Example.settingsWithPrior true)
      Example.dataset Example.priorOfThree
  = eraseShapeW Example.env <$>
    mcFit Example.env Example.model
      (setLowMemoryFootprint Example.settingsWithPrior false)
      Example.dataset Example.priorOfThree.
Proof.
  split; [simpl; lia|].
  apply (low_memory_mode_same_decisions Example.env Example.model
           Example.settingsWithPrior Example.dataset Example.priorOfThree).
  simpl. lia.
Defined.

(** ** Seeding *)

(** C1.  Seeding from a prior of three rows, and from one of a single row,
    when two contributions are asked for: the branch taken for every
    non-empty prior binds [rset] to the prior and resets [numContribs], so
    the set has three rows (one row), the world is untouched and no random
    number is drawn; the loop starts on that many contributions. *)
Theorem seeding_from_prior_keeps_its_row_count :
  let q := [Z2num 1; Z2num 2; Z2num 3] in
  seed Example.env Example.model Example.settingsOfTwo q Example.priorOfThreeRows
    = Ok (Whole 0, 3%nat, Example.priorOfThreeRows) /\
  seed Example.env Example.model Example.settingsOfTwo q Example.priorOfOneRow
    = Ok (Whole 0, 1%nat, Example.priorOfOneRow) /\
  (length ∘ vset ∘ fst) <$>
    mcFitUpTo Example.env Example.model 0 Example.settingsOfTwo Example.dataset
      Example.priorOfThreeRows = Ok 3%nat /\
  numContribs Example.settingsOfTwo = 2%nat.
Proof. split_and!; reflexivity. Qed.

(** C7.  With [startFromMinimum] and no prior, every parameter starts at
    half of its lower bound: 1/2 for the range (1, 3), and for the range
    (0, 3) half of [pi / q.max()], here (355/113) / 3 / 2. *)
Theorem start_from_minimum_is_half_the_bound :
  let q := [Z2num 1; Z2num 2; Z2num 3] in
  (exists w',
     seed Example.env Example.model Example.settingsFromMinimum q
       (Example.world [] []) = Ok (Whole 0, 1%nat, w') /\
     toQs <$> deref (heap w') (Whole 0) = Some [[Some (1 # 2)%Q]]) /\
  (exists w',
     seed Example.env Example.modelFromZero Example.settingsFromMinimum q
       (Example.world [] []) = Ok (Whole 0, 1%nat, w') /\
     toQs <$> deref (heap w') (Whole 0) = Some [[Some (355 # 678)%Q]]).
Proof.
  split_and!.
  - eexists. split; reflexivity.
  - eexists. split; reflexivity.
Qed.

(** ** The total of the squared volumes *)

(** C3.  The candidate for the total of the squared volumes is
    [(sqrt(vst) - vset[ri])**2 + vtt**2].  With volumes 3 and 4 the total is
    25; replacing the volume 3 by a trial of volume 1 commits
    (5 - 3)**2 + 1 = 5, whereas 25 - 9 + 1 = 17 is the sum of the squares of
    the volumes 1 and 4 of the new set. *)
Theorem volume_total_is_not_the_sum_of_squares :
  exists st w',
    mcFitUpTo Example.env Example.model 1 Example.settingsOfTwo Example.dataset
      Example.priorThreeFour = Ok (st, w') /\
    numMoves st = 1%nat /\
    toQ <$> vset st = [Some 1%Q; Some 4%Q] /\
    toQ (vst st) = Some 5%Q /\
    toQ (npsum (vsqr (vset st))) = Some 17%Q /\
    (exists rows, deref (heap w') (rset st) = Some rows /\
                  toQ (totalVolumeSquared Example.model rows) = Some 17%Q).
Proof.
  run_to_state. split_and!; try reflexivity.
  eexists. split; reflexivity.
Qed.

(** ** Retries and the reported convergence *)

(** Names the end of a closed run of [analyse]. *)
Ltac run_analyse :=
  match goal with
  | |- exists P' w', ?run = Ok (?e, P', w') /\ _ =>
      let v := eval vm_compute in run in
      match v with
      | Ok (_, ?p, ?w0) => exists p, w0; split; [reflexivity|]
      end
  | |- exists r P' w', ?run = Ok (Stored r, P', w') /\ _ =>
      let v := eval vm_compute in run in
      match v with
      | Ok (Stored ?r0, ?p, ?w0) => exists r0, p, w0; split; [reflexivity|]
      end
  end.







(** ** The prior *)




(** ** The minimum required in a bin *)

(** C9.  For every bin of a histogram over at least two repetitions, the
    reported minimum required volume fraction is the largest of the
    per-repetition averages that are below infinity: it is the average of
    one repetition, it is below infinity, and no repetition has an average
    below infinity that exceeds it.  The average of a repetition is taken
    over the contributions of the bin and is zero when there is none.
    What is set to zero when it is not a number is the sum of the volume
    fractions of the bin. *)
Theorem reported_minimum_is_largest_average_below_infinity (E : Env)
    (edges : vec) (reps : list RepetitionFractions) (bini : nat)
    (b : HistogramBin) :
  histogramBin E edges reps bini = Ok b ->
  Forall (fun r => length (repMinReqVol r) = length (repValues r)) reps ->
  (2 <= length reps)%nat /\
  (exists r, r ∈ reps /\
             volumeHistogramMinimumRequired b = repetitionAverage edges bini r) /\
  nlt (volumeHistogramMinimumRequired b) PInf = true /\
  (forall r, r ∈ reps ->
     nlt (repetitionAverage edges bini r) PInf = true ->
     nle (repetitionAverage edges bini r) (volumeHistogramMinimumRequired b)
     = true) /\
  volumeHistogramRepetitionsY b = clampedTotal edges bini <$> reps.
Proof.
  unfold histogramBin. intros H Hlen.
  destruct (decide (length reps <= 1)%nat) as [|Htwo]; [discriminate|].
  apply bind_Ok in H as (perRep & Hper & H). apply mapM_Ok in Hper.
  apply bind_Ok in H as (lo & Hlo & H).
  apply bind_Ok in H as ([volMin numMin] & Hmin & H).
  injection H as <-. simpl.
  destruct (repetitions_of_bin edges bini reps perRep Hper Hlen) as [Hv Hy].
  rewrite Hv in Hmin. apply histMinReq_Ok in Hmin as (Hin & Hlt & Hub).
  split_and!; [lia| |done| |done].
  - apply list_elem_of_fmap in Hin as (r & -> & Hr). by exists r.
  - intros r Hr Hrlt. apply Hub; [|done]. apply list_elem_of_fmap. by exists r.
Qed.

(** The first bin of the example, over the first two repetitions. *)
Lemma reported_minimum_witness :
  exists b,
    histogramBin Example.env Example.edgesOfTwoBins
      [Example.repetitionA; Example.repetitionB] 0 = Ok b /\
    (2 <= length [Example.repetitionA; Example.repetitionB])%nat /\
    (exists r, r ∈ [Example.repetitionA; Example.repetitionB] /\
       volumeHistogramMinimumRequired b
       = repetitionAverage Example.edgesOfTwoBins 0 r) /\
    nlt (volumeHistogramMinimumRequired b) PInf = true /\
    (forall r, r ∈ [Example.repetitionA; Example.repetitionB] ->
       nlt (repetitionAverage Example.edgesOfTwoBins 0 r) PInf = true ->
       nle (repetitionAverage Example.edgesOfTwoBins 0 r)
           (volumeHistogramMinimumRequired b) = true) /\
    volumeHistogramRepetitionsY b
    = clampedTotal Example.edgesOfTwoBins 0
        <$> [Example.repetitionA; Example.repetitionB].
Proof.
  match goal with
  | |- exists b, ?run = _ /\ _ =>
      let v := eval vm_compute in run in
      match v with
      | Ok ?b0 =>
          exists b0; split; [reflexivity|];
          apply (reported_minimum_is_largest_average_below_infinity
                   Example.env Example.edgesOfTwoBins
                   [Example.repetitionA; Example.repetitionB] 0%nat b0)
      end
  end.
  - reflexivity.
  - repeat constructor.
Defined.

(** In the first bin the averages of the three repetitions are infinity,
    1 and not a number: the last is not set to zero.  Over the first two
    the largest average is infinity and the reported minimum is 1; over a
    single repetition nothing is reported. *)
Lemma largest_average_is_not_reported :
  (minReqVolBin <$>
     binOfRepetition Example.edgesOfTwoBins [Z2num 1]
       [n1] [n1] [NaN] [n0] 0) = Ok NaN /\
  fmap (repetitionAverage Example.edgesOfTwoBins 0)
    [Example.repetitionA; Example.repetitionB; Example.repetitionC]
    = [PInf; Z2num 1; NaN] /\
  npmax [PInf; Z2num 1] = Ok PInf /\
  (volumeHistogramMinimumRequired <$>
     histogramBin Example.env Example.edgesOfTwoBins
       [Example.repetitionA; Example.repetitionB] 0) = Ok (Z2num 1) /\
  histogramBin Example.env Example.edgesOfTwoBins [Example.repetitionB] 0
    = Raise IndexError.
Proof. split_and!; reflexivity. Qed.

(** ** The uncertainties at set-up *)




(** * Further properties of the code *)

(** ** Order on numbers *)

Lemma Qc_sqr_nonneg (a : Qc) : (0 <= a * a)%Qc.
Proof.
  destruct (Qclt_le_dec a 0) as [Hneg|Hpos].
  - replace (a * a)%Qc with ((- a) * (- a))%Qc by ring.
    assert (0 <= - a)%Qc as Hna.
    { apply Qclt_le_weak, Qcopp_le_compat in Hneg.
      by replace (- 0)%Qc with 0%Qc in Hneg by ring. }
    replace 0%Qc with (0 * - a)%Qc by ring. by apply Qcmult_le_compat_r.
  - replace 0%Qc with (0 * a)%Qc by ring. by apply Qcmult_le_compat_r.
Qed.

Lemma Qc_div_nonneg (a b : Qc) : (0 <= a)%Qc -> (0 < b)%Qc -> (0 <= a / b)%Qc.
Proof.
  intros Ha Hb. apply (Qcmult_lt_0_le_reg_r _ _ b Hb).
  rewrite Qcmult_0_l. unfold Qcdiv. rewrite <- Qcmult_assoc.
  rewrite Qcmult_inv_l, Qcmult_1_r; [done|].
  intros ->. by apply Qclt_not_eq in Hb.
Qed.

Lemma nonneg_not_below_zero (x : num) : nonneg x -> nlt x n0 = false.
Proof.
  intros [->|[->|(q & -> & Hq)]]; try done. simpl.
  destruct (Qcltb q (Q2Qc 0)) eqn:Hlt; [|done].
  apply Qcltb_lt in Hlt. by apply Qcle_not_lt in Hq.
Qed.

Lemma nsqr_nonneg (x : num) : nonneg (nsqr x).
Proof.
  destruct x as [| |a|]; unfold nonneg; simpl; auto.
  right. right. exists (a * a)%Qc. split; [done|]. apply Qc_sqr_nonneg.
Qed.

Lemma nadd_nonneg (x y : num) : nonneg x -> nonneg y -> nonneg (nadd x y).
Proof.
  intros [->|[->|(a & -> & Ha)]] [->|[->|(b & -> & Hb)]]; unfold nonneg;
    simpl; auto.
  right. right. exists (a + b)%Qc. split; [done|].
  replace 0%Qc with (0 + 0)%Qc by ring. by apply Qcplus_le_compat.
Qed.

Lemma foldl_nadd_nonneg (xs : vec) (a : num) :
  nonneg a -> Forall nonneg xs -> nonneg (foldl nadd a xs).
Proof.
  intros Ha Hxs. revert a Ha.
  induction Hxs as [|x xs Hx _ IH]; intros a Ha; simpl; [done|].
  apply IH. by apply nadd_nonneg.
Qed.

Lemma nat2num_cases (n : nat) :
  exists b, nat2num n = Fin b /\ (b = 0%Qc \/ (0 < b)%Qc).
Proof.
  pose proof (nat2num_sign n) as Hs.
  destruct (nat2num n) as [| |b|] eqn:Hn; try done.
  exists b. split; [done|].
  destruct (b ?= 0)%Qc eqn:Hc; try done.
  - left. by apply Qceq_alt.
  - right. by apply Qcgt_alt.
Qed.

Lemma ndiv_nat_nonneg (s : num) (n : nat) :
  nonneg s -> nonneg (ndiv s (nat2num n)).
Proof.
  intros Hs. destruct (nat2num_cases n) as (b & -> & Hb).
  destruct Hs as [->|[->|(q & -> & Hq)]]; unfold nonneg; simpl; auto.
  - destruct Hb as [->|Hb]; simpl; auto.
    destruct (Qceqb b 0); simpl; auto.
    apply Qcgt_alt in Hb. rewrite Hb. simpl. auto.
  - destruct (Qceqb b 0) eqn:Hz.
    + apply Qcle_alt in Hq.
      assert ((q ?= 0)%Qc <> Lt) as Hnl.
      { intros Hlt. apply Qclt_alt in Hlt. by apply Qclt_not_le in Hlt. }
      destruct (q ?= 0)%Qc; simpl; auto. done.
    + right. right. exists (q / b)%Qc. split; [done|].
      destruct Hb as [->|Hb]; [done|]. by apply Qc_div_nonneg.
Qed.

Lemma csqr_v1_nonneg (intObs intCalc error : vec) :
  nonneg (csqr_v1 intObs intCalc error).
Proof.
  unfold csqr_v1. apply ndiv_nat_nonneg. unfold npsum.
  apply foldl_nadd_nonneg.
  - right. right. by exists 0%Qc.
  - unfold vsqr. apply Forall_fmap, Forall_forall. intros x _. apply nsqr_nonneg.
Qed.

Lemma nlt_trans (x y z : num) :
  nlt x y = true -> nlt y z = true -> nlt x z = true.
Proof.
  destruct x as [| |a|], y as [| |b|], z as [| |c|]; simpl; try done.
  rewrite !Qcltb_lt. apply Qclt_trans.
Qed.

(** ** The loop of [mcFit] *)

Section LoopProperties.
Context (E : Env) (m : ParticleModel).

(** One pass either rejects the trial, which leaves everything but the
    counters as it was, or takes it, which lowers the convergence value. *)
Lemma mcStep_cases (P : McSASParameters) (dataset : list vec)
    (intObs error : vec) (st st' : FitState) (w w' : World E) :
  mcStep E m P dataset intObs error st w = Ok (st', w') ->
  numIter st' = S (numIter st) /\
  numContribsLocal st' = numContribsLocal st /\
  ri st' = (S (ri st) mod numContribsLocal st)%nat /\
  rset st' = rset st /\
  ((numMoves st' = numMoves st /\
    numNotAccepted st' = S (numNotAccepted st) /\
    conval st' = conval st /\ sc st' = sc st /\ it st' = it st /\
    itColumn st' = itColumn st /\ vst st' = vst st /\ vset st' = vset st /\
    iset st' = iset st /\ heap w' = heap w) \/
   (numMoves st' = S (numMoves st) /\ numNotAccepted st' = 0%nat /\
    nlt (conval st') (conval st) = true /\ itColumn st' = false)).
Proof.
  unfold mcStep. intros H.
  bind_inv H as [[[rtRow itt] vtt] w1] Htrial.
  apply trial_Ok in Htrial as (_ & _ & _ & Hheap).
  bind_inv H as itest Hcand. bind_inv H as vri Hvri.
  bind_inv H as [sct convalt] Hopt. bind_inv H as [st1 w2] Hacc.
  bind_inv H as st2 Hadv. injection H as <- <-.
  unfold advance in Hadv.
  destruct (decide (numContribsLocal st1 = 0%nat)); [discriminate|].
  injection Hadv as <-. simpl.
  destruct (nlt convalt (conval st)) eqn:Hlt.
  - unfold accept in Hacc. bind_inv Hacc as h1 Hset.
    injection Hacc as <- <-. simpl. split_and!; try done. right. done.
  - injection Hacc as <- <-. simpl. split_and!; try done. left. done.
Qed.

(** What any number of passes keeps. *)
Lemma mcIterate_counters (fuel : nat) (P : McSASParameters)
    (dataset : list vec) (intObs error : vec) (st st' : FitState)
    (w w' : World E) :
  mcIterate E m fuel P dataset intObs error st w = Ok (st', w') ->
  (numIter st <= numIter st' <= numIter st + fuel)%nat /\
  (numIter st' < numIter st + fuel -> keepIterating P st' = false)%nat /\
  (numMoves st <= numMoves st')%nat /\
  (numMoves st' + numIter st <= numMoves st + numIter st')%nat /\
  numContribsLocal st' = numContribsLocal st /\
  (ri st = numIter st mod numContribsLocal st ->
   ri st' = numIter st' mod numContribsLocal st)%nat /\
  (numIter st <= maxIterations P -> numIter st' <= maxIterations P)%nat /\
  (itColumn st = lowMemoryFootprint P && Nat.eqb (numMoves st) 0 ->
   itColumn st' = lowMemoryFootprint P && Nat.eqb (numMoves st') 0).
Proof.
  revert st w. induction fuel as [|k IH]; intros st w H; simpl in H.
  { injection H as <- <-. split_and!; auto; lia. }
  destruct (keepIterating P st) eqn:Hkeep.
  - bind_inv H as [st1 w1] Hstep.
    apply mcStep_cases in Hstep as (Hi & HN & Hri & _ & Hcase).
    apply IH in H as (Hi' & Hexit & Hm1 & Hm' & HN' & Hri' & Hmax & Hcol).
    rewrite HN in *. rewrite Hi in *.
    unfold keepIterating in Hkeep. apply andb_true_iff in Hkeep as [_ Hlt].
    apply bool_decide_eq_true in Hlt.
    assert (numMoves st <= numMoves st1 <= S (numMoves st))%nat as Hm.
    { destruct Hcase as [(Hmv & _)|(Hmv & _)]; lia. }
    split; [lia|]. split; [intros Hlt'; apply Hexit; lia|].
    split; [lia|]. split; [lia|]. split; [done|].
    split; [|split].
    + intros Hr. apply Hri'. rewrite Hri, Hr.
      destruct (decide (numContribsLocal st = 0%nat)) as [->|Hnz]; [done|].
      replace (S (numIter st mod numContribsLocal st))
        with (numIter st mod numContribsLocal st + 1)%nat by lia.
      replace (S (numIter st)) with (numIter st + 1)%nat by lia.
      by rewrite Nat.Div0.add_mod_idemp_l.
    + intros Hle. apply Hmax. lia.
    + intros Hc. apply Hcol.
      destruct Hcase as [(Hmv & _ & _ & _ & _ & Hic & _)|(Hmv & _ & _ & Hic)].
      * by rewrite Hic, Hmv.
      * rewrite Hic, Hmv. simpl. by rewrite andb_false_r.
  - injection H as <- <-. split_and!; auto; lia.
Qed.

(** The convergence value along the loop. *)
Lemma mcIterate_conval (fuel : nat) (P : McSASParameters)
    (dataset : list vec) (intObs error : vec) (st st' : FitState)
    (w w' : World E) :
  mcIterate E m fuel P dataset intObs error st w = Ok (st', w') ->
  (numMoves st' = numMoves st /\ conval st' = conval st /\ sc st' = sc st /\
   it st' = it st /\ vst st' = vst st /\ vset st' = vset st /\
   iset st' = iset st /\ heap w' = heap w) \/
  ((numMoves st < numMoves st')%nat /\ nlt (conval st') (conval st) = true).
Proof.
  revert st w. induction fuel as [|k IH]; intros st w H; simpl in H.
  { injection H as <- <-. by left. }
  destruct (keepIterating P st); [|injection H as <- <-; by left].
  bind_inv H as [st1 w1] Hstep.
  apply mcStep_cases in Hstep as (_ & _ & _ & _ & Hcase).
  apply IH in H as [Hsame|[Hmv Hlt]].
  - destruct Hsame as (-> & -> & -> & -> & -> & -> & -> & ->).
    destruct Hcase as [(? & _ & ? & ? & ? & _ & ? & ? & ? & ?)|(Hmv & _ & Hlt & _)].
    + left. done.
    + right. split; [lia|done].
  - right. destruct Hcase as [(Hm1 & _ & Hc1 & _)|(Hm1 & _ & Hlt1 & _)].
    + rewrite <- Hm1, <- Hc1. done.
    + split; [lia|]. by eapply nlt_trans.
Qed.

Lemma mcInit_counters (P : McSASParameters) (dataset : list vec)
    (w w1 : World E) (st : FitState) :
  mcInit E m P dataset w = Ok (st, w1) ->
  numMoves st = 0%nat /\ numNotAccepted st = 0%nat /\ numIter st = 0%nat /\
  ri st = 0%nat /\ itColumn st = lowMemoryFootprint P.
Proof.
  unfold mcInit. intros H.
  bind_inv H as q Hq. bind_inv H as [[rs N] w0] Hseed.
  bind_inv H as rows Hrows. bind_inv H as vs Hvs.
  bind_inv H as [[cache total] isCol] Hmode.
  bind_inv H as intensity Hint. bind_inv H as error Herr.
  bind_inv H as imax Himax. bind_inv H as it0 Hit0.
  bind_inv H as itmax Hitmax. bind_inv H as bgi Hbgi.
  bind_inv H as [sc1 cv1] Hopt1. bind_inv H as [sc2 cv2] Hopt2.
  injection H as <- <-. simpl. split_and!; try done.
  destruct (lowMemoryFootprint P); simpl in Hmode.
  - bind_inv Hmode as t Ht. by injection Hmode as _ _ <-.
  - bind_inv Hmode as ffset Hff. by injection Hmode as _ _ <-.
Qed.

(** [k + j] passes are [k] passes followed by [j] passes. *)
Lemma mcIterate_add (k j : nat) (P : McSASParameters) (dataset : list vec)
    (intObs error : vec) (st : FitState) (w : World E) :
  mcIterate E m (k + j) P dataset intObs error st w
  = mcIterate E m k P dataset intObs error st w
      ≫= fun '(s1, w1) => mcIterate E m j P dataset intObs error s1 w1.
Proof.
  revert st w. induction k as [|k IH]; intros st w; [done|].
  simpl. destruct (keepIterating P st) eqn:Hkeep.
  - destruct (mcStep E m P dataset intObs error st w) as [[s1 w1]|e]; [|done].
    simpl. apply IH.
  - simpl. destruct j; simpl; by rewrite ?Hkeep.
Qed.
End LoopProperties.

(** ** Random parameter rows *)

Lemma pymin_pymax_Fin (a b : Qc) :
  exists lo hi, pymin (Fin a) (Fin b) = Fin lo /\
                pymax (Fin a) (Fin b) = Fin hi /\ (lo <= hi)%Qc.
Proof.
  unfold pymin, pymax, ngt. simpl.
  destruct (Qcltb b a) eqn:Hba.
  - apply Qcltb_lt in Hba.
    destruct (Qcltb a b) eqn:Hab.
    + apply Qcltb_lt in Hab. exfalso.
      by apply (Qclt_not_le _ _ Hab), Qclt_le_weak.
    + exists b, a. split_and!; [done..|]. by apply Qclt_le_weak.
  - destruct (Qcltb a b) eqn:Hab.
    + apply Qcltb_lt in Hab. exists a, b. split_and!; [done..|].
      by apply Qclt_le_weak.
    + exists a, a. split_and!; [done..|]. apply Qcle_refl.
Qed.

Lemma Qc_between (lo hi u : Qc) :
  (lo <= hi)%Qc -> (0 <= u)%Qc -> (u <= 1)%Qc ->
  (lo <= lo + (hi + - lo) * u)%Qc /\ (lo + (hi + - lo) * u <= hi)%Qc.
Proof.
  intros Hlh Hu0 Hu1.
  assert (0 <= hi + - lo)%Qc as Hd by (by apply (proj1 (Qcle_minus_iff lo hi))).
  assert (0 <= (hi + - lo) * u)%Qc as Hdu.
  { replace 0%Qc with (0 * u)%Qc by ring. by apply Qcmult_le_compat_r. }
  assert ((hi + - lo) * u <= hi + - lo)%Qc as Hdu1.
  { replace (hi + - lo)%Qc with (1 * (hi + - lo))%Qc at 2 by ring.
    rewrite (Qcmult_comm (hi + - lo) u). by apply Qcmult_le_compat_r. }
  split.
  - replace lo with (lo + 0)%Qc at 1 by ring.
    apply Qcplus_le_compat; [apply Qcle_refl|done].
  - replace hi with (lo + (hi + - lo))%Qc at 2 by ring.
    apply Qcplus_le_compat; [apply Qcle_refl|done].
Qed.

Section DrawProperties.
Context (E : Env) (m : ParticleModel).
Hypothesis unit : unitSamples E.

Lemma uniform_in_range (lo hi : Qc) (count : nat) (g g' : G E) (us : vec) :
  (lo <= hi)%Qc ->
  uniform E (Fin lo) (Fin hi) count g = (us, g') ->
  length us = count /\
  Forall (fun x => nle (Fin lo) x = true /\ nle x (Fin hi) = true) us.
Proof using unit.
  intros Hlh. revert g g' us.
  induction count as [|n IH]; intros g g' us H; simpl in H.
  { by injection H as <- <-. }
  destruct (unit g) as (u & Hu & Hu0 & Hu1).
  destruct (random_sample E g) as [x g1]. simpl in Hu. subst x.
  destruct (uniform E (Fin lo) (Fin hi) n g1) as [rest g2] eqn:Hrest.
  injection H as <- <-. apply IH in Hrest as [Hlen Hall].
  split; [simpl; by rewrite Hlen|]. constructor; [|done]. simpl.
  destruct (Qc_between lo hi u Hlh Hu0 (Qclt_le_weak _ _ Hu1)) as [H1 H2].
  by rewrite !(proj2 (Qcleb_le _ _)).
Qed.

Lemma drawColumns_in_range (ranges : list (num * num)) (count : nat)
    (g g' : G E) (cols : list vec) :
  Forall (fun r => is_fin r.1 /\ is_fin r.2) ranges ->
  drawColumns E ranges count g = (cols, g') ->
  Forall2 (fun c r =>
             length c = count /\
             Forall (fun x => nle (pymin r.1 r.2) x = true /\
                              nle x (pymax r.1 r.2) = true) c)
          cols ranges.
Proof using unit.
  intros Hfin. revert g g' cols.
  induction Hfin as [|[a b] ranges [Ha Hb] _ IH];
    intros g g' cols H; simpl in H.
  { injection H as <- <-. constructor. }
  simpl in Ha, Hb. destruct Ha as [qa ->], Hb as [qb ->].
  destruct (pymin_pymax_Fin qa qb) as (lo & hi & Hlo & Hhi & Hlh).
  simpl in *. rewrite Hlo, Hhi in *.
  destruct (uniform E (Fin lo) (Fin hi) count g) as [c g1] eqn:Hc.
  destruct (drawColumns E ranges count g1) as [cs g2] eqn:Hcs.
  injection H as <- <-.
  apply uniform_in_range in Hc; [|done]. apply IH in Hcs.
  constructor; [|done]. simpl. by rewrite Hlo, Hhi.
Qed.

(** Every row that [randUniform] returns lies within the bounds. *)
Lemma randUniform_inBounds (count : nat) (g g' : G E) (rows : list vec) :
  finiteRanges m ->
  randUniform E m count g = (rows, g') ->
  length rows = count /\ Forall (inBounds m) rows.
Proof using unit.
  intros Hfin. unfold randUniform.
  destruct (drawColumns E (valueRange m) count g) as [cols g1] eqn:Hcols.
  intros [= <- <-]. apply drawColumns_in_range in Hcols; [|done].
  unfold rowsOfColumns. split; [by rewrite length_fmap, length_seq|].
  apply Forall_fmap, Forall_forall. intros i Hi. apply elem_of_seq in Hi.
  unfold inBounds. simpl. apply Forall2_fmap_l.
  eapply Forall2_impl; [exact Hcols|]. simpl.
  intros c r [Hlen Hall].
  destruct (lookup_lt_is_Some_2 c i) as [x Hx]; [lia|].
  rewrite Hx. simpl. rewrite Forall_forall in Hall. apply Hall.
  by eapply list_elem_of_lookup_2.
Qed.

Lemma trial_inBounds (dataset : list vec) (w w1 : World E)
    (rtRow itt : vec) (vtt : num) :
  finiteRanges m ->
  trial E m dataset w = Ok (rtRow, itt, vtt, w1) ->
  inBounds m rtRow /\ heap w1 = heap w.
Proof using unit.
  intros Hfin. unfold trial.
  destruct (randUniform E m 1 (rng w)) as [rt g1] eqn:Hrt.
  apply randUniform_inBounds in Hrt as [_ Hall]; [|done]. intros H.
  bind_inv H as ft Hft. bind_inv H as vtts Hv. bind_inv H as fcol Hf.
  bind_inv H as v Hvtt. bind_inv H as row Hrow. injection H as <- _ _ <-.
  split; [|done]. apply item_Ok in Hrow. rewrite Forall_forall in Hall.
  apply Hall. by eapply list_elem_of_lookup_2.
Qed.

(** The rows of the contribution set stay within the bounds, and as many
    as they were. *)
Lemma mcStep_inBounds (P : McSASParameters) (dataset : list vec)
    (intObs error : vec) (st st' : FitState) (w w' : World E)
    (rows : list vec) :
  finiteRanges m ->
  mcStep E m P dataset intObs error st w = Ok (st', w') ->
  deref (heap w) (rset st) = Some rows -> Forall (inBounds m) rows ->
  rset st' = rset st /\
  exists rows', deref (heap w') (rset st') = Some rows' /\
                length rows' = length rows /\ Forall (inBounds m) rows'.
Proof using unit.
  intros Hfin H Hd Hall. unfold mcStep in H.
  bind_inv H as [[[rtRow itt] vtt] w1] Htrial.
  apply trial_inBounds in Htrial as [Hrt Hheap]; [|done].
  bind_inv H as itest Hcand. bind_inv H as vri Hvri.
  bind_inv H as [sct convalt] Hopt. bind_inv H as [st1 w2] Hacc.
  bind_inv H as st2 Hadv. injection H as <- <-.
  apply advance_Ok in Hadv as (-> & _).
  destruct (nlt convalt (conval st)).
  - unfold accept in Hacc. bind_inv Hacc as h1 Hset.
    injection Hacc as <- <-. simpl. split; [done|].
    apply setrow_Ok in Hset as (rows0 & Hd0 & _ & ->).
    rewrite Hheap, Hd in Hd0. injection Hd0 as <-.
    exists (<[ri st := rtRow]> rows). split_and!.
    + eapply deref_assign. by rewrite Hheap.
    + by rewrite length_insert.
    + by apply Forall_insert.
  - injection Hacc as <- <-. simpl. split; [done|].
    exists rows. by rewrite Hheap.
Qed.

Lemma mcIterate_inBounds (fuel : nat) (P : McSASParameters)
    (dataset : list vec) (intObs error : vec) (st st' : FitState)
    (w w' : World E) (rows : list vec) :
  finiteRanges m ->
  mcIterate E m fuel P dataset intObs error st w = Ok (st', w') ->
  deref (heap w) (rset st) = Some rows -> Forall (inBounds m) rows ->
  rset st' = rset st /\
  exists rows', deref (heap w') (rset st') = Some rows' /\
                length rows' = length rows /\ Forall (inBounds m) rows'.
Proof using unit.
  intros Hfin. revert st w rows.
  induction fuel as [|k IH]; intros st w rows H Hd Hall; simpl in H.
  { injection H as <- <-. split; [done|]. by exists rows. }
  destruct (keepIterating P st);
    [|injection H as <- <-; split; [done|]; by exists rows].
  bind_inv H as [st1 w1] Hstep.
  eapply mcStep_inBounds in Hstep as (Hr1 & rows1 & Hd1 & Hl1 & Hall1);
    [|done..].
  eapply IH in H as (Hr & rows' & Hd' & Hl' & Hall'); [|done..].
  split; [congruence|]. exists rows'. split_and!; [done| |done]. congruence.
Qed.

Lemma seed_inBounds (P : McSASParameters) (q : vec) (w w1 : World E)
    (rs : ndref) (N : nat) :
  finiteRanges m ->
  sizeOf (heap w) (prior P) = Ok 0%nat -> startFromMinimum P = false ->
  seed E m P q w = Ok (rs, N, w1) ->
  exists rows, deref (heap w1) rs = Some rows /\
               length rows = numContribs P /\ Forall (inBounds m) rows.
Proof using unit.
  intros Hfin Hsz Hmin. unfold seed. rewrite Hsz, Hmin. simpl.
  destruct (randUniform E m (numContribs P) (rng w)) as [rows g'] eqn:Hru.
  intros [= <- <- <-].
  apply randUniform_inBounds in Hru as [Hlen Hall]; [|done].
  exists rows. split_and!; [|done..]. apply (deref_alloc (heap w)).
Qed.
End DrawProperties.

(** ** Clipping and checking *)

Lemma masked_finite_q (data : list vec) (q : vec) :
  column data 0 = Ok q ->
  masked (isfinite <$> q) data
  = List.filter (fun r => isfinite (default NaN (r !! 0%nat))) data.
Proof.
  revert q. induction data as [|r rs IH]; intros q H; simpl in H.
  { by injection H as <-. }
  bind_inv H as x Hx. bind_inv H as xs Hxs. injection H as <-.
  apply item_Ok in Hx. csimpl. rewrite Hx. simpl.
  rewrite (IH xs Hxs). by destruct (isfinite x).
Qed.

Lemma Forall_masked {A : Type} (Q : A -> Prop) (mask : list bool) (a : list A) :
  Forall Q a -> Forall Q (masked mask a).
Proof.
  intros Ha. revert mask. induction Ha as [|x a Hx _ IH]; intros [|b mask];
    try done; [by destruct b|].
  destruct b; simpl; [constructor; [done|]|]; apply IH.
Qed.

Lemma pymin_le_pymax (a b : num) :
  isnan a = false -> isnan b = false -> nle (pymin a b) (pymax a b) = true.
Proof.
  intros Ha Hb. unfold pymin, pymax, ngt.
  destruct (nlt b a) eqn:Hba.
  - destruct (nlt a b) eqn:Hab.
    + by apply nle_refl.
    + by apply nlt_nle.
  - destruct (nlt a b) eqn:Hab.
    + by apply nlt_nle.
    + by apply nle_refl.
Qed.

Lemma pymin_pymax_spec (a b : num) :
  isnan a = false -> isnan b = false ->
  (pymin a b = a \/ pymin a b = b) /\ (pymax a b = a \/ pymax a b = b) /\
  nle (pymin a b) a = true /\ nle (pymin a b) b = true /\
  nle a (pymax a b) = true /\ nle b (pymax a b) = true.
Proof.
  intros Ha Hb. unfold pymin, pymax, ngt.
  destruct (nlt b a) eqn:Hba, (nlt a b) eqn:Hab; split_and!; auto;
    first [by apply nle_refl | by apply nlt_nle | by apply not_nlt_nle].
Qed.

(** A two-column data set cannot be fitted. *)
Lemma mcFit_needs_uncertainties (E : Env) (m : ParticleModel)
    (P : McSASParameters) (rows : list vec) (w : World E) :
  Forall (fun r => length r = 2%nat) rows ->
  exists e, mcFit E m P rows w = Raise e.
Proof.
  intros Hrows. destruct (mcFit E m P rows w) as [[r w']|e] eqn:H;
    [exfalso|by exists e].
  unfold mcFit, mcFitUpTo in H.
  bind_inv H as [st w1] Hrun. bind_inv Hrun as [st0 w0] Hinit.
  unfold mcInit in Hinit.
  bind_inv Hinit as q Hq. bind_inv Hinit as [[rs N] w2] Hseed.
  bind_inv Hinit as rws Hrows'. bind_inv Hinit as vs Hvs.
  bind_inv Hinit as [[cache total] isCol] Hmode.
  bind_inv Hinit as intensity Hint. bind_inv Hinit as error Herr.
  bind_inv Hinit as imax Himax.
  destruct Hrows as [|r0 rest Hr _]; simpl in *.
  - injection Hint as <-. discriminate.
  - bind_inv Herr as x Hx. apply item_Ok in Hx.
    apply lookup_lt_Some in Hx. lia.
Qed.

(** The rows [clipDataset] prepares. *)
Lemma clipping_rows (P : McSASParameters) (ds ds' : SASData) :
  clipDataset P ds = Ok ds' ->
  exists data,
    origin ds = Some data /\
    prepared ds'
    = Some (List.filter (fun r => isfinite (default NaN (r !! 0%nat))) data).
Proof.
  unfold clipDataset. intros H.
  bind_inv H as data Hdata. apply from_option_Ok in Hdata.
  bind_inv H as q Hq.
  destruct (maskZeroInt P || maskNegativeInt P
            || bool_decide (is_Some (qBounds P)) || _); [discriminate|].
  injection H as <-. simpl.
  exists data. split; [done|]. by rewrite (masked_finite_q data q).
Qed.

Section SetupProperties.
Context (E : Env).
Context (DataSet_setOrigin : option (list vec) -> res (option (list vec))).

(** [setData] on [Q], [I] and one more array of the same length. *)
Lemma setData_stacked (kw : Kwargs) (q i e : vec) :
  DataSet_setOrigin (Some (stacked q i e)) = Ok (Some (stacked q i e)) ->
  kwQ kw = Some q -> kwI kw = Some i ->
  optionList (kwIError kw) ++ optionList (kwPsi kw) = [e] ->
  kwDataset kw = None ->
  length i = length q -> length e = length q -> (2 <= length q)%nat ->
  exists b,
    setData E DataSet_setOrigin kw
    = Ok ({| origin := Some (stacked q i e); prepared := None;
             sizeBounds := Some b |}, [b.1; b.2]).
Proof.
  intros Hbase HQ HI HE HD Hi He Hlen. unfold setData.
  rewrite HQ, HI, HE, HD. simpl.
  rewrite !bool_decide_eq_true_2 by done. simpl.
  destruct (column_stacked q i e Hi He) as [Hq _].
  destruct (setOrigin_Ok E DataSet_setOrigin (stacked q i e) q Hbase Hq Hlen)
    as [b Hb].
  unfold newSASData. unfold stacked in Hb. rewrite Hb. simpl.
  by exists b.
Qed.

(** What [setData] leaves when it returns, for a base class that keeps
    the array it is given. *)
Lemma setData_origin (kw : Kwargs) (ds : SASData) (bounds : list num) :
  (forall data, DataSet_setOrigin (Some data) = Ok (Some data)) ->
  setData E DataSet_setOrigin kw = Ok (ds, bounds) ->
  exists q i data,
    kwQ kw = Some q /\ kwI kw = Some i /\
    vstackT (q :: i :: optionList (kwIError kw) ++ optionList (kwPsi kw))
    = Ok data /\
    origin ds = Some data.
Proof.
  intros Hbase. unfold setData. intros H.
  bind_inv H as q Hq. bind_inv H as i Hi. bind_inv H as data Hdata.
  bind_inv H as ds1 Hds. bind_inv H as b Hb. injection H as <- <-.
  apply from_option_Ok in Hq, Hi. exists q, i, data. split_and!; [done..|].
  assert (forall d, newSASData E DataSet_setOrigin None = Ok d -> False)
    as Hnone.
  { unfold newSASData, setOrigin. intros d H.
    bind_inv H as kept Hk. discriminate. }
  assert (newSASData E DataSet_setOrigin (Some data) = Ok ds1 ->
          origin ds1 = Some data) as Hsome.
  { unfold newSASData, setOrigin. rewrite Hbase. simpl. intros H.
    bind_inv H as q0 Hq0. bind_inv H as qmax Hmax. bind_inv H as qmin Hmin.
    bind_inv H as dmin Hd. by injection H as <-. }
  destruct (kwDataset kw) as [kind|]; [|by apply Hsome].
  destruct (negb (lower kind =? "fit")%string); [by apply Hsome|].
  bind_inv Hds as d Hd. exfalso. by eapply Hnone.
Qed.
End SetupProperties.

(** ** The assignments of [analyse] *)

Lemma mapM_length {A B : Type} (f : A -> res B) (l : list A) (k : list B) :
  mapM f l = Ok k -> length k = length l.
Proof. intros H. apply mapM_Ok in H. symmetry. by eapply Forall2_length. Qed.

Lemma mapM_broadcastRow_Raise (C : nat) (rows : list vec) (e : exn) :
  mapM (broadcastRow C) rows = Raise e -> e = ValueError.
Proof.
  induction rows as [|r rows IH]; intros H; [discriminate|].
  change (broadcastRow C r ≫= (fun y => mapM (broadcastRow C) rows
                                 ≫= fun k => Ok (y :: k)) = Raise e) in H.
  apply bind_Raise in H as [H|(y & Hy & H)].
  - unfold broadcastRow in H.
    destruct (decide (length r = C)); [discriminate|].
    destruct r as [|x [|x' r]]; congruence.
  - apply bind_Raise in H as [H|(k & Hk & H)]; [by apply IH|discriminate].
Qed.

Lemma broadcastTo_Raise (R C : nat) (value : list vec) (e : exn) :
  broadcastTo R C value = Raise e -> e = ValueError.
Proof.
  unfold broadcastTo.
  destruct (mapM (broadcastRow C) value) as [rows|e'] eqn:Hm; simpl.
  - destruct (decide (length rows = R)); [discriminate|].
    destruct rows as [|r [|r' rows]]; by intros [= <-].
  - intros [= <-]. by eapply mapM_broadcastRow_Raise.
Qed.

(** An array whose number of rows is neither that of the target nor one
    cannot be assigned. *)
Lemma broadcastTo_rows (R C : nat) (value : list vec) :
  length value <> R -> length value <> 1%nat ->
  broadcastTo R C value = Raise ValueError.
Proof.
  intros HR H1. unfold broadcastTo.
  destruct (mapM (broadcastRow C) value) as [rows|e] eqn:Hm; simpl.
  - apply mapM_length in Hm.
    destruct (decide (length rows = R)); [lia|].
    destruct rows as [|r [|r' rows]]; simpl in Hm; first [done|lia].
  - f_equal. by eapply mapM_broadcastRow_Raise.
Qed.

Lemma mapM_cons {A B : Type} (f : A -> res B) (a : A) (l : list A) :
  mapM f (a :: l) = f a ≫= fun y => mapM f l ≫= fun k => Ok (y :: k).
Proof. done. Qed.

Lemma mapM_broadcast_singletons (n : nat) (xs : vec) :
  mapM (broadcastRow n) ((fun x => [x]) <$> xs)
  = Ok ((fun x => replicate n x) <$> xs).
Proof.
  induction xs as [|x xs IH]; [done|].
  rewrite !fmap_cons, mapM_cons, IH.
  unfold broadcastRow. destruct (decide (length [x] = n)) as [<-|]; done.
Qed.

(** ** The bins of a histogram *)

Lemma natQ_0 : natQ 0 = 0%Qc.
Proof. by apply Qc_is_canon. Qed.

Lemma natQ_S (i : nat) : natQ (S i) = (natQ i + 1)%Qc.
Proof.
  apply Qc_is_canon. unfold natQ, Qcplus, Q2Qc. simpl.
  rewrite !Qred_correct, Nat2Z.inj_succ. unfold Z.succ.
  by rewrite inject_Z_plus.
Qed.

Lemma Qc_lt_succ (x : Qc) : (x < x + 1)%Qc.
Proof.
  apply Qclt_minus_iff. by replace (x + 1 + - x)%Qc with 1%Qc by ring.
Qed.

Lemma natQ_nonneg (i : nat) : (0 <= natQ i)%Qc.
Proof.
  induction i as [|i IH]; [by rewrite natQ_0|].
  rewrite natQ_S. eapply Qcle_trans; [exact IH|].
  apply Qclt_le_weak, Qc_lt_succ.
Qed.

Lemma natQ_pos (i : nat) : (0 < natQ (S i))%Qc.
Proof.
  rewrite natQ_S. eapply Qcle_lt_trans; [apply natQ_nonneg|apply Qc_lt_succ].
Qed.

Lemma nat2num_natQ (i : nat) : nat2num i = Fin (natQ i).
Proof. done. Qed.

Section Edges.
Context (lo hi : Qc) (n : nat).
Hypothesis ordered : (lo <= hi)%Qc.

Lemma edgeAt_0 : edgeAt lo hi (S n) 0 = lo.
Proof using Type. unfold edgeAt. rewrite natQ_0. ring. Qed.

Lemma edgeAt_last : edgeAt lo hi (S n) (S n) = hi.
Proof using Type.
  unfold edgeAt. pose proof (natQ_pos n) as Hpos.
  field. intros Hz. rewrite Hz in Hpos. by apply Qclt_not_eq in Hpos.
Qed.

Lemma step_nonneg : (0 <= (hi + - lo) / natQ (S n))%Qc.
Proof using ordered.
  apply Qc_div_nonneg; [|apply natQ_pos].
  by apply (proj1 (Qcle_minus_iff lo hi)).
Qed.

Lemma edgeAt_S (i : nat) :
  edgeAt lo hi (S n) (S i)
  = (edgeAt lo hi (S n) i + (hi + - lo) / natQ (S n))%Qc.
Proof using Type. unfold edgeAt. rewrite (natQ_S i). ring. Qed.

Lemma edgeAt_mono (i k : nat) :
  (edgeAt lo hi (S n) i <= edgeAt lo hi (S n) (i + k))%Qc.
Proof using ordered.
  induction k as [|k IH].
  - rewrite Nat.add_0_r. apply Qcle_refl.
  - rewrite Nat.add_succ_r, edgeAt_S. eapply Qcle_trans; [exact IH|].
    replace (edgeAt lo hi (S n) (i + k))
      with (edgeAt lo hi (S n) (i + k) + 0)%Qc at 1 by ring.
    apply Qcplus_le_compat; [apply Qcle_refl|apply step_nonneg].
Qed.

Lemma edgeAt_le (i j : nat) :
  (i <= j)%nat -> (edgeAt lo hi (S n) i <= edgeAt lo hi (S n) j)%Qc.
Proof using ordered.
  intros Hij. replace j with (i + (j - i))%nat by lia. apply edgeAt_mono.
Qed.
End Edges.

(** [numpy.linspace] between two numbers, in closed form. *)
Lemma linspace_edges (lo hi : Qc) (n : nat) :
  linspace (Fin lo) (Fin hi) (S n + 1)
  = (fun i => Fin (edgeAt lo hi (S n) i)) <$> seq 0 (S n + 1).
Proof.
  unfold linspace. apply list_fmap_ext. intros k i Hi.
  apply lookup_seq in Hi as [-> Hk]. simpl in *.
  replace (n + 1 - 0)%nat with (S n) by lia.
  destruct (decide (k = 0%nat)) as [->|Hk0].
  { by rewrite edgeAt_0. }
  destruct (decide (S k = S (n + 1))) as [Hlast|Hmid].
  { replace k with (S n) by lia. by rewrite edgeAt_last. }
  fold (natQ (S n)). fold (natQ k). unfold edgeAt.
  pose proof (natQ_pos n) as Hpos.
  destruct (Qceqb (natQ (S n)) (Q2Qc 0)) eqn:Hz; [|done].
  exfalso. unfold Qceqb in Hz.
  destruct (natQ (S n) ?= 0)%Qc eqn:Hc; try done.
  apply Qceq_alt in Hc. rewrite Hc in Hpos. by apply Qclt_not_eq in Hpos.
Qed.

Lemma between_Fin (r : num) (e e' : Qc) :
  nge r (Fin e) = true /\ nlt r (Fin e') = true <->
  exists x, r = Fin x /\ (e <= x)%Qc /\ (x < e')%Qc.
Proof.
  unfold nge. destruct r as [| |x|]; simpl; split;
    try (by intros [? ?]); try (by intros (? & ? & _)).
  - intros [H1 H2]. exists x. by rewrite <- Qcleb_le, <- Qcltb_lt.
  - intros (y & [= <-] & H1 & H2). by rewrite Qcleb_le, Qcltb_lt.
Qed.

Lemma exists_bin (f : nat -> Qc) (n : nat) (x : Qc) :
  (f 0%nat <= x)%Qc -> (x < f n)%Qc ->
  exists i, (i < n)%nat /\ (f i <= x)%Qc /\ (x < f (S i))%Qc.
Proof.
  intros H0. induction n as [|n IH]; intros Hn.
  { exfalso. by apply (Qcle_not_lt _ _ H0). }
  destruct (Qclt_le_dec x (f n)) as [Hlt|Hge].
  - destruct (IH Hlt) as (i & Hi & H1 & H2). exists i. split_and!; [lia|done..].
  - exists n. split_and!; [lia|done..].
Qed.

Section Bins.
Context (lo hi : Qc) (n : nat).
Hypothesis ordered : (lo <= hi)%Qc.

Let edges : vec := linspace (Fin lo) (Fin hi) (S n + 1).

Lemma edges_length : length edges = (S n + 1)%nat.
Proof using Type.
  unfold edges. by rewrite linspace_edges, length_fmap, length_seq.
Qed.

Lemma edges_lookup (i : nat) :
  (i <= S n)%nat -> edges !! i = Some (Fin (edgeAt lo hi (S n) i)).
Proof using Type.
  intros Hi. unfold edges.
  rewrite linspace_edges, list_lookup_fmap, lookup_seq_lt by lia. done.
Qed.

Lemma inBin_lt (j : nat) (r : num) : inBin edges j r -> (j < S n)%nat.
Proof using Type.
  unfold inBin, binMask. intros H.
  bind_inv H as a Ha. bind_inv H as b Hb. apply item_Ok in Hb.
  apply lookup_lt_Some in Hb. rewrite edges_length in Hb. lia.
Qed.

Lemma inBin_edges (j : nat) (r : num) :
  inBin edges j r <->
  (j < S n)%nat /\
  exists x, r = Fin x /\ (edgeAt lo hi (S n) j <= x)%Qc /\
            (x < edgeAt lo hi (S n) (S j))%Qc.
Proof using Type.
  split.
  - intros H. pose proof (inBin_lt j r H) as Hj. split; [done|].
    unfold inBin, binMask, item in H.
    rewrite !edges_lookup in H by lia. simpl in H.
    injection H as H. apply andb_true_iff in H. by apply between_Fin.
  - intros (Hj & Hx). apply between_Fin in Hx as [H1 H2].
    unfold inBin, binMask, item. rewrite !edges_lookup by lia.
    cbn [from_option mbind res_bind fmap list_fmap]. by rewrite H1, H2.
Qed.

(** A value from the lower edge up to, but not including, the upper edge
    is counted in one bin and no other; no other value is counted. *)
Lemma bins_partition (r : num) :
  (nge r (Fin lo) = true -> nlt r (Fin hi) = true ->
   exists bini, (bini < S n)%nat /\ inBin edges bini r /\
                forall j, inBin edges j r -> j = bini) /\
  (forall j, inBin edges j r ->
             (j < S n)%nat /\ nge r (Fin lo) = true /\ nlt r (Fin hi) = true).
Proof using ordered.
  split.
  - intros H1 H2.
    destruct (proj1 (between_Fin r lo hi) (conj H1 H2)) as (x & -> & Hlo & Hhi).
    destruct (exists_bin (edgeAt lo hi (S n)) (S n) x) as (i & Hi & Hi1 & Hi2).
    { by rewrite edgeAt_0. }
    { by rewrite edgeAt_last. }
    exists i. split; [done|]. split.
    { apply inBin_edges. split; [done|]. by exists x. }
    intros j Hj. apply inBin_edges in Hj as (Hjn & y & [= <-] & Hj1 & Hj2).
    destruct (Nat.lt_trichotomy j i) as [Hlt|[Heq|Hgt]]; [exfalso|done|exfalso].
    + apply (Qclt_not_le _ _ Hj2). eapply Qcle_trans; [|exact Hi1].
      by apply edgeAt_le; [|lia].
    + apply (Qclt_not_le _ _ Hi2). eapply Qcle_trans; [|exact Hj1].
      by apply edgeAt_le; [|lia].
  - intros j Hj. apply inBin_edges in Hj as (Hjn & x & -> & H1 & H2).
    split; [done|]. apply between_Fin. exists x. split; [done|]. split.
    + eapply Qcle_trans; [|exact H1]. rewrite <- (edgeAt_0 lo hi n) at 1.
      by apply edgeAt_le; [|lia].
    + eapply Qclt_le_trans; [exact H2|]. rewrite <- (edgeAt_last lo hi n) at 2.
      by apply edgeAt_le; [|lia].
Qed.
End Bins.

(** ** The fractions of the contributions *)

Lemma ndiv_zeroOrNaN (x k : num) : zeroOrNaN x -> zeroOrNaN (ndiv x k).
Proof.
  intros [->| ->]; [|by right]. unfold zeroOrNaN, n0.
  destruct k as [| |b|]; simpl; auto.
  destruct (Qceqb b 0); [by right|left]. f_equal. unfold Qcdiv. ring.
Qed.

Lemma nadd_zeroOrNaN (x y : num) :
  zeroOrNaN x -> zeroOrNaN y -> zeroOrNaN (nadd x y).
Proof.
  intros [->| ->] [->| ->]; unfold zeroOrNaN, n0; simpl; auto.
Qed.

Lemma foldl_nadd_zeroOrNaN (xs : vec) (a : num) :
  zeroOrNaN a -> Forall zeroOrNaN xs -> zeroOrNaN (foldl nadd a xs).
Proof.
  intros Ha Hxs. revert a Ha.
  induction Hxs as [|x xs Hx _ IH]; intros a Ha; simpl; [done|].
  apply IH. by apply nadd_zeroOrNaN.
Qed.

Lemma npmean_zeroOrNaN (xs : vec) : Forall zeroOrNaN xs -> zeroOrNaN (npmean xs).
Proof.
  intros H. unfold npmean, npsum. apply ndiv_zeroOrNaN.
  apply foldl_nadd_zeroOrNaN; [by left|done].
Qed.

Lemma nmax2_zeroOrNaN (x y : num) :
  zeroOrNaN x -> zeroOrNaN y -> zeroOrNaN (nmax2 x y).
Proof. intros [->| ->] [->| ->]; unfold zeroOrNaN, nmax2; simpl; auto. Qed.

Lemma npmax_zeroOrNaN (xs : vec) (x : num) :
  npmax xs = Ok x -> Forall zeroOrNaN xs -> zeroOrNaN x.
Proof.
  destruct xs as [|a xs]; [done|]. simpl. intros [= <-] H.
  apply Forall_cons in H as [Ha H]. revert a Ha.
  induction H as [|y ys Hy _ IH]; intros a Ha; simpl; [done|].
  apply IH. by apply nmax2_zeroOrNaN.
Qed.

Lemma masked_Forall {A : Type} (P : A -> Prop) (mask : list bool) (a : list A) :
  Forall P a -> Forall P (masked mask a).
Proof.
  intros H. revert mask. induction H as [|x xs Hx _ IH]; intros [|[] ms]; simpl;
    try constructor; auto.
Qed.

Lemma binOfRepetition_zeroOrNaN (edges values vf nf mrv mrn : vec) (bini : nat)
    (b : BinOfRepetition) :
  binOfRepetition edges values vf nf mrv mrn bini = Ok b ->
  Forall zeroOrNaN mrn -> zeroOrNaN (minReqNumBin b).
Proof.
  intros H Hall. unfold binOfRepetition in H.
  apply bind_Ok in H as (mask & _ & H).
  assert (zeroOrNaN (npmean (masked mask mrn))) as Hmean.
  { by apply npmean_zeroOrNaN, masked_Forall. }
  destruct (negb (existsb id mask)), (isnan (npsum (masked mask vf)));
    injection H as <-; simpl; done || by left.
Qed.

Lemma histMinReq_zeroOrNaN (vb nb : vec) (v n : num) :
  histMinReq vb nb = Ok (v, n) -> Forall zeroOrNaN nb -> zeroOrNaN n.
Proof.
  intros H Hall. unfold histMinReq in H.
  apply bind_Ok in H as (volMin & _ & H).
  apply bind_Ok in H as (numMin & Hn & H). injection H as _ <-.
  eapply npmax_zeroOrNaN; [exact Hn|]. by apply masked_Forall.
Qed.

Section FractionProperties.
Context (E : Env) (m : ParticleModel).

Lemma fractionsOfRepetition_minReqNum (P : McSASParameters)
    (dataset : list vec) (intensity error : vec) (rows : list vec)
    (vf nf mrv mrn : vec) (sc : num * num) :
  fractionsOfRepetition E m P dataset intensity error rows
    = Ok (vf, nf, mrv, mrn, sc) ->
  length mrn = length rows /\ Forall zeroOrNaN mrn.
Proof.
  intros H. unfold fractionsOfRepetition in H.
  apply bind_Ok in H as (vs & _ & H).
  apply bind_Ok in H as ([cols total] & _ & H).
  apply bind_Ok in H as (vpa & _ & H).
  apply bind_Ok in H as (imax & _ & H).
  apply bind_Ok in H as (it0 & _ & H).
  apply bind_Ok in H as (itmax & _ & H).
  apply bind_Ok in H as (bgi & _ & H).
  apply bind_Ok in H as ([sc' cv] & _ & H).
  apply bind_Ok in H as (minReqVol & _ & H).
  injection H as _ _ _ <- _. unfold vdivs.
  split; [by rewrite length_fmap, length_replicate|].
  apply Forall_fmap, Forall_replicate. apply ndiv_zeroOrNaN. by left.
Qed.

Lemma histogramBin_minReqNum (edges : vec) (reps : list RepetitionFractions)
    (bini : nat) (b : HistogramBin) :
  histogramBin E edges reps bini = Ok b ->
  Forall (fun r => Forall zeroOrNaN (repMinReqNum r)) reps ->
  zeroOrNaN (numberHistogramMinimumRequired b).
Proof.
  intros H Hall. unfold histogramBin in H.
  destruct (decide (length reps ≤ 1)%nat); [done|].
  apply bind_Ok in H as (perRep & Hper & H).
  apply bind_Ok in H as (lo & _ & H).
  apply bind_Ok in H as ([volMin numMin] & Hmin & H).
  injection H as <-. cbn [numberHistogramMinimumRequired].
  eapply histMinReq_zeroOrNaN; [exact Hmin|].
  apply mapM_Ok in Hper. apply Forall_fmap.
  clear Hmin n. revert Hall.
  induction Hper as [|r y reps ys Hr _ IH]; intros Hall; [constructor|].
  apply Forall_cons in Hall as [Hr0 Hall].
  constructor; [|by apply IH]. simpl.
  eapply binOfRepetition_zeroOrNaN; [exact Hr|done].
Qed.
End FractionProperties.

Lemma ndiv_fin (x t : num) :
  is_fin (ndiv x t) ->
  is_fin x /\ (t = PInf \/ t = NInf \/ exists b, t = Fin b /\ b <> 0%Qc).
Proof.
  intros [q Hq]. destruct x as [| |a|], t as [| |b|]; simpl in Hq;
    try discriminate;
    try (destruct (Qceqb b 0) eqn:Hb; simpl in Hq);
    try (destruct (b ?= 0)%Qc; simpl in Hq; discriminate);
    try (destruct (a ?= 0)%Qc; simpl in Hq; discriminate);
    try discriminate.
  all: split; [by eexists|]; auto.
  right. right. exists b. split; [done|]. intros ->. by vm_compute in Hb.
Qed.

Lemma foldl_nadd_Fin_left (qs : list Qc) (c : Qc) :
  foldl nadd (Fin c) (Fin <$> qs) = Fin (foldl Qcplus c qs).
Proof. revert c. induction qs as [|a qs IH]; intros c; simpl; [done|apply IH]. Qed.

Lemma foldl_Qcplus_div (qs : list Qc) (b c : Qc) :
  b <> 0%Qc ->
  foldl Qcplus (c / b) ((fun a => a / b) <$> qs) = (foldl Qcplus c qs / b)%Qc.
Proof.
  intros Hb. revert c. induction qs as [|a qs IH]; intros c; simpl; [done|].
  rewrite <- IH. f_equal. by field.
Qed.

(** Dividing the entries of a non-empty array by their sum gives, when
    every quotient is finite, entries that sum to one. *)
Lemma normalised_sum (xs : vec) :
  xs <> [] -> Forall is_fin (vdivs xs (npsum xs)) ->
  npsum (vdivs xs (npsum xs)) = n1.
Proof.
  intros Hne Hfin. unfold vdivs in *.
  assert (Forall is_fin xs) as Hxs.
  { rewrite Forall_fmap in Hfin. eapply Forall_impl; [exact Hfin|].
    intros x Hx. simpl in Hx. by apply ndiv_fin in Hx as [? _]. }
  destruct (Forall_is_fin xs Hxs) as [qs ->].
  unfold npsum, n0 in *. rewrite foldl_nadd_Fin_left in *.
  set (b := foldl Qcplus 0 qs) in *.
  destruct qs as [|a qs]; [done|].
  rewrite Forall_fmap in Hfin. apply Forall_cons in Hfin as [Ha _].
  change (is_fin (ndiv (Fin a) (Fin b))) in Ha.
  apply ndiv_fin in Ha as [_ [?|[?|(b' & [= <-] & Hb)]]]; [done..|].
  assert (Qceqb b 0 = false) as Hz.
  { unfold Qceqb. destruct (b ?= 0)%Qc eqn:Hz; [|done..].
    by apply Qceq_alt in Hz. }
  rewrite <- list_fmap_compose.
  rewrite (list_fmap_ext _ (fun a => Fin (a / b)) (a :: qs)).
  2:{ intros i x _. simpl. by rewrite Hz. }
  rewrite (list_fmap_compose (fun a => a / b)%Qc Fin), foldl_nadd_Fin_left.
  replace 0%Qc with (0 / b)%Qc at 1 by (by field).
  rewrite foldl_Qcplus_div by done. fold b. unfold n1. f_equal. by field.
Qed.

(** ** An uncertainty of zero *)

Lemma ndiv_zero_not_fin (x : num) : ~ is_fin (ndiv x n0).
Proof.
  intros H. apply ndiv_fin in H as [_ [H|[H|(b & [= <-] & Hb)]]]; done.
Qed.

Lemma nsqr_not_fin (x : num) : ~ is_fin x -> infOrNaN (nsqr x).
Proof.
  destruct x as [| |a|]; intros H; unfold infOrNaN; simpl; auto.
  destruct H. by eexists.
Qed.

Lemma nadd_infOrNaN_l (a x : num) :
  infOrNaN a -> nonneg x -> infOrNaN (nadd a x).
Proof.
  intros [->| ->] [->|[->|(q & -> & _)]]; unfold infOrNaN; simpl; auto.
Qed.

Lemma nadd_infOrNaN_r (a x : num) :
  nonneg a -> infOrNaN x -> infOrNaN (nadd a x).
Proof.
  intros [->|[->|(q & -> & _)]] [->| ->]; unfold infOrNaN; simpl; auto.
Qed.

Lemma foldl_nadd_infOrNaN_acc (xs : vec) (a : num) :
  infOrNaN a -> Forall nonneg xs -> infOrNaN (foldl nadd a xs).
Proof.
  intros Ha Hxs. revert a Ha.
  induction Hxs as [|x xs Hx _ IH]; intros a Ha; simpl; [done|].
  apply IH. by apply nadd_infOrNaN_l.
Qed.

Lemma foldl_nadd_infOrNaN (xs : vec) (a : num) :
  nonneg a -> Forall nonneg xs -> Exists infOrNaN xs ->
  infOrNaN (foldl nadd a xs).
Proof.
  intros Ha Hxs Hex. revert a Ha Hxs.
  induction Hex as [x xs Hx|x xs _ IH]; intros a Ha Hxs;
    apply Forall_cons in Hxs as [Hnx Hxs]; simpl.
  - apply foldl_nadd_infOrNaN_acc; [|done]. by apply nadd_infOrNaN_r.
  - apply IH; [|done]. by apply nadd_nonneg.
Qed.

Lemma ndiv_infOrNaN_nat (s : num) (n : nat) :
  infOrNaN s -> infOrNaN (ndiv s (nat2num (S n))).
Proof.
  rewrite nat2num_natQ. pose proof (natQ_pos n) as Hpos.
  intros [->| ->]; unfold infOrNaN; simpl; auto.
  assert (Qceqb (natQ (S n)) 0 = false) as ->.
  { unfold Qceqb. apply Qcgt_alt in Hpos. by rewrite Hpos. }
  apply Qcgt_alt in Hpos. rewrite Hpos. simpl. auto.
Qed.

Lemma nlt_infOrNaN (x y : num) : infOrNaN x -> nlt x y = false.
Proof. intros [->| ->]; by destruct y. Qed.

(** With an uncertainty of zero at a point that both intensities reach,
    the reduced chi-squared is infinite or not a number. *)
Lemma csqr_v1_zero_error (intObs intCalc error : vec) (j : nat) :
  error !! j = Some n0 ->
  (j < length intObs)%nat -> (j < length intCalc)%nat ->
  infOrNaN (csqr_v1 intObs intCalc error).
Proof.
  intros He Ho Hc. unfold csqr_v1.
  destruct (length intObs) as [|n] eqn:Hn; [lia|].
  apply ndiv_infOrNaN_nat. unfold npsum. apply foldl_nadd_infOrNaN.
  - right. right. by exists 0%Qc.
  - unfold vsqr. apply Forall_fmap, Forall_forall. intros x _. apply nsqr_nonneg.
  - destruct (lookup_lt_is_Some_2 intObs j) as [o Hoj]; [lia|].
    destruct (lookup_lt_is_Some_2 intCalc j Hc) as [c Hcj].
    apply Exists_exists. exists (nsqr (ndiv (nsub o c) n0)). split.
    + apply (list_elem_of_lookup_2 _ j). unfold vsqr, vdiv, vsub.
      rewrite list_lookup_fmap, !lookup_zip_with, Hoj, Hcj, He. done.
    + apply nsqr_not_fin, ndiv_zero_not_fin.
Qed.

Lemma column_lookup (rows : list vec) (k j : nat) (c row : vec) :
  column rows k = Ok c -> rows !! j = Some row -> c !! j = row !! k.
Proof.
  revert c j. induction rows as [|r rs IH]; intros c j H Hj; [done|].
  simpl in H. apply bind_Ok in H as (x & Hx & H).
  apply bind_Ok in H as (xs & Hxs & H). injection H as <-.
  apply item_Ok in Hx. destruct j as [|j]; simpl in *.
  - injection Hj as <-. done.
  - by apply IH.
Qed.

Section ZeroError.
Context (E : Env) (m : ParticleModel).

Lemma mcStep_zero_error (P : McSASParameters) (dataset : list vec)
    (intObs error : vec) (st st' : FitState) (w w' : World E)
    (rows : list vec) (j : nat) :
  mcStep E m P dataset intObs error st w = Ok (st', w') ->
  cacheCoherent m dataset st (heap w) rows ->
  (lowMemoryFootprint P = false -> is_Some (iset st)) ->
  it st = totalIntensity m dataset rows ->
  length intObs = length dataset ->
  error !! j = Some n0 -> (j < length dataset)%nat ->
  numMoves st' = numMoves st.
Proof.
  intros H Hc Hi Hit Ho He Hj. unfold mcStep in H.
  bind_inv H as [[[rtRow itt] vtt] w1] Htrial.
  apply trial_Ok in Htrial as (Hshape & Hvtt & Hitt & Hheap).
  rewrite (candidate_eq E m P dataset st w1 rows itt) in H
    by (by rewrite ?Hheap).
  bind_inv H as itest Hcand. apply candidateOf_Ok in Hcand as (r & Hr & ->).
  bind_inv H as vri Hvri. bind_inv H as [sct convalt] Hopt.
  apply optimScalingAndBackground_conval in Hopt as Hcv.
  bind_inv H as [st1 w2] Hacc.
  bind_inv H as st2 Hadv. injection H as <- <-.
  pose proof (advance_Ok _ _ Hadv) as (_ & _ & _ & _ & Hm2 & _).
  assert (infOrNaN convalt) as Hinf.
  { rewrite Hcv. apply (csqr_v1_zero_error _ _ _ j He); [lia|].
    unfold vadds, vscale, vdivs, smear, vadd, vsub.
    rewrite !length_fmap, !length_zip_with, Hit, totalIntensity_length.
    rewrite contribColumn_length, Hitt, contribColumn_length. lia. }
  rewrite (nlt_infOrNaN convalt (conval st) Hinf) in Hacc.
  injection Hacc as <- <-. by rewrite Hm2.
Qed.

Lemma mcIterate_zero_error (fuel : nat) (P : McSASParameters)
    (dataset : list vec) (intObs error : vec) (st st' : FitState)
    (w w' : World E) (rows : list vec) (j : nat) :
  mcIterate E m fuel P dataset intObs error st w = Ok (st', w') ->
  cacheCoherent m dataset st (heap w) rows ->
  (lowMemoryFootprint P = false -> is_Some (iset st)) ->
  it st = totalIntensity m dataset rows ->
  length intObs = length dataset ->
  length error = length dataset ->
  error !! j = Some n0 -> (j < length dataset)%nat ->
  numMoves st' = numMoves st /\ it st' = it st /\ heap w' = heap w.
Proof.
  intros H Hc Hi Hit Ho Hel He Hj. revert st w H Hc Hi Hit.
  induction fuel as [|k IH]; intros st w H Hc Hi Hit; simpl in H.
  { by injection H as <- <-. }
  destruct (keepIterating P st); [|by injection H as <- <-].
  bind_inv H as [st1 w1] Hstep.
  pose proof (mcStep_zero_error _ _ _ _ _ _ _ _ _ _ Hstep Hc Hi Hit Ho He Hj)
    as Hm.
  eapply mcStep_Ok in Hstep as (rows1 & Hc1 & Hit1 & Hi1 & _ & Hcase);
    [|done..].
  destruct Hcase as [(_ & -> & Hh)|(Hmv & _)]; [|lia].
  destruct (IH st1 w1 H Hc1 Hi1 Hit1) as (Hm' & Hit' & Hh').
  split_and!; congruence.
Qed.
End ZeroError.

(** ** The convergence value *)

(** X1.  The reduced chi-squared that [optimScalingAndBackground]
    returns is never negative: it is infinity, a rational that is at
    least zero, or NaN, whatever the solver returned for the scaling, in
    both versions and with or without background. *)
Theorem chi_squared_is_never_negative (E : Env) (intObs intCalc error : vec)
    (sc0 sc' : num * num) (ver : nat) (background : bool) (cv : num) :
  optimScalingAndBackground E intObs intCalc error sc0 ver background
    = Ok (sc', cv) ->
  nonneg cv /\ nlt cv n0 = false.
Proof.
  unfold optimScalingAndBackground. intros H.
  apply bind_Ok in H as (s & _ & H).
  assert (nonneg cv) as Hcv.
  { destruct background; injection H as _ <-; apply csqr_v1_nonneg. }
  split; [done|]. by apply nonneg_not_below_zero.
Qed.

Lemma chi_squared_witness :
  exists sc' cv,
    optimScalingAndBackground Example.env Cases.observed Cases.calculated
      Cases.unitErrors (n1, n0) 2 true = Ok (sc', cv) /\
    nonneg cv /\ nlt cv n0 = false.
Proof.
  match goal with
  | |- exists sc' cv, ?run = _ /\ _ =>
      let v := eval vm_compute in run in
      match v with
      | Ok (?s, ?c) =>
          exists s, c; split; [reflexivity|];
          apply (chi_squared_is_never_negative Example.env Cases.observed
                   Cases.calculated Cases.unitErrors (n1, n0) s 2%nat true c)
      end
  end.
  reflexivity.
Defined.

(** X2.  During the loop of [mcFit] the convergence value never
    increases.  Between the state after [k] passes and the state after
    [j] more, either no move was accepted, and then the convergence value,
    the scaling, the totals, the volumes, the cache and the store are
    what they were, or at least one was, and then the convergence value
    is strictly smaller. *)
Theorem convergence_value_never_increases (E : Env) (m : ParticleModel)
    (P : McSASParameters) (dataset : list vec) (w wk w' : World E)
    (k j : nat) (sk s' : FitState) :
  mcFitUpTo E m k P dataset w = Ok (sk, wk) ->
  mcFitUpTo E m (k + j) P dataset w = Ok (s', w') ->
  (numMoves s' = numMoves sk /\ conval s' = conval sk /\ sc s' = sc sk /\
   it s' = it sk /\ vst s' = vst sk /\ vset s' = vset sk /\
   iset s' = iset sk /\ heap w' = heap wk) \/
  ((numMoves sk < numMoves s')%nat /\ nlt (conval s') (conval sk) = true).
Proof.
  unfold mcFitUpTo. intros Hk Hj.
  bind_inv Hk as [st0 w0] Hinit. rewrite Hinit in Hj. simpl in Hj.
  bind_inv Hk as intObs Hobs. rewrite Hobs in Hj. simpl in Hj.
  bind_inv Hk as error Herr. rewrite Herr in Hj. simpl in Hj.
  rewrite mcIterate_add, Hk in Hj. simpl in Hj.
  by eapply mcIterate_conval.
Qed.

(** The example run takes its first trial. *)
Lemma convergence_value_witness :
  exists sk wk s' w',
    mcFitUpTo Example.env Example.model 0 Example.settingsWithPrior
      Example.dataset Example.priorOfThree = Ok (sk, wk) /\
    mcFitUpTo Example.env Example.model (0 + 1) Example.settingsWithPrior
      Example.dataset Example.priorOfThree = Ok (s', w') /\
    ((numMoves s' = numMoves sk /\ conval s' = conval sk /\ sc s' = sc sk /\
      it s' = it sk /\ vst s' = vst sk /\ vset s' = vset sk /\
      iset s' = iset sk /\ heap w' = heap wk) \/
     ((numMoves sk < numMoves s')%nat /\ nlt (conval s') (conval sk) = true)).
Proof.
  match goal with
  | |- exists sk wk s' w', ?run0 = _ /\ ?run1 = _ /\ _ =>
      let v0 := eval vm_compute in run0 in
      let v1 := eval vm_compute in run1 in
      match v0 with
      | Ok (?a, ?b) =>
          match v1 with
          | Ok (?c, ?d) =>
              exists a, b, c, d; split; [reflexivity|]; split; [reflexivity|];
              apply (convergence_value_never_increases Example.env
                       Example.model Example.settingsWithPrior Example.dataset
                       Example.priorOfThree b d 0%nat 1%nat a c)
          end
      end
  end.
  - reflexivity.
  - reflexivity.
Defined.

(** X3.  The loop of [mcFit] counts every pass and makes at most
    [maxIterations] of them; the accepted moves never exceed the passes;
    the index of the contribution to replace is the number of passes
    modulo the number of contributions; and the loop is left only when the
    convergence value is not above the criterion or the number of passes
    has reached [maxIterations]. *)
Theorem loop_counts_its_passes (E : Env) (m : ParticleModel)
    (P : McSASParameters) (dataset : list vec) (w w' : World E) (k : nat)
    (st : FitState) :
  mcFitUpTo E m k P dataset w = Ok (st, w') ->
  (numMoves st <= numIter st)%nat /\
  (numIter st <= k)%nat /\ (numIter st <= maxIterations P)%nat /\
  ri st = (numIter st mod numContribsLocal st)%nat /\
  ((numIter st < k)%nat \/ (maxIterations P <= k)%nat ->
   ngt (conval st) (convergenceCriterion P) = false \/
   numIter st = maxIterations P).
Proof.
  unfold mcFitUpTo. intros H.
  bind_inv H as [st0 w0] Hinit. bind_inv H as intObs Hobs.
  bind_inv H as error Herr.
  apply mcInit_counters in Hinit as (Hm0 & _ & Hi0 & Hr0 & _).
  apply mcIterate_counters in H
    as (Hi & Hexit & _ & Hm & HN & Hri & Hmax & _).
  rewrite Hi0, Hm0 in *. simpl in *.
  split; [lia|]. split; [lia|]. split; [apply Hmax; lia|].
  split; [rewrite HN; apply Hri; by rewrite Hr0, Nat.Div0.mod_0_l|].
  intros Hk.
  destruct (decide (numIter st < k)%nat) as [Hlt|Hge].
  - apply Hexit in Hlt. unfold keepIterating in Hlt.
    apply andb_false_iff in Hlt as [Hc|Hn]; [by left|right].
    apply bool_decide_eq_false in Hn. specialize (Hmax ltac:(lia)). lia.
  - right. specialize (Hmax ltac:(lia)). lia.
Qed.

Lemma loop_counts_witness :
  exists st w',
    mcFitUpTo Example.env Example.model 4 Example.settingsWithPrior
      Example.dataset Example.priorOfThree = Ok (st, w') /\
    (numMoves st <= numIter st)%nat /\
    (numIter st <= 4)%nat /\
    (numIter st <= maxIterations Example.settingsWithPrior)%nat /\
    ri st = (numIter st mod numContribsLocal st)%nat /\
    ((numIter st < 4)%nat \/ (maxIterations Example.settingsWithPrior <= 4)%nat ->
     ngt (conval st) (convergenceCriterion Example.settingsWithPrior) = false \/
     numIter st = maxIterations Example.settingsWithPrior).
Proof.
  match goal with
  | |- exists st w', ?run = _ /\ _ =>
      let v := eval vm_compute in run in
      match v with
      | Ok (?s, ?w0) =>
          exists s, w0; split; [reflexivity|];
          apply (loop_counts_its_passes Example.env Example.model
                   Example.settingsWithPrior Example.dataset
                   Example.priorOfThree w0 4%nat s)
      end
  end.
  reflexivity.
Defined.

(** X4.  The convergence value that [mcFit] returns is the reduced
    chi-squared of the intensity it returns: the mean over the data points
    of the squared difference between the measured and the returned
    intensity, each divided by its uncertainty. *)
Theorem returned_convergence_is_that_of_the_returned_fit (E : Env)
    (m : ParticleModel) (P : McSASParameters) (dataset : list vec)
    (w w' : World E) (r : McFitResult) :
  mcFit E m P dataset w = Ok (r, w') ->
  exists intObs error,
    column dataset 1 = Ok intObs /\ column dataset 2 = Ok error /\
    fitConval r = csqr_v1 intObs (fitIntensity r) error.
Proof.
  unfold mcFit. intros H.
  bind_inv H as [st w1] Hrun. bind_inv H as intObs Hobs.
  bind_inv H as error Herr. bind_inv H as res Hfin. injection H as <- <-.
  exists intObs, error. split_and!; [done..|].
  unfold mcFinish in Hfin. bind_inv Hfin as [scf convalf] Hopt.
  injection Hfin as <-. simpl.
  by apply optimScalingAndBackground_conval in Hopt.
Qed.

Lemma returned_convergence_witness :
  exists r w',
    mcFit Example.env Example.model Example.settingsWithPrior Example.dataset
      Example.priorOfThree = Ok (r, w') /\
    exists intObs error,
      column Example.dataset 1 = Ok intObs /\
      column Example.dataset 2 = Ok error /\
      fitConval r = csqr_v1 intObs (fitIntensity r) error.
Proof.
  match goal with
  | |- exists r w', ?run = _ /\ _ =>
      let v := eval vm_compute in run in
      match v with
      | Ok (?r0, ?w0) =>
          exists r0, w0; split; [reflexivity|];
          apply (returned_convergence_is_that_of_the_returned_fit Example.env
                   Example.model Example.settingsWithPrior Example.dataset
                   Example.priorOfThree w0 r0)
      end
  end.
  reflexivity.
Defined.

(** ** Parameter values and their bounds *)

(** X5.  With random samples from [[0, 1)] and ranges whose bounds are
    numbers, [randUniform] returns as many rows as asked for, and every
    value of every row lies between the smaller and the larger bound of
    its parameter. *)
Theorem random_rows_lie_within_the_bounds (E : Env) (m : ParticleModel)
    (count : nat) (g g' : G E) (rows : list vec) :
  unitSamples E -> finiteRanges m ->
  randUniform E m count g = (rows, g') ->
  length rows = count /\ Forall (inBounds m) rows.
Proof. intros Hu Hf. by apply randUniform_inBounds. Qed.

Lemma random_rows_witness :
  unitSamples Cases.unitEnv /\ finiteRanges Example.model /\
  exists rows g',
    randUniform Cases.unitEnv Example.model 3 (false : G Cases.unitEnv)
      = (rows, g') /\
    toQs rows = [[Some 1%Q]; [Some 2%Q]; [Some 1%Q]] /\
    length rows = 3%nat /\ Forall (inBounds Example.model) rows.
Proof.
  assert (unitSamples Cases.unitEnv) as Hu.
  { intros []; eexists; (split; [reflexivity|]); split; by vm_compute. }
  assert (finiteRanges Example.model) as Hf.
  { repeat constructor; by eexists. }
  split; [exact Hu|]. split; [exact Hf|].
  match goal with
  | |- exists rows g', ?run = _ /\ _ =>
      let v := eval vm_compute in run in
      match v with
      | (?r0, ?g0) =>
          exists r0, g0; split; [reflexivity|]; split; [reflexivity|];
          apply (random_rows_lie_within_the_bounds Cases.unitEnv Example.model
                   3%nat (false : G Cases.unitEnv) g0 r0 Hu Hf)
      end
  end.
  reflexivity.
Defined.

(** X6.  Without a prior and without [startFromMinimum], and with random
    samples from [[0, 1)] and ranges whose bounds are numbers, the
    contribution set that [mcFit] returns has [numContribs] rows and every
    value in it lies within the bounds of its parameter. *)
Theorem fitted_contributions_lie_within_the_bounds (E : Env)
    (m : ParticleModel) (P : McSASParameters) (dataset : list vec)
    (w w' : World E) (r : McFitResult) :
  unitSamples E -> finiteRanges m ->
  sizeOf (heap w) (prior P) = Ok 0%nat -> startFromMinimum P = false ->
  mcFit E m P dataset w = Ok (r, w') ->
  exists rows, deref (heap w') (fitContribs r) = Some rows /\
               length rows = numContribs P /\ Forall (inBounds m) rows.
Proof.
  intros Hu Hf Hsz Hmin. unfold mcFit, mcFitUpTo. intros H.
  bind_inv H as [st w1] Hrun. bind_inv Hrun as [st0 w0] Hinit.
  bind_inv Hrun as intObs Hobs. bind_inv Hrun as error Herr.
  bind_inv H as intObs' Hobs'. bind_inv H as error' Herr'.
  bind_inv H as res Hfin. injection H as <- <-.
  assert (fitContribs res = rset st) as ->.
  { unfold mcFinish in Hfin. bind_inv Hfin as [scf convalf] Hopt.
    by injection Hfin as <-. }
  apply mcInit_Ok in Hinit as (q & rows0 & _ & Hseed & _).
  eapply seed_inBounds in Hseed as (rows & Hd & Hlen & Hall); [|done..].
  eapply mcIterate_inBounds in Hrun as (_ & rows' & Hd' & Hlen' & Hall');
    [|done..].
  exists rows'. split_and!; [done| |done]. congruence.
Qed.

Lemma fitted_contributions_witness :
  unitSamples Cases.unitEnv /\ finiteRanges Example.model /\
  exists r w',
    mcFit Cases.unitEnv Example.model Cases.settingsOfTwoFresh Example.dataset
      Cases.unitWorld = Ok (r, w') /\
    exists rows, deref (heap w') (fitContribs r) = Some rows /\
                 length rows = numContribs Cases.settingsOfTwoFresh /\
                 Forall (inBounds Example.model) rows.
Proof.
  assert (unitSamples Cases.unitEnv) as Hu.
  { intros []; eexists; (split; [reflexivity|]); split; by vm_compute. }
  assert (finiteRanges Example.model) as Hf.
  { repeat constructor; by eexists. }
  split; [exact Hu|]. split; [exact Hf|].
  match goal with
  | |- exists r w', ?run = _ /\ _ =>
      let v := eval vm_compute in run in
      match v with
      | Ok (?r0, ?w0) =>
          exists r0, w0; split; [reflexivity|];
          apply (fitted_contributions_lie_within_the_bounds Cases.unitEnv
                   Example.model Cases.settingsOfTwoFresh Example.dataset
                   Cases.unitWorld w0 r0 Hu Hf)
      end
  end.
  - reflexivity.
  - reflexivity.
  - reflexivity.
Defined.

(** X7.  Whenever a prior of a size other than zero is set, the seeding
    of [mcFit] takes the prior array itself for its contribution set,
    with all of its rows whatever [numContribs] is; it draws no random
    number and leaves the store as it is. *)
Theorem seeding_takes_the_prior_itself (E : Env) (m : ParticleModel)
    (P : McSASParameters) (q : vec) (w : World E) (r : ndref)
    (rows : list vec) :
  prior P = Arr r -> deref (heap w) r = Some rows -> concat rows <> [] ->
  seed E m P q w = Ok (r, length rows, w).
Proof.
  intros Hp Hd Hne. unfold seed, sizeOf, rowsOf. rewrite Hp, Hd. simpl.
  destruct (decide (length (concat rows) = 0%nat)) as [Hz|_].
  { by apply nil_length_inv in Hz. }
  destruct (decide (length rows <> 0%nat)) as [_|Hz]; [done|].
  exfalso. apply Hz. intros Hl. apply nil_length_inv in Hl. by subst.
Qed.

Lemma seeding_takes_the_prior_witness :
  seed Example.env Example.model Example.settingsOfTwo
    [Z2num 1; Z2num 2; Z2num 3] Example.priorOfThreeRows
  = Ok (Whole 0, length [[Z2num 1]; [Z2num 2]; [Z2num 3]],
        Example.priorOfThreeRows).
Proof.
  apply (seeding_takes_the_prior_itself Example.env Example.model
           Example.settingsOfTwo [Z2num 1; Z2num 2; Z2num 3]
           Example.priorOfThreeRows (Whole 0)
           [[Z2num 1]; [Z2num 2]; [Z2num 3]]); done.
Defined.

(** ** Setting up *)

(** X8.  [clipDataset] returns only when neither mask is set and no q
    limits are given; the prepared data are then the rows of the original
    whose q is finite, in their order, and nothing else of the data set
    changes.  With a mask or q limits it never returns. *)
Theorem clipping_keeps_the_rows_of_finite_q (P : McSASParameters)
    (ds ds' : SASData) :
  clipDataset P ds = Ok ds' ->
  maskZeroInt P = false /\ maskNegativeInt P = false /\ qBounds P = None /\
  origin ds' = origin ds /\ sizeBounds ds' = sizeBounds ds /\
  exists data,
    origin ds = Some data /\
    prepared ds'
    = Some (List.filter (fun r => isfinite (default NaN (r !! 0%nat))) data).
Proof.
  unfold clipDataset. intros H.
  bind_inv H as data Hdata. apply from_option_Ok in Hdata.
  bind_inv H as q Hq.
  destruct (maskZeroInt P); [discriminate|].
  destruct (maskNegativeInt P); [discriminate|].
  destruct (qBounds P) as [b|]; [discriminate|]. simpl in H.
  destruct (bool_decide (is_Some (psiBounds P)) && _); [discriminate|].
  injection H as <-. simpl. split_and!; try done.
  exists data. split; [done|]. by rewrite (masked_finite_q data q).
Qed.

Lemma clipping_witness :
  exists ds',
    clipDataset Example.settings Cases.rawData = Ok ds' /\
    maskZeroInt Example.settings = false /\
    maskNegativeInt Example.settings = false /\
    qBounds Example.settings = None /\
    origin ds' = origin Cases.rawData /\
    sizeBounds ds' = sizeBounds Cases.rawData /\
    exists data,
      origin Cases.rawData = Some data /\
      prepared ds'
      = Some (List.filter (fun r => isfinite (default NaN (r !! 0%nat))) data).
Proof.
  eexists. split; [reflexivity|].
  apply (clipping_keeps_the_rows_of_finite_q Example.settings Cases.rawData).
  reflexivity.
Defined.

(** X9.  [fixLength] in [checkParameters] turns a setting into a list
    with one entry per model parameter: a bare value is repeated, a longer
    list is cut, a shorter one is filled up with its first entry.  It
    raises, with [IndexError], only for an empty list when the model has a
    parameter. *)
Theorem fixLength_gives_one_entry_per_parameter {A : Type} (n : nat)
    (v : oneOrList A) :
  match fixLength n v with
  | Ok (Many l) =>
      length l = n /\
      forall i, (i < n)%nat ->
        l !! i = match v with
                 | One x => Some x
                 | Many l0 => if decide (i < length l0)%nat then l0 !! i
                              else l0 !! 0%nat
                 end
  | Ok (One _) => False
  | Raise e => e = IndexError /\ v = Many [] /\ (0 < n)%nat
  end.
Proof.
  destruct v as [x|l0]; simpl.
  - split; [by rewrite length_replicate|].
    intros i Hi. by apply lookup_replicate_2.
  - destruct (decide (n < length l0)%nat) as [Hlt|Hge].
    + split; [rewrite length_take; lia|]. intros i Hi.
      rewrite lookup_take_lt by done.
      by rewrite decide_True by lia.
    + destruct (decide (length l0 < n)%nat) as [Hshort|Hsame].
      * destruct l0 as [|x l0]; simpl; [done|].
        split; [rewrite length_app, length_replicate; simpl in *; lia|].
        intros i Hi. destruct i as [|i]; simpl; [done|].
        destruct (decide (S i < S (length l0))%nat) as [Hin|Hout].
        -- rewrite lookup_app_l by lia. done.
        -- rewrite lookup_app_r by lia. apply lookup_replicate_2.
           simpl in *. lia.
      * split; [lia|]. intros i Hi. by rewrite decide_True by lia.
Qed.

(** X10.  [setData] raises [ValueError] when [Q] is missing, when [I] is
    missing, and when one of the arrays given has another length than
    [Q], whatever the base class does. *)
Theorem setData_rejects_missing_or_uneven_arrays (E : Env)
    (DataSet_setOrigin : option (list vec) -> res (option (list vec)))
    (kw : Kwargs) :
  kwQ kw = None \/ kwI kw = None \/
  (exists q a,
     kwQ kw = Some q /\
     a ∈ optionList (kwI kw) ++ optionList (kwIError kw)
         ++ optionList (kwPsi kw) /\
     length a <> length q) ->
  setData E DataSet_setOrigin kw = Raise ValueError.
Proof.
  unfold setData. intros [HQ|[HI|(q & a & HQ & Ha & Hlen)]].
  - by rewrite HQ.
  - rewrite HI. by destruct (kwQ kw).
  - rewrite HQ. simpl. destruct (kwI kw) as [i|]; [simpl|done].
    simpl in Ha.
    assert (forallb (fun b => bool_decide (length b = length q))
              (i :: optionList (kwIError kw) ++ optionList (kwPsi kw))
            = false) as Hall.
    { apply not_true_is_false. intros Hall.
      rewrite forallb_forall in Hall.
      specialize (Hall a (proj1 (list_elem_of_In _ _) Ha)).
      by apply bool_decide_eq_true in Hall. }
    simpl in Hall. by rewrite Hall.
Qed.

Lemma setData_rejects_witness :
  (kwQ Cases.shortIntensity = None \/ kwI Cases.shortIntensity = None \/
   (exists q a,
      kwQ Cases.shortIntensity = Some q /\
      a ∈ optionList (kwI Cases.shortIntensity)
          ++ optionList (kwIError Cases.shortIntensity)
          ++ optionList (kwPsi Cases.shortIntensity) /\
      length a <> length q)) /\
  setData Example.env Example.keepingDataSet Cases.shortIntensity
  = Raise ValueError.
Proof.
  assert (kwQ Cases.shortIntensity = None \/ kwI Cases.shortIntensity = None \/
          (exists q a,
             kwQ Cases.shortIntensity = Some q /\
             a ∈ optionList (kwI Cases.shortIntensity)
                 ++ optionList (kwIError Cases.shortIntensity)
                 ++ optionList (kwPsi Cases.shortIntensity) /\
             length a <> length q)) as H.
  { right. right. exists [Z2num 1; Z2num 2; Z2num 3], [frac 1 4; frac 1 9].
    split; [reflexivity|]. split; [by left|]. simpl. lia. }
  split; [exact H|].
  exact (setData_rejects_missing_or_uneven_arrays Example.env
           Example.keepingDataSet Cases.shortIntensity H).
Defined.

(** X11.  When neither [IError] nor [Psi] is given, the set-up returns
    data of two columns, and on such data no call of [mcFit] returns,
    whatever the model and the settings: the uncertainties it reads from
    the third column are not there. *)
Theorem fit_without_uncertainties_never_returns (E : Env)
    (DataSet_setOrigin : option (list vec) -> res (option (list vec)))
    (kw : Kwargs) (ds : SASData) (P : McSASParameters) (model : ParticleModel) :
  (forall data, DataSet_setOrigin (Some data) = Ok (Some data)) ->
  kwIError kw = None -> kwPsi kw = None ->
  setup E DataSet_setOrigin kw = Ok (ds, P, model) ->
  exists rows,
    prepared ds = Some rows /\
    Forall (fun r => length r = 2%nat) rows /\
    forall (m' : ParticleModel) (P' : McSASParameters) (w : World E),
      exists e, mcFit E m' P' rows w = Raise e.
Proof.
  intros Hbase HE HP H. unfold setup in H.
  apply bind_Ok in H as ([ds0 bounds] & Hset & H). cbv beta iota zeta in H.
  apply bind_Ok in H as (ds1 & Hclip & H). cbv beta iota zeta in H.
  apply bind_Ok in H as ([P1 model1] & Hcheck & H). injection H as <- <- <-.
  apply setData_origin in Hset as (q & i & data & HQ & HI & Hdata & Horigin);
    [|done].
  rewrite HE, HP in Hdata. simpl in Hdata.
  destruct (bool_decide (length i = length q)); [|discriminate].
  simpl in Hdata. injection Hdata as <-.
  apply clipping_rows in Hclip as (data' & Hd' & ->).
  rewrite Horigin in Hd'. injection Hd' as <-.
  eexists. split; [done|].
  assert (Forall (fun r : vec => length r = 2%nat)
            (List.filter (fun r => isfinite (default NaN (r !! 0%nat)))
               ((fun j => [default n0 (q !! j); default n0 (i !! j)])
                  <$> seq 0 (length q)))) as Hrows.
  { apply List.Forall_forall. intros r Hr. apply filter_In in Hr as [Hr _].
    apply list_elem_of_In, list_elem_of_fmap in Hr as (j & -> & _). done. }
  split; [done|]. intros m' P' w. by apply mcFit_needs_uncertainties.
Qed.

Lemma fit_without_uncertainties_witness :
  exists ds P model,
    setup Example.env Example.keepingDataSet Cases.withoutUncertainties
    = Ok (ds, P, model) /\
    exists rows,
      prepared ds = Some rows /\
      Forall (fun r => length r = 2%nat) rows /\
      forall (m' : ParticleModel) (P' : McSASParameters)
             (w : World Example.env),
        exists e, mcFit Example.env m' P' rows w = Raise e.
Proof.
  match goal with
  | |- exists ds P model, ?run = _ /\ _ =>
      let v := eval vm_compute in run in
      match v with
      | Ok (?d, ?p, ?mo) =>
          exists d, p, mo; split; [reflexivity|];
          apply (fit_without_uncertainties_never_returns Example.env
                   Example.keepingDataSet Cases.withoutUncertainties d p mo)
      end
  end; reflexivity.
Defined.

(** X12.  When [IError] is missing and [Psi] is given, the angles take
    the third column of the data, the one [mcFit] reads the uncertainties
    from: the set-up returns and the prepared data carry there, for the
    points of finite [q], the values of [Psi]. *)
Theorem angles_take_the_place_of_missing_uncertainties (E : Env)
    (DataSet_setOrigin : option (list vec) -> res (option (list vec)))
    (kw : Kwargs) (q i psi : vec) :
  (forall data, DataSet_setOrigin (Some data) = Ok (Some data)) ->
  kwQ kw = Some q -> kwI kw = Some i -> kwIError kw = None ->
  kwPsi kw = Some psi -> kwDataset kw = None ->
  length i = length q -> length psi = length q -> (2 <= length q)%nat ->
  plainSettings (kwSettings kw) ->
  exists ds P model rows,
    setup E DataSet_setOrigin kw = Ok (ds, P, model) /\
    prepared ds = Some rows /\
    column rows 2 = Ok (masked (isfinite <$> q) psi).
Proof.
  intros Hbase HQ HI HE HP HD Hi He Hlen (Hz & Hn & Hq & Hb & Hs).
  destruct (setData_stacked E DataSet_setOrigin kw q i psi (Hbase _) HQ HI)
    as [b Hset]; [by rewrite HE, HP|done..|].
  unfold setup. rewrite Hset. simpl.
  rewrite (clipDataset_Ok (setParameter kw [b.1; b.2]) q i psi b) by done.
  simpl.
  destruct (checkParameters_Ok E (setParameter kw [b.1; b.2]) Hb Hs)
    as (P' & model & ->). simpl.
  eexists _, P', model, _. split_and!; [done..|].
  unfold stacked.
  rewrite (column_masked_fmap _ (fun j => default n0 (psi !! j))) by done.
  by rewrite <- He, fmap_lookup_seq.
Qed.

Lemma angles_witness :
  exists ds P model rows,
    setup Example.env Example.keepingDataSet Cases.withPsiOnly
      = Ok (ds, P, model) /\
    prepared ds = Some rows /\
    column rows 2
    = Ok (masked (isfinite <$> [Z2num 1; Z2num 2; Z2num 3])
            [Z2num 10; Z2num 20; Z2num 30]).
Proof.
  apply (angles_take_the_place_of_missing_uncertainties Example.env
           Example.keepingDataSet Cases.withPsiOnly
           [Z2num 1; Z2num 2; Z2num 3] [frac 1 4; frac 1 9; frac 1 16]
           [Z2num 10; Z2num 20; Z2num 30]); try reflexivity.
  - simpl. lia.
  - by split_and!.
Defined.



(** ** What [analyse] does with a fit *)

(** X14.  [analyse] cannot store the fit of a prior whose number of rows
    is neither [numContribs] nor one: [mcFit] returns the prior with all
    of its rows, and the assignment of that array to the slice
    [contributions[:, :, nr]] raises [ValueError]. *)
Theorem fit_of_an_uneven_prior_cannot_be_stored (E : Env)
    (m : ParticleModel) (P : McSASParameters) (dataset : list vec)
    (w w1 : World E) (res : McFitResult) (p : ndref) (rows0 : list vec) :
  mcFit E m P dataset w = Ok (res, w1) ->
  prior P = Arr p -> deref (heap w) p = Some rows0 -> concat rows0 <> [] ->
  length rows0 <> numContribs P -> length rows0 <> 1%nat ->
  forall (L : Locals) (nr : nat),
    assignFit E m P (length dataset) L nr res w1 = Raise ValueError.
Proof.
  intros Hfit Hp Hd Hne HR H1 L nr.
  apply mcFit_frame in Hfit
    as [_ [(Hp' & _ & rows0' & rows & Hd0 & Hd1 & Hlen)|(Hsz & _)]].
  - rewrite Hp in Hp'. injection Hp' as ->.
    rewrite Hd in Hd0. injection Hd0 as <-.
    unfold assignFit. rewrite Hd1. simpl.
    rewrite (broadcastTo_rows (numContribs P) (paramCount m) rows);
      [reflexivity|by rewrite Hlen..].
  - exfalso. unfold sizeOf, rowsOf in Hsz. rewrite Hp, Hd in Hsz.
    simpl in Hsz. injection Hsz as Hsz. by apply nil_length_inv in Hsz.
Qed.

Lemma fit_of_an_uneven_prior_witness :
  exists res w1,
    mcFit Example.env Example.model Example.settingsOfTwo Example.dataset
      Example.priorOfThreeRows = Ok (res, w1) /\
    forall (L : Locals) (nr : nat),
      assignFit Example.env Example.model Example.settingsOfTwo
        (length Example.dataset) L nr res w1 = Raise ValueError.
Proof.
  match goal with
  | |- exists res w1, ?run = _ /\ _ =>
      let v := eval vm_compute in run in
      match v with
      | Ok (?r0, ?w0) =>
          exists r0, w0; split; [reflexivity|];
          apply (fit_of_an_uneven_prior_cannot_be_stored Example.env
                   Example.model Example.settingsOfTwo Example.dataset
                   Example.priorOfThreeRows w0 r0 (Whole 0)
                   [[Z2num 1]; [Z2num 2]; [Z2num 3]])
      end
  end; try reflexivity; try done; simpl; lia.
Defined.

(** X15.  In the low-memory mode the total intensity is a column until a
    move is accepted.  The fit of a call of [mcFit] that accepted no move
    carries its intensity in that shape, and for data of more than one
    point the assignment of [analyse] to the slice
    [contribIntensity[:, :, nr]] raises [ValueError]. *)
Theorem low_memory_fit_without_a_move_cannot_be_stored (E : Env)
    (m : ParticleModel) (P : McSASParameters) (dataset : list vec)
    (w w1 : World E) (res : McFitResult) :
  lowMemoryFootprint P = true ->
  mcFit E m P dataset w = Ok (res, w1) ->
  fitNumMoves res = 0%nat -> (1 < length dataset)%nat ->
  fitIntensityColumn res = true /\
  forall (L : Locals) (nr : nat),
    assignFit E m P (length dataset) L nr res w1 = Raise ValueError.
Proof.
  intros Hlow Hfit Hmoves Hn. unfold mcFit, mcFitUpTo in Hfit.
  bind_inv Hfit as [st w2] Hrun. bind_inv Hrun as [st0 w0] Hinit.
  bind_inv Hrun as intObs Hobs. bind_inv Hrun as error Herr.
  bind_inv Hfit as intObs' Hobs'. bind_inv Hfit as error' Herr'.
  bind_inv Hfit as r Hfin. injection Hfit as <- <-.
  pose proof (mcInit_counters E m _ _ _ _ _ Hinit) as (Hm0 & _ & _ & _ & Hcol0).
  apply mcInit_Ok in Hinit as (q & rows0 & _ & _ & Hc0 & Hit0 & Hi0 & _).
  pose proof (mcIterate_counters E m _ _ _ _ _ _ _ _ _ Hrun)
    as (_ & _ & _ & _ & _ & _ & _ & Hcol).
  eapply mcIterate_Ok in Hrun as (rows & (Hd & _) & Hit & _);
    [|done|done|done|rewrite Hm0; lia|by eapply column_length..].
  unfold mcFinish in Hfin. bind_inv Hfin as [scf convalf] Hopt.
  injection Hfin as <-. simpl in *.
  rewrite Hcol by (by rewrite Hcol0, Hm0, Hlow).
  rewrite Hlow, Hmoves. split; [done|]. intros L nr.
  unfold assignFit. simpl. rewrite Hd. simpl.
  destruct (broadcastTo (numContribs P) (paramCount m) rows)
    as [slice|e] eqn:Hslice; simpl.
  - set (xs := vadds _ _).
    assert (length xs = length dataset) as Hlen.
    { unfold xs, smear, vadds, vscale, vdivs.
      by rewrite !length_fmap, Hit, totalIntensity_length. }
    unfold broadcastTo. rewrite mapM_broadcast_singletons. simpl.
    rewrite length_fmap.
    destruct (decide (length xs = 1%nat)); [lia|].
    destruct xs as [|a [|b xs]]; simpl in *; try lia. done.
  - f_equal. by eapply broadcastTo_Raise.
Qed.

Lemma low_memory_fit_witness :
  exists res w1,
    mcFit Example.env Example.model Cases.settingsLowMemory Example.dataset
      Example.drawsOfHalf = Ok (res, w1) /\
    fitIntensityColumn res = true /\
    forall (L : Locals) (nr : nat),
      assignFit Example.env Example.model Cases.settingsLowMemory
        (length Example.dataset) L nr res w1 = Raise ValueError.
Proof.
  match goal with
  | |- exists res w1, ?run = _ /\ _ =>
      let v := eval vm_compute in run in
      match v with
      | Ok (?r0, ?w0) =>
          exists r0, w0; split; [reflexivity|];
          apply (low_memory_fit_without_a_move_cannot_be_stored Example.env
                   Example.model Cases.settingsLowMemory Example.dataset
                   Example.drawsOfHalf w0 r0)
      end
  end; try reflexivity. simpl. lia.
Defined.


(** ** The histogram *)

(** X17.  On a linear scale, with a range of finite bounds and at least
    one bin, the bins of [histogram] split the range from its smaller
    bound up to, but not including, its larger bound: a contribution is
    counted in some bin exactly when its value lies there, it is never
    counted in two bins, and a value equal to the larger bound is counted
    in none. *)
Theorem linear_bins_split_the_range (E : Env) (range : num * num)
    (bins : nat) (r : num) :
  is_fin range.1 -> is_fin range.2 -> (0 < bins)%nat ->
  let lo := pymin range.1 range.2 in
  let hi := pymax range.1 range.2 in
  let edges := histogramEdges E ScaleLin range bins in
  ((exists j, inBin edges j r) <-> nge r lo = true /\ nlt r hi = true) /\
  (forall i j, inBin edges i r -> inBin edges j r -> i = j) /\
  (forall j, inBin edges j r -> (j < bins)%nat) /\
  (forall j, ~ inBin edges j hi).
Proof.
  intros [a Ha] [b Hb] Hbins. destruct range as [ra rb]. simpl in Ha, Hb.
  subst ra rb. destruct bins as [|n]; [lia|]. cbn zeta.
  unfold histogramEdges. cbn [fst snd].
  destruct (pymin_pymax_Fin a b) as (lo & hi & -> & -> & Hle).
  pose proof (bins_partition lo hi n Hle) as Hpart.
  split; [|split; [|split]].
  - split.
    + intros [j Hj]. by apply (Hpart r) in Hj as (_ & ? & ?).
    + intros [H1 H2]. destruct (proj1 (Hpart r) H1 H2) as (j & _ & Hj & _).
      by exists j.
  - intros i j Hi Hj.
    destruct (proj2 (Hpart r) i Hi) as (_ & H1 & H2).
    destruct (proj1 (Hpart r) H1 H2) as (k & _ & _ & Hk).
    by rewrite (Hk i Hi), (Hk j Hj).
  - intros j Hj. by apply (Hpart r) in Hj as (? & _).
  - intros j Hj. apply (Hpart (Fin hi)) in Hj as (_ & _ & Hj).
    simpl in Hj. apply Qcltb_lt in Hj. apply Qclt_not_le in Hj. apply Hj, Qcle_refl.
Qed.

Lemma linear_bins_witness :
  is_fin (Z2num 4, n0).1 /\ is_fin (Z2num 4, n0).2 /\ (0 < 2)%nat /\
  histogramEdges Example.env ScaleLin (Z2num 4, n0) 2 = [n0; Z2num 2; Z2num 4] /\
  inBin (histogramEdges Example.env ScaleLin (Z2num 4, n0) 2) 1 (Z2num 2) /\
  let lo := pymin (Z2num 4, n0).1 (Z2num 4, n0).2 in
  let hi := pymax (Z2num 4, n0).1 (Z2num 4, n0).2 in
  let edges := histogramEdges Example.env ScaleLin (Z2num 4, n0) 2 in
  ((exists j, inBin edges j (Z2num 2)) <->
   nge (Z2num 2) lo = true /\ nlt (Z2num 2) hi = true) /\
  (forall i j, inBin edges i (Z2num 2) -> inBin edges j (Z2num 2) -> i = j) /\
  (forall j, inBin edges j (Z2num 2) -> (j < 2)%nat) /\
  (forall j, ~ inBin edges j hi).
Proof.
  assert (is_fin (Z2num 4, n0).1) as H1 by (by eexists).
  assert (is_fin (Z2num 4, n0).2) as H2 by (by eexists).
  assert (0 < 2)%nat as H3 by lia.
  split; [exact H1|]. split; [exact H2|]. split; [exact H3|].
  split; [by vm_compute|]. split; [by vm_compute|].
  exact (linear_bins_split_the_range Example.env (Z2num 4, n0) 2 (Z2num 2)
           H1 H2 H3).
Defined.

(** X18.  [histogram] never computes the minimum required number
    fraction: the array is made of zeros and only divided by the total
    number fraction, so in every bin of every parameter the reported
    [numberHistogramMinimumRequired] is zero or not a number. *)
Theorem number_minimum_is_zero_or_nan (E : Env) (m : ParticleModel)
    (P : McSASParameters) (dataset : list vec) (result : list AnalysisResult)
    (hs : list (list HistogramBin)) :
  histogram E m P dataset result = Ok hs ->
  Forall (Forall (fun b => zeroOrNaN (numberHistogramMinimumRequired b))) hs.
Proof.
  intros H. unfold histogram in H.
  apply bind_Ok in H as (r0 & _ & H).
  apply bind_Ok in H as (intensity & _ & H).
  apply bind_Ok in H as (error & _ & H).
  apply bind_Ok in H as (fractions & Hfr & H).
  assert (Forall (fun '(_, (_, _, _, mrn, _)) => Forall zeroOrNaN mrn)
            fractions) as Hmrn.
  { apply mapM_Ok in Hfr. clear H.
    induction Hfr as [|rows y l k Hy _ IH]; constructor; [|done].
    apply bind_Ok in Hy as ([[[[vf nf] mrv] mrn] sc] & Hf & Hy).
    injection Hy as <-.
    by apply fractionsOfRepetition_minReqNum in Hf as [_ ?]. }
  apply mapM_Ok in H.
  induction H as [|[paramIndex range] bins l k Hb _ IH]; constructor; [|done].
  apply bind_Ok in Hb as (scale & _ & Hb).
  apply bind_Ok in Hb as (nbins & _ & Hb).
  apply bind_Ok in Hb as (reps & Hreps & Hb).
  assert (Forall (fun r => Forall zeroOrNaN (repMinReqNum r)) reps) as Hall.
  { apply mapM_Ok in Hreps. clear Hb Hfr. revert Hmrn.
    induction Hreps as [|[rows [[[[vf nf] mrv] mrn] sc]] y l' k' Hy _ IH'];
      intros Hmrn; constructor.
    - apply Forall_cons in Hmrn as [Hm _].
      apply bind_Ok in Hy as (values & _ & Hy). by injection Hy as <-.
    - apply IH'. by apply Forall_cons in Hmrn as [_ ?]. }
  unfold histogramOfParameter in Hb. apply mapM_Ok in Hb.
  clear Hreps. induction Hb as [|bini b l' k' Hbin _ IH']; constructor; [|done].
  by eapply histogramBin_minReqNum.
Qed.

Lemma number_minimum_witness :
  exists hs,
    histogram Example.env Example.model Cases.settingsChecked Example.dataset
      [Cases.resultOfTwo] = Ok hs /\
    length <$> hs = [2%nat] /\
    Forall (Forall (fun b => zeroOrNaN (numberHistogramMinimumRequired b))) hs.
Proof.
  match goal with
  | |- exists hs, ?run = _ /\ _ =>
      let v := eval vm_compute in run in
      match v with
      | Ok ?h => exists h; split; [vm_compute; reflexivity|];
                 split; [reflexivity|];
                 apply (number_minimum_is_zero_or_nan Example.env Example.model
                          Cases.settingsChecked Example.dataset
                          [Cases.resultOfTwo] h)
      end
  end.
  vm_compute. reflexivity.
Defined.



(** ** The data set *)

(** X20.  [SASData.setOrigin] works out the size bounds from the largest
    q, the smallest q and the smallest difference of neighbouring q.  It
    returns only for data of at least two points: without data the
    indexing raises, without a point the maximum of q raises, and with a
    single point there is no difference to take the minimum of.  When it
    returns, the size bounds are set and no prepared data are. *)
Theorem size_bounds_need_two_data_points (E : Env)
    (DataSet_setOrigin : option (list vec) -> res (option (list vec)))
    (data : option (list vec)) (ds : SASData) :
  setOrigin E DataSet_setOrigin data = Ok ds ->
  exists rows q,
    data = Some rows /\ (2 <= length rows)%nat /\ column rows 0 = Ok q /\
    DataSet_setOrigin data = Ok (origin ds) /\ prepared ds = None /\
    exists qmax qmin dmin,
      npmax q = Ok qmax /\ npmin q = Ok qmin /\ npmin (npdiff q) = Ok dmin /\
      sizeBounds ds = Some (ndiv (nppi E) qmax,
                            ndiv (nppi E) (pymin (nabs qmin) (nabs dmin))).
Proof.
  intros H. unfold setOrigin in H.
  apply bind_Ok in H as (kept & Hkept & H).
  apply bind_Ok in H as (rows & Hrows & H). apply from_option_Ok in Hrows.
  apply bind_Ok in H as (q & Hq & H).
  apply bind_Ok in H as (qmax & Hmax & H).
  apply bind_Ok in H as (qmin & Hmin & H).
  apply bind_Ok in H as (dmin & Hd & H).
  injection H as <-. exists rows, q. simpl.
  split; [done|]. split; [|split; [done|split; [done|split; [done|]]]].
  - rewrite <- (column_length rows 0 q Hq).
    destruct q as [|a [|b q]]; [done|done|simpl; lia].
  - by exists qmax, qmin, dmin.
Qed.

Lemma size_bounds_witness :
  exists ds rows q,
    setOrigin Example.env Example.keepingDataSet (Some Example.dataset) = Ok ds /\
    Some Example.dataset = Some rows /\ (2 <= length rows)%nat /\
    column rows 0 = Ok q /\
    Example.keepingDataSet (Some Example.dataset) = Ok (origin ds) /\
    prepared ds = None /\
    exists qmax qmin dmin,
      npmax q = Ok qmax /\ npmin q = Ok qmin /\ npmin (npdiff q) = Ok dmin /\
      sizeBounds ds = Some (ndiv (nppi Example.env) qmax,
                            ndiv (nppi Example.env)
                              (pymin (nabs qmin) (nabs dmin))).
Proof.
  match goal with
  | |- exists ds rows q, ?run = _ /\ _ =>
      let v := eval vm_compute in run in
      match v with
      | Ok ?d =>
          exists d;
          assert (run = Ok d) as Hrun by (vm_compute; reflexivity);
          destruct (size_bounds_need_two_data_points Example.env
                      Example.keepingDataSet (Some Example.dataset) d Hrun)
            as (rows & q & Hrest);
          exists rows, q; split; [exact Hrun|exact Hrest]
      end
  end.
Defined.

(** ** A fit of data with an uncertainty of zero *)

(** X21.  When the uncertainty of one data point is zero, every
    chi-squared that [mcFit] computes is infinite or not a number, so no
    trial is ever taken: the fit returns the contributions it started
    from, without a move, and with such a convergence value. *)
Theorem zero_uncertainty_stops_every_move (E : Env) (m : ParticleModel)
    (P : McSASParameters) (dataset : list vec) (w w' : World E)
    (r : McFitResult) (j : nat) (row : vec) :
  mcFit E m P dataset w = Ok (r, w') ->
  dataset !! j = Some row -> row !! 2%nat = Some n0 ->
  fitNumMoves r = 0%nat /\ infOrNaN (fitConval r) /\
  exists st0 w0,
    mcInit E m P dataset w = Ok (st0, w0) /\
    fitContribs r = rset st0 /\ heap w' = heap w0.
Proof.
  intros H Hrow Hzero. unfold mcFit, mcFitUpTo in H.
  apply bind_Ok in H as ([st w1] & Hloop & H).
  apply bind_Ok in Hloop as ([st0 w0] & Hinit & Hloop).
  apply bind_Ok in Hloop as (intObs & Hobs & Hloop).
  apply bind_Ok in Hloop as (error & Herr & Hloop).
  rewrite Hobs, Herr in H. simpl in H.
  apply bind_Ok in H as (res & Hfin & H). injection H as <- <-.
  pose proof (column_length _ _ _ Hobs) as Ho.
  pose proof (column_length _ _ _ Herr) as He.
  assert (error !! j = Some n0) as Hej.
  { by rewrite (column_lookup dataset 2 j error row Herr Hrow). }
  assert (j < length dataset)%nat as Hj by (by eapply lookup_lt_Some).
  pose proof (mcInit_Ok E m P dataset w w0 st0 Hinit)
    as (q & rows & _ & _ & Hc & Hit & Hi & Hm0 & _).
  destruct (mcIterate_zero_error E m _ _ _ _ _ _ _ _ _ rows j Hloop Hc Hi Hit
              Ho He Hej Hj) as (Hm & Hit' & Hh).
  assert (rset st = rset st0) as Hrs.
  { eapply mcIterate_Ok in Hloop as (rows' & _ & _ & Hr & _); try done.
    by rewrite Hm0; lia. }
  unfold mcFinish in Hfin.
  apply bind_Ok in Hfin as ([scf convalf] & Hopt & Hfin).
  apply optimScalingAndBackground_conval in Hopt as Hcv.
  injection Hfin as <-. simpl. split; [by rewrite Hm|]. split.
  - rewrite Hcv. apply (csqr_v1_zero_error _ _ _ j Hej); [lia|].
    unfold vadds, vscale, vdivs, smear.
    rewrite !length_fmap, Hit', Hit, totalIntensity_length. lia.
  - exists st0, w0. by split_and!.
Qed.

Lemma zero_uncertainty_witness :
  exists r w',
    mcFit Example.env Example.model Example.settings Cases.zeroErrorData
      Example.drawsOfHalf = Ok (r, w') /\
    fitNumIterations r = 4%nat /\
    fitNumMoves r = 0%nat /\ infOrNaN (fitConval r) /\
    exists st0 w0,
      mcInit Example.env Example.model Example.settings Cases.zeroErrorData
        Example.drawsOfHalf = Ok (st0, w0) /\
      fitContribs r = rset st0 /\ heap w' = heap w0.
Proof.
  match goal with
  | |- exists r w', ?run = _ /\ _ =>
      let v := eval vm_compute in run in
      match v with
      | Ok (?r0, ?w0) =>
          exists r0, w0; split; [reflexivity|]; split; [reflexivity|];
          apply (zero_uncertainty_stops_every_move Example.env Example.model
                   Example.settings Cases.zeroErrorData
                   Example.drawsOfHalf w0 r0 1%nat
                   [Z2num 2; frac 1 9; n0])
      end
  end; reflexivity.
Defined.
